(** * TwixMRIAnonymizer: a shallow embedding of [twixanonymizer/anonymize.py]

    The development follows the layers of the program:
    - [Py]      : the few Python notions the code relies on (exceptions,
                  insertion-ordered dictionaries, [str.split], slices);
    - [Re]      : the fragment of Python's [re] module used by the pattern
                  catalog, as a backtracking matcher with capture groups;
    - [Redactor]: [_get_date] and [anonymize_twix_header];
    - [Container]: [struct] packing, the two streams, [anonymize_twix_vb],
                  [anonymize_twix_vd] and [read_and_anonymize].

    A header text is the latin-1 decoding of bytes, so a character is one of
    256 code points: exactly Rocq's [ascii]. *)

From Stdlib Require Import String Ascii NArith ZArith Lia Bool Arith PeanoNat List.
Import ListNotations.

Set Implicit Arguments.

Local Open Scope nat_scope.
Local Open Scope list_scope.

(* ================================================================= *)
(** ** Python notions *)

Module Py.

(** A Python [str] obtained by decoding latin-1. *)
Definition text := list ascii.

Definition txt (s : string) : text := list_ascii_of_string s.

(** The exceptions the modelled code can raise. *)
Inductive exn : Set :=
| AttributeError     (* [None.group(...)] *)
| IndexError         (* list index out of range *)
| ValueError         (* [strptime] failure, bad [read] size, bad [seek] *)
| TypeError          (* [len(None)], joining [None] *)
| StructError        (* [struct.unpack] on a buffer of the wrong size *)
| UnboundLocalError  (* a local read before any assignment *)
| FileNotFoundError.

Inductive res (A : Type) : Type :=
| Ok (a : A)
| Raise (e : exn).
Arguments Ok {A} a.
Arguments Raise {A} e.

Definition bind {A B} (x : res A) (f : A -> res B) : res B :=
  match x with
  | Ok a => f a
  | Raise e => Raise e
  end.

Definition is_ok {A} (x : res A) : bool :=
  match x with Ok _ => true | Raise _ => false end.

(** [o] or raise [e] when [o] is Python's [None]. *)
Definition orraise {A} (o : option A) (e : exn) : res A :=
  match o with Some a => Ok a | None => Raise e end.

(** A [dict] with [str] keys: an association list in insertion order;
    assigning to a present key keeps its place. *)
Section Dict.
Variable V : Type.

Definition dict := list (string * V).

Fixpoint dict_get (k : string) (d : dict) : option V :=
  match d with
  | [] => None
  | (k', v) :: d' => if String.eqb k k' then Some v else dict_get k d'
  end.

Fixpoint dict_set (k : string) (v : V) (d : dict) : dict :=
  match d with
  | [] => [(k, v)]
  | (k', v') :: d' =>
      if String.eqb k k' then (k', v) :: d' else (k', v') :: dict_set k v d'
  end.

Definition dict_keys (d : dict) : list string := map fst d.
End Dict.

(** [s[a:b]] for [0 <= a <= b]. *)
Definition slice {A} (a b : nat) (s : list A) : list A :=
  firstn (b - a) (skipn a s).

(** [s[:-n]] and [s[-n:]] for [n > 0]. *)
Definition drop_last {A} (n : nat) (s : list A) : list A :=
  firstn (length s - n) s.
Definition take_last {A} (n : nat) (s : list A) : list A :=
  skipn (length s - n) s.

(** [s.split(sep)] for a one-character separator: the current component is
    accumulated in [cur]. *)
Fixpoint split_on (sep : ascii) (cur : text) (s : text) : list text :=
  match s with
  | [] => [rev cur]
  | c :: s' =>
      if Ascii.eqb c sep then rev cur :: split_on sep [] s'
      else split_on sep (c :: cur) s'
  end.

Definition split (sep : ascii) (s : text) : list text := split_on sep [] s.

End Py.
Export Py.

Notation "x <- e ;; k" := (bind e (fun x => k))
  (at level 61, e at next level, right associativity).

(* ================================================================= *)
(** ** The [re] fragment *)

Module Re.

(** Character sets.  The patterns are [str] patterns, so the classes are
    the Unicode ones, restricted here to the 256 latin-1 code points. *)
Inductive cset : Set :=
| CChar (c : ascii)          (* a literal character *)
| CDot                       (* [.] without DOTALL *)
| CSpace                     (* [\s] *)
| CDigit                     (* [\d] *)
| CWord                      (* [\w] *)
| CRange (lo hi : ascii)     (* [[lo-hi]] *)
| CUnion (a b : cset).       (* [[ab]] *)

Definition code (c : ascii) : N := N_of_ascii c.

Definition between (lo hi n : N) : bool := ((lo <=? n) && (n <=? hi))%N.

Definition is_space (c : ascii) : bool :=
  let n := code c in
  (between 9 13 n || between 28 32 n || (n =? 133) || (n =? 160))%N.

Definition is_digit (c : ascii) : bool := between 48 57 (code c).

(** [str.isalnum] or underscore, on latin-1. *)
Definition is_word (c : ascii) : bool :=
  let n := code c in
  (between 48 57 n || between 65 90 n || (n =? 95) || between 97 122 n
   || (n =? 170) || (n =? 178) || (n =? 179) || (n =? 181)
   || between 185 186 n || between 188 190 n
   || between 192 214 n || between 216 246 n || between 248 255 n)%N.

Fixpoint mem (p : cset) (c : ascii) : bool :=
  match p with
  | CChar c' => Ascii.eqb c c'
  | CDot => negb (code c =? 10)%N
  | CSpace => is_space c
  | CDigit => is_digit c
  | CWord => is_word c
  | CRange lo hi => between (code lo) (code hi) (code c)
  | CUnion a b => mem a c || mem b c
  end.

(** Regular expressions.  Every repetition of the catalog is over a single
    character set, which [Star] records; [r+] is [Seq (Set_ p) (Star p)],
    [r?] is [Alt r Eps]. *)
Inductive re : Set :=
| Eps
| Set_ (p : cset)
| Star (p : cset)            (* greedy [p*] *)
| Seq (r1 r2 : re)
| Alt (r1 r2 : re)           (* first alternative preferred *)
| Grp (n : nat) (r : re).    (* capture group number [n] *)

Definition groups := list (nat * text).

(** The most recent capture of group [n]. *)
Fixpoint lookup (n : nat) (g : groups) : option text :=
  match g with
  | [] => None
  | (n', t) :: g' => if n =? n' then Some t else lookup n g'
  end.

Section Matcher.
Variable R : Type.

(** What to do with the rest of the subject once a prefix is consumed;
    [None] asks the matcher to backtrack. *)
Definition cont := text -> groups -> option R.

Fixpoint star (p : cset) (s : text) (g : groups) (k : cont) : option R :=
  match s with
  | c :: s' =>
      if mem p c then
        match star p s' g k with
        | Some x => Some x
        | None => k s g
        end
      else k s g
  | [] => k s g
  end.

Fixpoint run (r : re) (s : text) (g : groups) (k : cont) : option R :=
  match r with
  | Eps => k s g
  | Set_ p =>
      match s with
      | c :: s' => if mem p c then k s' g else None
      | [] => None
      end
  | Star p => star p s g k
  | Seq r1 r2 => run r1 s g (fun s1 g1 => run r2 s1 g1 k)
  | Alt r1 r2 =>
      match run r1 s g k with
      | Some x => Some x
      | None => run r2 s g k
      end
  | Grp n r1 =>
      run r1 s g
        (fun s1 g1 => k s1 ((n, firstn (length s - length s1) s) :: g1))
  end.
End Matcher.

(** A match object: the matched text [m.group()] and the captures. *)
Record rmatch : Set := MkMatch { m_text : text; m_groups : groups }.

(** [m.group(n)]; [None] when the group did not take part. *)
Definition group (m : rmatch) (n : nat) : option text := lookup n (m_groups m).

(** One attempt at the start of [s]; with [adv] an empty match is refused
    (the engine's must-advance flag after an empty match). *)
Definition match_at (r : re) (s : text) (adv : bool) : option (rmatch * text) :=
  run r s []
    (fun s1 g1 =>
       if adv && (length s1 =? length s) then None
       else Some (MkMatch (firstn (length s - length s1) s) g1, s1)).

(** [re.search]: the leftmost position with a match; the text before the
    match and the text after it come with the match. *)
Fixpoint search_from (r : re) (s : text) : option (text * rmatch * text) :=
  match match_at r s false with
  | Some (m, rest) => Some ([], m, rest)
  | None =>
      match s with
      | [] => None
      | c :: s' =>
          match search_from r s' with
          | Some (pre, m, rest) => Some (c :: pre, m, rest)
          | None => None
          end
      end
  end.

Definition re_search (r : re) (s : text) : option rmatch :=
  match search_from r s with
  | Some (_, m, _) => Some m
  | None => None
  end.

(** What [re.sub] emits at one position and how many characters the
    matches found there consume.  After an empty match the engine retries
    the same position for a non-empty one. *)
Definition sub_step (r : re) (f : rmatch -> res text) (s : text)
  : res (text * nat) :=
  match match_at r s false with
  | None => Ok ([], 0)
  | Some (m, _) =>
      e1 <- f m ;;
      match length (m_text m) with
      | S n => Ok (e1, S n)
      | O =>
          match match_at r s true with
          | None => Ok (e1, 0)
          | Some (m2, _) =>
              e2 <- f m2 ;; Ok (e1 ++ e2, length (m_text m2))
          end
      end
  end.

(** [re.sub(r, f, s)] with a callable [f]: left to right, non-overlapping.
    [skip] counts the characters of the current match still to pass. *)
Fixpoint sub_walk (r : re) (f : rmatch -> res text) (s : text) (skip : nat)
  : res text :=
  match skip with
  | S n =>
      match s with
      | [] => Ok []
      | _ :: s' => sub_walk r f s' n
      end
  | O =>
      en <- sub_step r f s ;;
      let '(e, n) := en in
      match s with
      | [] => Ok e
      | c :: s' =>
          match n with
          | O => t <- sub_walk r f s' 0 ;; Ok (e ++ c :: t)
          | S n' => t <- sub_walk r f s' n' ;; Ok (e ++ t)
          end
      end
  end.

Definition re_sub (r : re) (f : rmatch -> res text) (s : text) : res text :=
  sub_walk r f s 0.

(** Pattern notation helpers. *)
Fixpoint lit (s : text) : re :=
  match s with
  | [] => Eps
  | c :: s' => Seq (Set_ (CChar c)) (lit s')
  end.

Definition str (s : string) : re := lit (txt s).
Definition chr (c : ascii) : re := Set_ (CChar c).
Definition plus (p : cset) : re := Seq (Set_ p) (Star p).
Definition opt (r : re) : re := Alt r Eps.

Fixpoint seqs (rs : list re) : re :=
  match rs with
  | [] => Eps
  | [r] => r
  | r :: rs' => Seq r (seqs rs')
  end.

Fixpoint times (n : nat) (r : re) : re :=
  match n with
  | O => Eps
  | S n' => Seq r (times n' r)
  end.

End Re.
Export Re.

(* ================================================================= *)
(** ** The Field Redactor *)

Module Redactor.

Definition dq : ascii := ascii_of_nat 34.   (* the double quote *)
Definition nl : ascii := ascii_of_nat 10.   (* the newline *)
Definition dot : ascii := ascii_of_nat 46.  (* the full stop *)
Definition c0 : ascii := ascii_of_nat 48.   (* the digit zero *)
Definition cx : ascii := ascii_of_nat 120.  (* the placeholder, lower-case x *)

Definition ws : re := Star CSpace.                  (* [\s*] *)
Definition any1 : re := Set_ CDot.                  (* [.] *)
Definition digits1 : re := plus CDigit.             (* [\d+] *)
Definition quoted (r : re) : re := seqs [chr dq; r; chr dq].

(** The patterns are quoted in the comments below with Q for the double
    quote and a blank before a closing bracket that follows a star. *)

(** [<Kind.QnameQ>] for a name given as a pattern. *)
Definition tag_re (kind : string) (name : re) : re :=
  seqs [str "<"; str kind; any1; chr dq; name; chr dq; str ">"].
Definition tag (kind name : string) : re := tag_re kind (str name).

(** [(\s*<Visible>\s*QtrueQ\s* )?], capture group 2. *)
Definition visible : re :=
  opt (Grp 2 (seqs [ws; str "<Visible>"; ws; quoted (str "true"); ws])).

(** [<Precision> \d+\s*] *)
Definition precision : re := seqs [str "<Precision> "; digits1; ws].

(** [\d+\.\d*] *)
Definition decimal : re := seqs [digits1; chr dot; Star CDigit].

(** [(<ParamString.QNAMEQ>\s*\{\s*Q)(.+)(Q\s*\}\n)] *)
Definition string_field (name : string) : re :=
  seqs [Grp 1 (seqs [tag "ParamString" name; ws; str "{"; ws; chr dq]);
        Grp 2 (plus CDot);
        Grp 3 (seqs [chr dq; ws; str "}"; chr nl])].

(** [(<ParamLong.QNAMEQ>\s*\{\s* )(\d+)(\s*\}\n)] *)
Definition long_field (name : string) : re :=
  seqs [Grp 1 (seqs [tag "ParamLong" name; ws; str "{"; ws]);
        Grp 2 digits1;
        Grp 3 (seqs [ws; str "}"; chr nl])].

(** [(<ParamDouble.QNAMEQ>\s*\{\s*<Precision> \d+\s* )(\d+\.\d* )(\s*\}\n)] *)
Definition double_field (name : string) : re :=
  seqs [Grp 1 (seqs [tag "ParamDouble" name; ws; str "{"; ws; precision]);
        Grp 2 decimal;
        Grp 3 (seqs [ws; str "}"; chr nl])].

(** [(<ParamString.QNAMEQ>\s*\{(VISIBLE)?\s*Q)(.+)(Q\s*\}\n)] *)
Definition vis_string_field (name : re) : re :=
  seqs [Grp 1 (seqs [tag_re "ParamString" name; ws; str "{"; visible; ws;
                     chr dq]);
        Grp 3 (plus CDot);
        Grp 4 (seqs [chr dq; ws; str "}"; chr nl])].

(** [(<ParamLong.QNAMEQ>\s*\{(VISIBLE)?\s* )(\d+)(\s*\}\n)] *)
Definition vis_long_field (name : re) : re :=
  seqs [Grp 1 (seqs [tag_re "ParamLong" name; ws; str "{"; visible; ws]);
        Grp 3 digits1;
        Grp 4 (seqs [ws; str "}"; chr nl])].

(** [(<ParamDouble.QNAMEQ>\s*\{(VISIBLE)?\s*EXTRA<Precision> \d+\s* )(\d+\.\d* )(\s*\}\n)] *)
Definition vis_double_field (name : string) (extra : re) : re :=
  seqs [Grp 1 (seqs [tag "ParamDouble" name; ws; str "{"; visible; ws; extra;
                     precision]);
        Grp 3 decimal;
        Grp 4 (seqs [ws; str "}"; chr nl])].

Definition catalog := list (string * re).

Definition number_buffer : catalog :=
  [ ("Patient_id"%string, string_field "PatientID");
    ("Device_serial"%string, string_field "DeviceSerialNumber");
    ("Exam_memory_uid"%string, string_field "ExamMemoryUID");
    ("PatientLOID"%string, string_field "PatientLOID");
    ("StudyLOID"%string, string_field "StudyLOID");
    ("SeriesLOID"%string, string_field "SeriesLOID");
    ("Study"%string, string_field "Study");
    ("FrameOfReference"%string, string_field "FrameOfReference");
    ("Patient"%string, string_field "Patient");
    ("MeasUID"%string, string_field "MeasUID") ].

Definition x_buffer : catalog :=
  [ ("Patient_name"%string,
      vis_string_field
        (seqs [opt (str "t"); str "Patient"; opt (str "s"); str "Name"]));
    ("InstitutionAddress"%string, vis_string_field (str "InstitutionAddress"));
    ("InstitutionName"%string, vis_string_field (str "InstitutionName")) ].

Definition zero_buffer : catalog :=
  [ ("Patient_gender"%string,
      vis_long_field (seqs [opt (str "l"); str "PatientSex"]));
    ("Patient_age"%string, vis_double_field "flPatientAge" Eps);
    ("Patient_weight"%string, vis_double_field "flUsedPatientWeight" Eps);
    ("Patient_height"%string,
      vis_double_field "flPatientHeight"
        (seqs [str "<Unit> "; quoted (str "[mm]"); ws]));
    ("Patient_birthday"%string,
      seqs [Grp 1 (seqs [tag "ParamString" "PatientBirthDay"; ws; str "{";
                         visible; ws; chr dq]);
            Grp 3 (times 8 (Set_ CDigit));
            Grp 4 (seqs [chr dq; ws; str "}"; chr nl])]);
    ("ulVersion"%string, vis_long_field (str "ulVersion")) ].

Definition meta_buffer : catalog :=
  [ ("tBodyPartExamined"%string, string_field "tBodyPartExamined");
    ("Sequence"%string, string_field "SequenceDescription");
    ("TurboFactor"%string, long_field "TurboFactor");
    ("ReadoutOversamplingFactor"%string,
      double_field "ReadoutOversamplingFactor");
    ("NSlc"%string, long_field "NSlc");
    ("PhaseEncodingLines"%string, long_field "PhaseEncodingLines");
    ("ReadFoV"%string, double_field "ReadFoV");
    ("PhaseFoV"%string, double_field "PhaseFoV");
    ("PhaseResolution"%string, double_field "PhaseResolution");
    ("TR"%string, double_field "TR");
    ("TI"%string, double_field "TI");
    ("flMagneticFieldStrength"%string, double_field "flMagneticFieldStrength");
    ("PatientPosition"%string, string_field "PatientPosition") ].

(** [(<ParamString.QFrameOfReferenceQ>  { )(Q.+Q)(  }\n)]: the pattern
    of the exam-date lookup, with its fixed blanks and the quotes inside
    group 2. *)
Definition frame_of_reference_re : re :=
  seqs [Grp 1 (seqs [tag "ParamString" "FrameOfReference"; str "  { "]);
        Grp 2 (seqs [chr dq; plus CDot; chr dq]);
        Grp 3 (seqs [str "  }"; chr nl])].

(** [Q[\d\.]*{0}[\d\.]*Q] formatted with [exam_date].  The date is
    spliced into the pattern as it is; it has passed [strptime] by then and
    so holds digits and blanks only (see [get_date_chars]), which stand for
    themselves in a pattern. *)
Definition digits_dots : cset := CUnion CDigit (CChar dot).
Definition sweep_re (exam_date : text) : re :=
  seqs [chr dq; Star digits_dots; lit exam_date; Star digits_dots; chr dq].

(** *** [_get_date] *)

(** The expression [strptime] compiles for the format [%y%m%d]:
    [(?P<y>\d\d)(?P<m>1[0-2]|0[1-9]|[1-9])(?P<d>3[0-1]|[1-2]\d|0[1-9]|[1-9]| [1-9])],
    with groups y, m, d numbered 1, 2, 3. *)
Definition rng (lo hi : string) : re :=
  match txt lo, txt hi with
  | [a], [b] => Set_ (CRange a b)
  | _, _ => Eps
  end.

Definition strptime_re : re :=
  seqs [Grp 1 (seqs [Set_ CDigit; Set_ CDigit]);
        Grp 2 (Alt (seqs [str "1"; rng "0" "2"])
              (Alt (seqs [str "0"; rng "1" "9"])
                   (rng "1" "9")));
        Grp 3 (Alt (seqs [str "3"; rng "0" "1"])
              (Alt (seqs [rng "1" "2"; Set_ CDigit])
              (Alt (seqs [str "0"; rng "1" "9"])
              (Alt (rng "1" "9")
                   (seqs [str " "; rng "1" "9"])))))].

(** [int(s)] on text made of blanks and decimal digits. *)
Fixpoint lstrip (s : text) : text :=
  match s with
  | c :: s' => if is_space c then lstrip s' else s
  | [] => []
  end.

Definition strip (s : text) : text := rev (lstrip (rev (lstrip s))).

Fixpoint int_digits (acc : N) (s : text) : res N :=
  match s with
  | [] => Ok acc
  | c :: s' =>
      if is_digit c then int_digits (10 * acc + (code c - 48))%N s'
      else Raise ValueError
  end.

Definition py_int (s : text) : res N :=
  match strip s with
  | [] => Raise ValueError
  | t => int_digits 0 t
  end.

Definition is_leap (y : N) : bool :=
  ((y mod 4 =? 0) && (negb (y mod 100 =? 0) || (y mod 400 =? 0)))%N.

Definition days_in_month (y m : N) : N :=
  match m with
  | 1 | 3 | 5 | 7 | 8 | 10 | 12 => 31
  | 4 | 6 | 9 | 11 => 30
  | 2 => if is_leap y then 29 else 28
  | _ => 0
  end%N.

(** [datetime.strptime(s, "%y%m%d")] as (year, month, day): the whole of
    [s] must match, a two-digit year up to 68 is in the 2000s and from 69
    on in the 1900s, and the day must exist in the month. *)
Definition strptime (s : text) : res (N * N * N) :=
  match match_at strptime_re s false with
  | None => Raise ValueError
  | Some (m, rest) =>
      match rest with
      | _ :: _ => Raise ValueError
      | [] =>
          y <- bind (orraise (group m 1) TypeError) py_int ;;
          mo <- bind (orraise (group m 2) TypeError) py_int ;;
          d <- bind (orraise (group m 3) TypeError) py_int ;;
          let year := (if y <=? 68 then 2000 + y else 1900 + y)%N in
          if ((1 <=? d) && (d <=? days_in_month year mo))%N
          then Ok (year, mo, d)
          else Raise ValueError
      end
  end.

Definition digit_char (n : N) : ascii := ascii_of_N (48 + n mod 10).
Definition two (n : N) : text := [digit_char (n / 10); digit_char n].
Definition four (n : N) : text :=
  [digit_char (n / 1000); digit_char (n / 100); digit_char (n / 10);
   digit_char n].

(** [date.strftime("%Y-%m-%d")] for a year of four digits. *)
Definition strftime (ymd : N * N * N) : text :=
  let '(y, m, d) := ymd in
  four y ++ txt "-" ++ two m ++ txt "-" ++ two d.

Definition get_date (date_str : text) : res text :=
  date_obj <- strptime date_str ;;
  Ok (strftime date_obj).

(** *** [anonymize_twix_header] *)

(** The match mapping; a value is [None] where Python would store [None]. *)
Definition matches := dict (option text).

(** The replacement callbacks of the three rewriting loops. *)
Definition number_repl (m : rmatch) : res text :=
  g1 <- orraise (group m 1) TypeError ;;
  g2 <- orraise (group m 2) TypeError ;;
  g3 <- orraise (group m 3) TypeError ;;
  Ok (g1 ++ repeat c0 (length g2) ++ g3).

Definition zero_repl (m : rmatch) : res text :=
  g1 <- orraise (group m 1) TypeError ;;
  g3 <- orraise (group m 3) TypeError ;;
  g4 <- orraise (group m 4) TypeError ;;
  z <- re_sub (Set_ CDigit) (fun _ => Ok [c0]) g3 ;;
  Ok (g1 ++ z ++ g4).

Definition x_repl (m : rmatch) : res text :=
  g1 <- orraise (group m 1) TypeError ;;
  g3 <- orraise (group m 3) TypeError ;;
  g4 <- orraise (group m 4) TypeError ;;
  Ok (g1 ++ repeat cx (length g3) ++ g4).

Definition sweep_repl (m : rmatch) : res text :=
  re_sub (Set_ CWord) (fun _ => Ok [cx]) (m_text m).

Definition state := (text * matches)%type.

(** One turn of [for key, buffer in number_buffer.items()]. *)
Definition number_pass (st : state) (kb : string * re) : res state :=
  let '(header_string, ms) := st in
  let '(key, buffer) := kb in
  match re_search buffer header_string with
  | Some m =>
      let ms' := dict_set key (group m 2) ms in
      h' <- re_sub buffer number_repl header_string ;;
      Ok (h', ms')
  | None => Ok st
  end.

(** One turn of [for key, buffer in zero_buffer.items()]. *)
Definition zero_pass (st : state) (kb : string * re) : res state :=
  let '(header_string, ms) := st in
  let '(key, buffer) := kb in
  match re_search buffer header_string with
  | Some m =>
      let ms' := dict_set key (group m 3) ms in
      h' <- re_sub buffer zero_repl header_string ;;
      Ok (h', ms')
  | None => Ok st
  end.

(** One turn of [for key, buffer in x_buffer.items()]: no test of the
    match before [match.group(3)]. *)
Definition x_pass (st : state) (kb : string * re) : res state :=
  let '(header_string, ms) := st in
  let '(key, buffer) := kb in
  m <- orraise (re_search buffer header_string) AttributeError ;;
  let ms' := dict_set key (group m 3) ms in
  h' <- re_sub buffer x_repl header_string ;;
  Ok (h', ms').

(** One turn of [for key, buffer in meta_buffer.items()]. *)
Definition meta_pass (st : state) (kb : string * re) : res state :=
  let '(header_string, ms) := st in
  let '(key, buffer) := kb in
  match re_search buffer header_string with
  | Some m => Ok (header_string, dict_set key (group m 2) ms)
  | None => Ok st
  end.

(** A [for] loop over a catalog, stopped by the first exception. *)
Fixpoint for_each (pass : state -> string * re -> res state)
  (buf : catalog) (st : state) : res state :=
  match buf with
  | [] => Ok st
  | kb :: buf' => st' <- pass st kb ;; for_each pass buf' st'
  end.

(** [exam_date], computed before any rewriting. *)
Definition exam_date_of (header_string : text) : res text :=
  m <- orraise (re_search frame_of_reference_re header_string)
         AttributeError ;;
  frame_of_reference <- orraise (group m 2) AttributeError ;;
  exam_date_time <- orraise (nth_error (split dot frame_of_reference) 10)
                      IndexError ;;
  Ok (slice 2 8 exam_date_time).

Definition sweep (exam_date : text) (header_string : text) : res text :=
  re_sub (sweep_re exam_date) sweep_repl header_string.

Definition anonymize_twix_header (header_string : text) : res state :=
  exam_date <- exam_date_of header_string ;;
  d <- get_date exam_date ;;
  let ms := dict_set "Exam_date" (Some d) [] in
  st1 <- for_each number_pass number_buffer (header_string, ms) ;;
  st2 <- for_each zero_pass zero_buffer st1 ;;
  st3 <- for_each x_pass x_buffer st2 ;;
  st4 <- for_each meta_pass meta_buffer st3 ;;
  h5 <- sweep exam_date (fst st4) ;;
  Ok (h5, snd st4).

End Redactor.
Export Redactor.

(* ================================================================= *)
(** ** Containers: [struct], the two streams, the readers and writers *)

Module Container.

Definition bytes := list Byte.byte.

(** [b.decode("latin-1")] and [s.encode("latin-1")]: one byte per
    character, both ways. *)
Definition decode (b : bytes) : text := map ascii_of_byte b.
Definition encode (s : text) : bytes := map byte_of_ascii s.

(** *** [struct] with native little-endian layout *)

Definition byte_val (b : Byte.byte) : Z := Z.of_N (Byte.to_N b).

Definition byte_of_Z (z : Z) : Byte.byte :=
  match Byte.of_N (Z.to_N z) with
  | Some b => b
  | None => Byte.x00
  end.

Fixpoint uint_of_bytes (bs : bytes) : Z :=
  match bs with
  | [] => 0%Z
  | b :: bs' => (byte_val b + 256 * uint_of_bytes bs')%Z
  end.

Fixpoint bytes_of_uint (n : nat) (v : Z) : bytes :=
  match n with
  | O => []
  | S n' => byte_of_Z (v mod 256) :: bytes_of_uint n' (v / 256)
  end.

(** A fixed-width bytes field ([64s]): cut or padded with zero bytes. *)
Definition pad_to (n : nat) (bs : bytes) : bytes :=
  firstn n (bs ++ repeat Byte.x00 n).

(** [struct.unpack("I", b)[0]] *)
Definition unpack_I (b : bytes) : res Z :=
  if length b =? 4 then Ok (uint_of_bytes b) else Raise StructError.

(** [struct.pack("I", v)] for [v] in range. *)
Definition pack_I (v : Z) : bytes := bytes_of_uint 4 v.

(** [struct.unpack("II", b)] *)
Definition unpack_II (b : bytes) : res (Z * Z) :=
  if length b =? 8
  then Ok (uint_of_bytes (slice 0 4 b), uint_of_bytes (slice 4 8 b))
  else Raise StructError.

Definition pack_II (a b : Z) : bytes := bytes_of_uint 4 a ++ bytes_of_uint 4 b.

(** One row of the measurement table, [IIQQ64s64s]: 152 bytes, no padding
    between the members. *)
Record entry : Set := MkEntry {
  meas_id : Z;
  file_id : Z;
  offset : Z;
  length_ : Z;
  patient_name : bytes;
  protocol_name : bytes
}.

Definition unpack_entry (b : bytes) : res entry :=
  if length b =? 152
  then Ok (MkEntry (uint_of_bytes (slice 0 4 b))
                   (uint_of_bytes (slice 4 8 b))
                   (uint_of_bytes (slice 8 16 b))
                   (uint_of_bytes (slice 16 24 b))
                   (slice 24 88 b)
                   (slice 88 152 b))
  else Raise StructError.

Definition pack_entry (e : entry) : bytes :=
  bytes_of_uint 4 (meas_id e) ++ bytes_of_uint 4 (file_id e)
  ++ bytes_of_uint 8 (offset e) ++ bytes_of_uint 8 (length_ e)
  ++ pad_to 64 (patient_name e) ++ pad_to 64 (protocol_name e).

(** *** The input and the output stream *)

(** [fin] is a read-only view with a position; [fout] starts empty, and a
    write past its end fills the gap with zero bytes. *)
Record io : Set := MkIo {
  fin_data : bytes;
  fin_pos : nat;
  fout_data : bytes;
  fout_pos : nat
}.

(** Stream actions: the state survives an exception, as the bytes already
    written survive on disk. *)
Definition M (A : Type) : Type := io -> res A * io.

Definition ret {A} (a : A) : M A := fun s => (Ok a, s).

Definition bindM {A B} (m : M A) (f : A -> M B) : M B :=
  fun s =>
    match m s with
    | (Ok a, s') => f a s'
    | (Raise e, s') => (Raise e, s')
    end.

Definition lift {A} (r : res A) : M A := fun s => (r, s).

Notation "x <~ e ;; k" := (bindM e (fun x => k))
  (at level 61, e at next level, right associativity).
Notation "e ;;; k" := (bindM e (fun _ => k))
  (at level 61, right associativity).

(** An offset must fit the signed 64-bit file position. *)
Definition max_off : Z := (2 ^ 63)%Z.

Definition fin_seek (off : Z) : M unit :=
  fun s =>
    if (off <? max_off)%Z
    then (Ok tt, MkIo (fin_data s) (Z.to_nat off) (fout_data s) (fout_pos s))
    else (Raise ValueError, s).

(** [fin.read(n)]: up to [n] bytes, all the rest for [-1], an error for a
    size below [-1]. *)
Definition fin_read (n : Z) : M bytes :=
  fun s =>
    let rest := skipn (fin_pos s) (fin_data s) in
    if (n <? -1)%Z then (Raise ValueError, s)
    else
      let got := if (n =? -1)%Z then rest else firstn (Z.to_nat n) rest in
      (Ok got,
       MkIo (fin_data s) (fin_pos s + length got) (fout_data s) (fout_pos s)).

Definition fout_seek (off : Z) : M unit :=
  fun s =>
    if (off <? max_off)%Z
    then (Ok tt, MkIo (fin_data s) (fin_pos s) (fout_data s) (Z.to_nat off))
    else (Raise ValueError, s).

(** The file content after writing [b] at position [p]. *)
Definition write_at (p : nat) (b : bytes) (d : bytes) : bytes :=
  match b with
  | [] => d
  | _ => firstn p (d ++ repeat Byte.x00 (p - length d)) ++ b
         ++ skipn (p + length b) d
  end.

Definition fout_write (b : bytes) : M unit :=
  fun s =>
    (Ok tt,
     MkIo (fin_data s) (fin_pos s)
          (write_at (fout_pos s) b (fout_data s)) (fout_pos s + length b)).

(** *** [anonymize_twix_vb] *)

Definition anonymize_twix_vb (meta_only : bool) : M matches :=
  raw <~ fin_read 4 ;;
  header_size <~ lift (unpack_I raw) ;;
  header <~ fin_read (header_size - 4) ;;
  let header_string := decode (drop_last 24 header) in
  r <~ lift (anonymize_twix_header header_string) ;;
  let '(anonymized_header, ms) := r in
  (if meta_only then ret tt
   else
     fout_write (pack_I header_size) ;;;
     fout_write (encode anonymized_header) ;;;
     fout_write (take_last 24 header) ;;;
     rest <~ fin_read (-1) ;;
     fout_write rest) ;;;
  ret ms.

(** *** [anonymize_twix_vd] *)

Definition anon_patient_name : bytes := encode (repeat cx 64).

(** What one turn of the loop reads for measurement [i]: the table entry,
    [header_size], the header bytes, and the redactor's result. *)
Record measurement : Type := MkMeas {
  ms_entry : entry;
  ms_header_size : Z;
  ms_header : bytes;
  ms_anonymized : text;
  ms_matches : matches
}.

Definition read_measurement (i : nat) : M measurement :=
  fin_seek (8 + 152 * Z.of_nat i) ;;;
  raw <~ fin_read 152 ;;
  e <~ lift (unpack_entry raw) ;;
  fin_seek (offset e) ;;;
  raw4 <~ fin_read 4 ;;
  header_size <~ lift (unpack_I raw4) ;;
  header <~ fin_read (header_size - 4) ;;
  let header_string := decode (drop_last 24 header) in
  r <~ lift (anonymize_twix_header header_string) ;;
  ret (MkMeas e header_size header (fst r) (snd r)).

Definition write_measurement (i : nat) (m : measurement) : M unit :=
  let e := ms_entry m in
  fout_seek (8 + 152 * Z.of_nat i) ;;;
  fout_write
    (pack_entry (MkEntry (meas_id e) (file_id e) (offset e) (length_ e)
                         anon_patient_name (protocol_name e))) ;;;
  fout_seek (offset e) ;;;
  fout_write (pack_I (ms_header_size m)) ;;;
  fout_write (encode (ms_anonymized m)) ;;;
  fout_write (take_last 24 (ms_header m)) ;;;
  payload <~ fin_read (length_ e - ms_header_size m) ;;
  fout_write payload.

(** The body of [for i in range(num_measurements)]. *)
Definition vd_turn (meta_only : bool) (i : nat) : M matches :=
  m <~ read_measurement i ;;
  (if meta_only then ret tt else write_measurement i m) ;;;
  ret (ms_matches m).

(** The loop over the indices [idx]; [cur] is the local [matches], [None]
    while it is unbound. *)
Fixpoint vd_loop (meta_only : bool) (idx : list nat) (cur : option matches)
  : M (option matches) :=
  match idx with
  | [] => ret cur
  | i :: idx' =>
      ms <~ vd_turn meta_only i ;;
      vd_loop meta_only idx' (Some ms)
  end.

Definition anonymize_twix_vd (meta_only : bool) : M matches :=
  raw <~ fin_read 8 ;;
  hd <~ lift (unpack_II raw) ;;
  let '(twix_id, num_measurements) := hd in
  (if meta_only then ret tt
   else fout_write (pack_II twix_id num_measurements)) ;;;
  cur <~ vd_loop meta_only (seq 0 (Z.to_nat num_measurements)) None ;;
  lift (orraise cur UnboundLocalError).

(** *** [read_and_anonymize] and [write_csv] *)

(** The disk: the content of each path; and the record table kept at
    [csv_path], one row per processed file. *)
Record world : Type := MkWorld {
  files : string -> option bytes;
  table : list matches
}.

Definition put_file (p : string) (c : option bytes)
  (fs : string -> option bytes) : string -> option bytes :=
  fun q => if String.eqb q p then c else fs q.

(** [Path(p).stem] for a path with [/] separators. *)
Fixpoint last_component (cur : text) (p : text) : text :=
  match p with
  | [] => rev cur
  | c :: p' =>
      if Ascii.eqb c "/" then last_component [] p'
      else last_component (c :: cur) p'
  end.

Fixpoint drop_suffix (name : text) : text :=
  match name with
  | [] => []
  | c :: name' =>
      if existsb (Ascii.eqb dot) name' then c :: drop_suffix name'
      else if Ascii.eqb c dot then [] else c :: drop_suffix name'
  end.

Definition stem (p : string) : text :=
  match last_component [] (txt p) with
  | [] => []
  | c :: name => c :: drop_suffix name
  end.

(** [write_csv]: the row leads with the output identity and the input
    path, then the match mapping; it is appended to the table. *)
Definition csv_row (out_path original_filename : string) (ms : matches)
  : matches :=
  fold_left (fun d kv => dict_set (fst kv) (snd kv) d) ms
    [("anonymized_id"%string, Some (stem out_path));
     ("orig_filename"%string, Some (txt original_filename))].

(** The dispatcher's rule on the first two unsigned integers. *)
Definition is_vd (first_uint second_uint : Z) : bool :=
  (first_uint =? 0)%Z && (second_uint <=? 64)%Z.

(** [read_and_anonymize] for the input at [filename], the output path
    [out_path] drawn in [save_path] (taken to differ from [filename]), and
    a record table at a given [csv_path].  The outcome is [Ok] or the
    exception that leaves the method. *)
Definition read_and_anonymize (filename out_path : string) (meta_only : bool)
  (w : world) : res unit * world :=
  match files w filename with
  | None => (Raise FileNotFoundError, w)
  | Some data =>
      match unpack_II (firstn 8 data) with
      | Raise e => (Raise e, w)
      | Ok (first_uint, second_uint) =>
          (* fin.seek(0); open(out_path, "wb") *)
          let s0 := MkIo data 0 [] 0 in
          let run :=
            if is_vd first_uint second_uint
            then anonymize_twix_vd meta_only
            else anonymize_twix_vb meta_only in
          match run s0 with
          | (Raise e, s1) =>
              (* the with-blocks close both files; nothing is removed *)
              (Raise e,
               MkWorld (put_file out_path (Some (fout_data s1)) (files w))
                       (table w))
          | (Ok ms, s1) =>
              let tbl := table w ++ [csv_row out_path filename ms] in
              let closed := put_file out_path (Some (fout_data s1)) (files w) in
              (Ok tt,
               MkWorld (if meta_only then put_file out_path None closed
                        else closed)
                       tbl)
          end
      end
  end.

(** *** [anonymize_twix] *)

(** The loop of [anonymize_twix] over the files found in a directory, or
    its one call for a single file.  Each input comes with the output path
    drawn for it, the record table is shared, and an exception leaves the
    loop at once. *)
Fixpoint anonymize_twix (jobs : list (string * string)) (meta_only : bool)
  (w : world) : res unit * world :=
  match jobs with
  | [] => (Ok tt, w)
  | (filename, out_path) :: jobs' =>
      match read_and_anonymize filename out_path meta_only w with
      | (Ok _, w1) => anonymize_twix jobs' meta_only w1
      | (Raise e, w1) => (Raise e, w1)
      end
  end.

End Container.
Export Container.

(* ================================================================= *)
(** ** Specification vocabulary *)

Module Spec.

(** [mt r u g g']: the expression [r] can consume exactly [u], turning the
    captures [g] into [g'].  The matcher picks one such reading, by its
    priorities. *)
Inductive mt : re -> text -> groups -> groups -> Prop :=
| mt_eps g : mt Eps [] g g
| mt_set p c g : mem p c = true -> mt (Set_ p) [c] g g
| mt_star p u g : Forall (fun c => mem p c = true) u -> mt (Star p) u g g
| mt_seq r1 r2 u v g g1 g2 :
    mt r1 u g g1 -> mt r2 v g1 g2 -> mt (Seq r1 r2) (u ++ v) g g2
| mt_alt_l r1 r2 u g g' : mt r1 u g g' -> mt (Alt r1 r2) u g g'
| mt_alt_r r1 r2 u g g' : mt r2 u g g' -> mt (Alt r1 r2) u g g'
| mt_grp n r u g g' : mt r u g g' -> mt (Grp n r) u g ((n, u) :: g').

(** The group numbers an expression can set. *)
Fixpoint names (r : re) : list nat :=
  match r with
  | Eps | Set_ _ | Star _ => []
  | Seq r1 r2 | Alt r1 r2 => names r1 ++ names r2
  | Grp n r1 => n :: names r1
  end.

Definition fresh (n : nat) (r : re) : bool :=
  negb (existsb (Nat.eqb n) (names r)).

(** [r] is [(A)(B)(C)] with the three groups numbered [a], [b], [c], none
    of which is set again further right. *)
Definition tiled (a b c : nat) (r : re) : bool :=
  match r with
  | Seq (Grp a' A) (Seq (Grp b' B) (Grp c' C)) =>
      (a =? a') && (b =? b') && (c =? c')
      && negb (a =? b) && negb (a =? c) && negb (b =? c)
      && fresh a B && fresh a C && fresh b C
  | _ => false
  end.

(** Every character of [t] is [c]. *)
Definition all_char (c : ascii) (t : text) : Prop := t = repeat c (length t).

(** [r] cannot match the empty text. *)
Fixpoint nonempty_re (r : re) : bool :=
  match r with
  | Eps | Star _ => false
  | Set_ _ => true
  | Seq r1 r2 => nonempty_re r1 || nonempty_re r2
  | Alt r1 r2 => nonempty_re r1 && nonempty_re r2
  | Grp _ r1 => nonempty_re r1
  end.

(** The three parts of a tiled expression. *)
Definition parts (r : re) : re * re * re :=
  match r with
  | Seq (Grp _ A) (Seq (Grp _ B) (Grp _ C)) => (A, B, C)
  | _ => (Eps, Eps, Eps)
  end.

(** [u] is in the language of [r], whatever the captures. *)
Definition lang (r : re) (u : text) : Prop := exists g g', mt r u g g'.

(** What a length-preserving policy does to the first match [m] of a
    field located between [pre] and [post] in [h]: the value [v] gives
    way to as many [fill] characters, the syntax around it stays, the
    original value is recorded under [key], and the text after the match
    is rewritten in the same way. *)
Definition redacts (fill : ascii) (a b c : nat)
  (repl : rmatch -> res text) (key : string) (buffer : re)
  (h pre : text) (m : rmatch) (post : text) (st' : state) : Prop :=
  exists g1 v g3 rest',
    group m a = Some g1 /\ group m b = Some v /\ group m c = Some g3
    /\ h = pre ++ (g1 ++ v ++ g3) ++ post
    /\ fst st' = pre ++ (g1 ++ repeat fill (length v) ++ g3) ++ rest'
    /\ re_sub buffer repl post = Ok rest'
    /\ length rest' = length post
    /\ dict_get key (snd st') = Some (Some v).

Fixpoint text_eqb (a b : text) : bool :=
  match a, b with
  | [], [] => true
  | x :: a', y :: b' => Ascii.eqb x y && text_eqb a' b'
  | _, _ => false
  end.

(** The year [strptime] reads in a two-digit year. *)
Definition pivot_year (yy : N) : N :=
  (if yy <=? 68 then 2000 + yy else 1900 + yy)%N.

Definition iso_date (year mm dd : N) : text :=
  four year ++ txt "-" ++ two mm ++ txt "-" ++ two dd.

Definition upto (a n : nat) : list N := map N.of_nat (seq a n).

(** One line of the table behind [get_date_table]. *)
Definition date_check (yy mm dd : N) : bool :=
  match get_date (two yy ++ two mm ++ two dd) with
  | Ok fd => text_eqb fd (iso_date (pivot_year yy) mm dd)
  | Raise _ => true
  end.

(** The exam-date sentence as the specification words it: the raw value
    between the quotes is split on the full stop, and the two-digit year
    counts from 2000. *)
Definition exam_date_claim : Prop :=
  forall h h' ms m fq c yy mm dd,
    anonymize_twix_header h = Ok (h', ms) ->
    re_search frame_of_reference_re h = Some m ->
    group m 2 = Some (dq :: fq ++ [dq]) ->
    nth_error (split dot fq) 10 = Some c ->
    slice 2 8 c = two yy ++ two mm ++ two dd ->
    (yy < 100)%N -> (1 <= mm <= 12)%N -> (1 <= dd <= 31)%N ->
    dict_get "Exam_date" ms = Some (Some (iso_date (2000 + yy) mm dd)).

(** The 256 characters. *)
Definition all_chars : list ascii := map ascii_of_nat (seq 0 256).

(** Every character of [p] is in [q]. *)
Definition subset (p q : cset) : bool :=
  forallb (fun c => implb (mem p c) (mem q c)) all_chars.

(** Every character [r] can consume is in [q]. *)
Fixpoint all_sets (q : cset) (r : re) : bool :=
  match r with
  | Eps => true
  | Set_ p | Star p => subset p q
  | Seq r1 r2 | Alt r1 r2 => all_sets q r1 && all_sets q r2
  | Grp _ r1 => all_sets q r1
  end.



(** What the final sweep does to one character of a match. *)
Definition mask (c : ascii) : ascii := if is_word c then cx else c.


Definition contains (d q : text) : Prop := exists a b, q = a ++ d ++ b.






(** The measurement read for index [i] from the input [data] alone. *)
Definition measurement_at (data : bytes) (i : nat) : res measurement :=
  fst (read_measurement i (MkIo data 0 [] 0)).

(** The state with the output stream of [t] and the input stream of [s]. *)
Definition with_fout (s t : io) : io :=
  MkIo (fin_data s) (fin_pos s) (fout_data t) (fout_pos t).

(** [fin.read(n)] at position [pos] of [data], for [n >= -1]. *)
Definition read_bytes (data : bytes) (pos : nat) (n : Z) : bytes :=
  if (n =? -1)%Z then skipn pos data
  else firstn (Z.to_nat n) (skipn pos data).

(** Where the header block of a measurement starts. *)
Definition block_start (m : measurement) : nat :=
  Z.to_nat (offset (ms_entry m)).

(** What [read_measurement] has established when it returns [m] for the
    index [i] of the input [data]. *)
Definition measured (data : bytes) (i : nat) (m : measurement) : Prop :=
  unpack_entry (firstn 152 (skipn (8 + 152 * i) data)) = Ok (ms_entry m)
  /\ unpack_I (firstn 4 (skipn (block_start m) data)) = Ok (ms_header_size m)
  /\ ms_header m
     = read_bytes data (block_start m + 4) (ms_header_size m - 4)
  /\ anonymize_twix_header (decode (drop_last 24 (ms_header m)))
     = Ok (ms_anonymized m, ms_matches m).

(** The payload copied after the header of [m]. *)
Definition payload_of (data : bytes) (m : measurement) : bytes :=
  read_bytes data (block_start m + 4 + length (ms_header m))
    (length_ (ms_entry m) - ms_header_size m).

(** The writes of one turn of the loop, as (position, bytes). *)
Definition turn_writes (data : bytes) (i : nat) (m : measurement)
  : list (nat * bytes) :=
  let e := ms_entry m in
  let off := block_start m in
  let b1 := pack_I (ms_header_size m) in
  let b2 := encode (ms_anonymized m) in
  let b3 := take_last 24 (ms_header m) in
  [ (8 + 152 * i,
     pack_entry (MkEntry (meas_id e) (file_id e) (offset e) (length_ e)
                         anon_patient_name (protocol_name e)));
    (off, b1);
    (off + length b1, b2);
    (off + length b1 + length b2, b3);
    (off + length b1 + length b2 + length b3, payload_of data m) ].

Definition apply_writes (ws : list (nat * bytes)) (d : bytes) : bytes :=
  fold_left (fun d w => write_at (fst w) (snd w) d) ws d.

Definition covers (w : nat * bytes) (j : nat) : Prop :=
  fst w <= j < fst w + length (snd w).

(** The regions of a Variant A container, by byte position [j]. *)
Definition in_row (i j : nat) : Prop :=
  8 + 152 * i <= j < 8 + 152 * i + 152.

Definition name_field (i j : nat) : Prop :=
  8 + 152 * i + 24 <= j < 8 + 152 * i + 88.

Definition text_region (m : measurement) (j : nat) : Prop :=
  block_start m + 4 <= j
  < block_start m + 4 + length (drop_last 24 (ms_header m)).

Definition in_block (data : bytes) (m : measurement) (j : nat) : Prop :=
  block_start m <= j
  < block_start m + 4 + length (ms_header m) + length (payload_of data m).

(** Positions the redaction is meant to change: the header text of a
    measurement and the patient-name field of a table row. *)
Definition redacted (data : bytes) (n : nat) (j : nat) : Prop :=
  exists i m, i < n /\ measurement_at data i = Ok m
              /\ (text_region m j \/ name_field i j).

(** Positions the writer writes: the container head, the table rows and
    the measurement blocks. *)
Definition written (data : bytes) (n : nat) (j : nat) : Prop :=
  j < 8 \/ exists i m, i < n /\ measurement_at data i = Ok m
                       /\ (in_row i j \/ in_block data m j).

(** The placeholder as a byte. *)
Definition x_byte : Byte.byte := byte_of_ascii cx.

(** A byte of the output is faithful when it sits at a redacted position
    or equals the input byte of the same position. *)
Definition faithful (data : bytes) (n : nat) (j : nat) (v : Byte.byte)
  : Prop :=
  redacted data n j \/ nth_error data j = Some v.

(** A byte of a patient-name field that no measurement block overlaps is
    the placeholder. *)
Definition name_masked (data : bytes) (n : nat) (j : nat) (v : Byte.byte)
  : Prop :=
  (exists i, i < n /\ name_field i j) ->
  (forall i m, i < n -> measurement_at data i = Ok m -> ~ in_block data m j) ->
  v = x_byte.

(** The no-leftover sentence as the specification words it: a run that
    ends in an exception leaves no file at the output path. *)
Definition no_file_left_claim : Prop :=
  forall filename out_path meta w e w',
    filename <> out_path ->
    files w out_path = None ->
    read_and_anonymize filename out_path meta w = (Raise e, w') ->
    files w' out_path = None.

(** The idempotence sentence as the specification words it: the redactor
    runs again on its own output without raising, and finds nothing to
    record for the numeric-blank and mask fields. *)
Definition rerun_claim : Prop :=
  forall h h' ms,
    anonymize_twix_header h = Ok (h', ms) ->
    exists h'' ms',
      anonymize_twix_header h' = Ok (h'', ms')
      /\ forall kb, In kb (number_buffer ++ x_buffer) ->
                    dict_get (fst kb) ms' = None.

(** How a character can change from the text given to the redactor to the
    text it returns: it stays, or becomes a zero or the placeholder, and
    then it was not a newline. *)
Definition ev (c c' : ascii) : Prop :=
  c' = c \/ ((c' = c0 \/ c' = cx) /\ c <> nl).

(** Membership in [p] goes back along [ev]. *)
Definition stable_set (p : cset) : bool :=
  implb (mem p c0 || mem p cx)
        (forallb (fun c => Ascii.eqb c nl || mem p c) all_chars).

Fixpoint stable (r : re) : bool :=
  match r with
  | Eps => true
  | Set_ p | Star p => stable_set p
  | Seq r1 r2 | Alt r1 r2 => stable r1 && stable r2
  | Grp _ r1 => stable r1
  end.

(** The value part of every catalog pattern stays clear of the newline. *)
Definition value_on_line (r : re) : bool :=
  all_sets CDot (snd (fst (parts r))).

(** The frame-of-reference pattern of the numeric-blank loop, in parts. *)
Definition field_head : re :=
  seqs [tag "ParamString" "FrameOfReference"; ws; str "{"; ws; chr dq].

Definition field_tail : re := seqs [chr dq; ws; str "}"; chr nl].

Definition field_re : re :=
  Seq (Grp 1 field_head) (Seq (Grp 2 (plus CDot)) (Grp 3 field_tail)).

(** [h1 ++ v ++ h3] reads as a frame-of-reference field of value [v]. *)
Definition is_field (h1 v h3 : text) : Prop :=
  lang field_head h1 /\ Forall (fun c => mem CDot c = true) v /\ v <> []
  /\ lang field_tail h3.

(** [t] holds a frame-of-reference field whose value has a full stop. *)
Definition dotted_field (t : text) : Prop :=
  exists a h1 v h3 b,
    t = a ++ (h1 ++ v ++ h3) ++ b /\ is_field h1 v h3 /\ In dot v.

(** What the digit-zero loop writes for a character of the value. *)
Definition zero_digit (c : ascii) : ascii := if is_digit c then c0 else c.

(** The days of month [mm] in the year read in [yy]: from 1969 to 2068
    every fourth year is a leap year. *)
Definition month_days (yy mm : N) : N :=
  (if mm =? 2 then (if yy mod 4 =? 0 then 29 else 28)
   else if (mm =? 4) || (mm =? 6) || (mm =? 9) || (mm =? 11) then 30
   else 31)%N.

(** One line of the table behind [get_date_verdicts]. *)
Definition verdict_check (yy mm dd : N) : bool :=
  match get_date (two yy ++ two mm ++ two dd) with
  | Ok fd =>
      (dd <=? month_days yy mm)%N
      && text_eqb fd (iso_date (pivot_year yy) mm dd)
  | Raise ValueError => negb (dd <=? month_days yy mm)%N
  | Raise _ => false
  end.

(** A row of the record table names its input and its output. *)
Definition names_job (job : string * string) (row : matches) : Prop :=
  dict_get "orig_filename" row = Some (Some (txt (fst job)))
  /\ dict_get "anonymized_id" row = Some (Some (stem (snd job))).

(** Sample headers are written with an apostrophe for the double quote
    and a vertical bar for the newline. *)
Definition unq (s : string) : text :=
  map (fun c => if Ascii.eqb c "'" then dq
                else if Ascii.eqb c "|" then nl else c) (txt s).

Definition sample_header : text := unq
  "<ParamString.'PatientID'>  { 'ID_230615' }|<ParamString.'FrameOfReference'>  { '1.3.12.2.1107.5.2.43.66012.1.20230615101112345.0.0.0'  }|<ParamString.'tPatientName'>  { 'Doe^John'  }|<ParamString.'InstitutionAddress'>  { 'Street 5'  }|<ParamString.'InstitutionName'>  { 'Clinic'  }|<ParamLong.'lPatientSex'>  { 2  }|<ParamString.'PatientBirthDay'>  { '19800115'  }|<ParamString.'tReferenceImage0'>  { '1.3.12.230615.77'  }|<ParamString.'tScanId'>  { 'AB230615'  }|<ParamDouble.'TR'>  { <Precision> 3  12.5  }|".

(** A header of a scan of 15 June 1999. *)
Definition header_1999 : text := unq
  "<ParamString.'FrameOfReference'>  { '1.3.12.2.1107.5.2.43.66012.1.19990615101112345.0.0.0'  }|<ParamString.'tPatientName'>  { 'Doe^John'  }|<ParamString.'InstitutionAddress'>  { 'Street 5'  }|<ParamString.'InstitutionName'>  { 'Clinic'  }|".

(** A Variant A container cut short after its head: identifier 0, one
    measurement announced, no table. *)
Definition truncated_vd : bytes :=
  [Byte.x00; Byte.x00; Byte.x00; Byte.x00;
   Byte.x01; Byte.x00; Byte.x00; Byte.x00].

Definition disk_with (path : string) (content : bytes) : world :=
  MkWorld (fun p => if String.eqb p path then Some content else None) [].

(** Sample containers: a header block is the size field, the text, 24
    trailing bytes and a short payload. *)
Definition sample_trailing : bytes := repeat Byte.x07 24.

Definition sample_payload : bytes :=
  [Byte.x10; Byte.x20; Byte.x30; Byte.x40; Byte.x50].

Definition block_of (h : text) : bytes :=
  pack_I (Z.of_nat (4 + length h + 24)) ++ encode h ++ sample_trailing
  ++ sample_payload.

Definition sample_vb : bytes := block_of sample_header.

Definition sample_row (id : Z) (off len : nat) : bytes :=
  pack_entry (MkEntry id 7 (Z.of_nat off) (Z.of_nat len)
                      (pad_to 64 (encode (txt "Doe^John")))
                      (pad_to 64 (encode (txt "t1_mprage")))).

(** Two measurements, the second of them the scan of 1999. *)
Definition sample_vd : bytes :=
  let b0 := block_of sample_header in
  let b1 := block_of header_1999 in
  let off0 := 8 + 152 * 2 in
  let off1 := off0 + length b0 in
  pack_II 0 2 ++ sample_row 1 off0 (length b0)
  ++ sample_row 2 off1 (length b1) ++ b0 ++ b1.

(** A header in which the institution name is missing. *)
Definition header_without_institution : text := unq
  "<ParamString.'FrameOfReference'>  { '1.3.12.2.1107.5.2.43.66012.1.20230615101112345.0.0.0'  }|<ParamString.'tPatientName'>  { 'Doe^John'  }|<ParamString.'InstitutionAddress'>  { 'Street 5'  }|".

(** A header whose frame of reference has three components only. *)
Definition header_few_stops : text := unq
  "<ParamString.'FrameOfReference'>  { '1.2.3'  }|".

(** A header line with the age of the patient. *)
Definition header_age : text := unq
  "<ParamDouble.'flPatientAge'>  { <Precision> 6  34.500000  }|".


End Spec.
Export Spec.

(* ================================================================= *)
(** * Properties *)

Unset Implicit Arguments.

(** ** The matcher *)

Section MatcherFacts.
Variable R : Type.
Implicit Types (k : cont R) (s u : text) (g : groups).

Lemma star_sound p s g k x :
  star p s g k = Some x ->
  exists u s', s = u ++ s' /\ Forall (fun c => mem p c = true) u
               /\ k s' g = Some x.
Proof.
  induction s as [|c s IH]; simpl; intros H.
  - exists [], []. auto.
  - destruct (mem p c) eqn:E.
    + destruct (star p s g k) eqn:E1.
      * inversion H; subst. destruct (IH eq_refl) as (u & s' & -> & Hu & Hk).
        exists (c :: u), s'. auto.
      * exists [], (c :: s). auto.
    + exists [], (c :: s). auto.
Qed.

Lemma star_here p s g k y :
  k s g = Some y -> exists x, star p s g k = Some x.
Proof.
  destruct s as [|c s]; simpl; intros H; eauto.
  destruct (mem p c); eauto.
  destruct (star p s g k); eauto.
Qed.

Lemma star_complete p u s' g k y :
  Forall (fun c => mem p c = true) u ->
  k s' g = Some y -> exists x, star p (u ++ s') g k = Some x.
Proof.
  induction 1 as [|c u Hc Hu IH]; intros Hk; simpl.
  - eapply star_here; eauto.
  - rewrite Hc. destruct (IH Hk) as [x ->]. eauto.
Qed.

Lemma firstn_consumed (u s' : text) :
  firstn (length (u ++ s') - length s') (u ++ s') = u.
Proof.
  rewrite length_app, Nat.add_sub.
  rewrite firstn_app, Nat.sub_diag, firstn_all. simpl. apply app_nil_r.
Qed.

Lemma run_sound r : forall s g k x,
  run r s g k = Some x ->
  exists u s' g', s = u ++ s' /\ mt r u g g' /\ k s' g' = Some x.
Proof.
  induction r as [|p|p|r1 IH1 r2 IH2|r1 IH1 r2 IH2|n r1 IH1];
    simpl; intros s g k x H.
  - exists [], s, g. repeat split; auto. constructor.
  - destruct s as [|c s]; [discriminate|].
    destruct (mem p c) eqn:E; [|discriminate].
    exists [c], s, g. repeat split; auto. now constructor.
  - apply star_sound in H. destruct H as (u & s' & -> & Hu & Hk).
    exists u, s', g. repeat split; auto. now constructor.
  - apply IH1 in H. destruct H as (u & s1 & g1 & -> & H1 & H).
    apply IH2 in H. destruct H as (v & s2 & g2 & -> & H2 & H).
    exists (u ++ v), s2, g2. rewrite <- app_assoc. repeat split; auto.
    econstructor; eauto.
  - destruct (run r1 s g k) eqn:E1.
    + inversion H; subst. apply IH1 in E1.
      destruct E1 as (u & s' & g' & -> & H1 & Hk).
      exists u, s', g'. repeat split; auto. now apply mt_alt_l.
    + apply IH2 in H. destruct H as (u & s' & g' & -> & H1 & Hk).
      exists u, s', g'. repeat split; auto. now apply mt_alt_r.
  - apply IH1 in H. destruct H as (u & s' & g' & -> & H1 & Hk).
    rewrite firstn_consumed in Hk.
    exists u, s', ((n, u) :: g'). repeat split; auto. now constructor.
Qed.

Lemma run_complete r u g g' :
  mt r u g g' ->
  forall s' k y, k s' g' = Some y -> exists x, run r (u ++ s') g k = Some x.
Proof.
  induction 1; intros s' k y Hk; simpl.
  - eauto.
  - rewrite H. eauto.
  - eapply star_complete; eauto.
  - rewrite <- app_assoc.
    destruct (IHmt2 s' k y Hk) as [x2 H2].
    eapply IHmt1. exact H2.
  - destruct (IHmt s' k y Hk) as [x ->]. eauto.
  - destruct (run r1 (u ++ s') g k); eauto.
  - eapply IHmt. rewrite firstn_consumed. eauto.
Qed.
End MatcherFacts.

Lemma mt_frame r u g g' :
  mt r u g g' ->
  exists d, g' = d ++ g /\ Forall (fun nt => In (fst nt) (names r)) d.
Proof.
  induction 1; simpl.
  - exists []. auto.
  - exists []. auto.
  - exists []. auto.
  - destruct IHmt1 as (d1 & -> & F1), IHmt2 as (d2 & -> & F2).
    exists (d2 ++ d1). rewrite app_assoc. split; auto.
    apply Forall_app. split; eapply Forall_impl; try eassumption;
      intros a Ha; apply in_or_app; auto.
  - destruct IHmt as (d & -> & F). exists d. split; auto.
    eapply Forall_impl; try eassumption. intros a Ha. apply in_or_app; auto.
  - destruct IHmt as (d & -> & F). exists d. split; auto.
    eapply Forall_impl; try eassumption. intros a Ha. apply in_or_app; auto.
  - destruct IHmt as (d & -> & F). exists ((n, u) :: d). split; auto.
    constructor; simpl; auto.
    eapply Forall_impl; try eassumption. intros a Ha. simpl. auto.
Qed.

Lemma lookup_frame n d g :
  Forall (fun nt : nat * text => fst nt <> n) d ->
  lookup n (d ++ g) = lookup n g.
Proof.
  induction 1 as [|[n' t] d Hn Hd IH]; simpl; auto.
  simpl in Hn. destruct (Nat.eqb_spec n n'); [congruence|auto].
Qed.

Lemma fresh_frame n r u g g' :
  fresh n r = true -> mt r u g g' -> lookup n g' = lookup n g.
Proof.
  intros Hf H. destruct (mt_frame _ _ _ _ H) as (d & -> & F).
  apply lookup_frame. eapply Forall_impl; try eassumption.
  intros [n' t] Hin; simpl in *. intros ->.
  unfold fresh in Hf. apply negb_true_iff in Hf.
  assert (existsb (Nat.eqb n) (names r) = true); [|congruence].
  apply existsb_exists. exists n. split; auto. apply Nat.eqb_refl.
Qed.

Lemma match_at_sound r s adv m rest :
  match_at r s adv = Some (m, rest) ->
  s = m_text m ++ rest /\ mt r (m_text m) [] (m_groups m)
  /\ (adv = true -> m_text m <> []).
Proof.
  unfold match_at. intros H. apply run_sound in H.
  destruct H as (u & s' & g' & -> & Hm & Hk).
  rewrite firstn_consumed in Hk.
  destruct (adv && (length s' =? length (u ++ s'))) eqn:E; [discriminate|].
  inversion Hk; subst; simpl. repeat split; auto.
  intros -> ->. simpl in E. now rewrite Nat.eqb_refl in E.
Qed.

(** A tiled expression's groups split the matched text in three. *)
Lemma tiled_mt a b c r u g g' :
  tiled a b c r = true -> mt r u g g' ->
  exists u1 u2 u3,
    u = u1 ++ u2 ++ u3 /\ lookup a g' = Some u1 /\ lookup b g' = Some u2
    /\ lookup c g' = Some u3
    /\ lang (fst (fst (parts r))) u1 /\ lang (snd (fst (parts r))) u2
    /\ lang (snd (parts r)) u3.
Proof.
  unfold tiled. intros T H.
  destruct r as [| | |r1 r2| |]; try discriminate.
  destruct r1 as [| | | | |a' A]; try discriminate.
  destruct r2 as [| | |r2 r3| |]; try discriminate.
  destruct r2 as [| | | | |b' B]; try discriminate.
  destruct r3 as [| | | | |c' C]; try discriminate.
  repeat (apply andb_prop in T; destruct T as [T ?]).
  repeat match goal with
         | H : (_ =? _) = true |- _ => apply Nat.eqb_eq in H; subst
         | H : negb (_ =? _) = true |- _ =>
             apply negb_true_iff in H; apply Nat.eqb_neq in H
         end.
  inversion H; subst; clear H.
  match goal with H : mt (Grp _ _) _ _ _ |- _ => inversion H; subst; clear H end.
  match goal with H : mt (Seq _ _) _ _ _ |- _ => inversion H; subst; clear H end.
  repeat match goal with
         | H : mt (Grp _ _) _ _ _ |- _ => inversion H; subst; clear H
         end.
  match goal with
  | HA : mt A ?u1 _ _, HB : mt B ?u2 _ _, HC : mt C ?u3 _ _,
    F1 : fresh ?a B = true, F2 : fresh ?a C = true, F3 : fresh ?b C = true
    |- _ =>
      exists u1, u2, u3;
      pose proof (fresh_frame _ _ _ _ _ F1 HB) as FB;
      pose proof (fresh_frame _ _ _ _ _ F2 HC) as FC;
      pose proof (fresh_frame _ _ _ _ _ F3 HC) as FC'
  end; simpl in *.
  repeat split; auto.
  - destruct (Nat.eqb_spec a' c'); [congruence|].
    rewrite FC. destruct (Nat.eqb_spec a' b'); [congruence|].
    rewrite FB. now rewrite Nat.eqb_refl.
  - destruct (Nat.eqb_spec b' c'); [congruence|].
    rewrite FC'. now rewrite Nat.eqb_refl.
  - now rewrite Nat.eqb_refl.
  - unfold lang; eauto.
  - unfold lang; eauto.
  - unfold lang; eauto.
Qed.

(** ** [re.sub] keeps the length when each replacement does *)

Definition len_ok (r : re) (f : rmatch -> res text) : Prop :=
  forall s adv m rest t,
    match_at r s adv = Some (m, rest) -> f m = Ok t ->
    length t = length (m_text m).

Lemma match_at_length r s adv m rest :
  match_at r s adv = Some (m, rest) ->
  length s = length (m_text m) + length rest.
Proof.
  intros H. apply match_at_sound in H. destruct H as (E & _).
  rewrite E at 1. apply length_app.
Qed.

Lemma sub_step_length r f s e n :
  len_ok r f -> sub_step r f s = Ok (e, n) -> length e = n /\ n <= length s.
Proof.
  unfold sub_step. intros L H.
  destruct (match_at r s false) as [[m rest]|] eqn:E1.
  - destruct (f m) as [e1|] eqn:F1; simpl in H; [|discriminate].
    pose proof (L _ _ _ _ _ E1 F1) as L1.
    pose proof (match_at_length _ _ _ _ _ E1) as M1.
    destruct (length (m_text m)) as [|k] eqn:Ek.
    + destruct (match_at r s true) as [[m2 rest2]|] eqn:E2.
      * destruct (f m2) as [e2|] eqn:F2; simpl in H; [|discriminate].
        pose proof (L _ _ _ _ _ E2 F2) as L2.
        pose proof (match_at_length _ _ _ _ _ E2) as M2.
        inversion H; subst. rewrite length_app. lia.
      * inversion H; subst. lia.
    + inversion H; subst. lia.
  - inversion H; subst. simpl. lia.
Qed.

Lemma sub_walk_length r f :
  len_ok r f ->
  forall s skip t,
    skip <= length s -> sub_walk r f s skip = Ok t ->
    length t + skip = length s.
Proof.
  intros L. induction s as [|c s IH]; intros skip t Hs H.
  - simpl in Hs. assert (skip = 0) by lia. subst. simpl in H.
    destruct (sub_step r f []) as [[e n]|] eqn:E; simpl in H; [|discriminate].
    inversion H; subst. eapply sub_step_length in E; [|exact L]. simpl in *. lia.
  - destruct skip as [|k]; simpl in H.
    + destruct (sub_step r f (c :: s)) as [[e n]|] eqn:E; simpl in H;
        [|discriminate].
      eapply sub_step_length in E; [|exact L]. destruct E as [E1 E2]. simpl in E2.
      destruct n as [|n'].
      * destruct (sub_walk r f s 0) as [t'|] eqn:W; simpl in H; [|discriminate].
        inversion H; subst. apply IH in W; [|lia].
        rewrite length_app. simpl. lia.
      * destruct (sub_walk r f s n') as [t'|] eqn:W; simpl in H;
          [|discriminate].
        inversion H; subst. apply IH in W; [|lia].
        rewrite length_app. simpl. lia.
    + simpl in Hs. apply IH in H; [|lia]. simpl. lia.
Qed.

Lemma re_sub_length r f s t :
  len_ok r f -> re_sub r f s = Ok t -> length t = length s.
Proof.
  intros L H. eapply sub_walk_length in H; [|exact L|]; simpl in *; lia.
Qed.

(** A one-character pattern replaced by one character. *)
Lemma len_ok_char p c : len_ok (Set_ p) (fun _ => Ok [c]).
Proof.
  intros s adv m rest t H F. apply match_at_sound in H.
  destruct H as (_ & H & _). inversion H; subst. inversion F; subst.
  reflexivity.
Qed.

Lemma tiled_match a b c r s adv m rest :
  tiled a b c r = true -> match_at r s adv = Some (m, rest) ->
  exists u1 u2 u3,
    m_text m = u1 ++ u2 ++ u3 /\ group m a = Some u1 /\ group m b = Some u2
    /\ group m c = Some u3
    /\ lang (fst (fst (parts r))) u1 /\ lang (snd (fst (parts r))) u2
    /\ lang (snd (parts r)) u3.
Proof.
  intros T H. apply match_at_sound in H. destruct H as (_ & H & _).
  exact (tiled_mt _ _ _ _ _ _ _ T H).
Qed.

Lemma len_ok_number r : tiled 1 2 3 r = true -> len_ok r number_repl.
Proof.
  intros T s adv m rest t H F.
  destruct (tiled_match _ _ _ _ _ _ _ _ T H) as (u1 & u2 & u3 & E & G1 & G2 & G3 & _).
  unfold number_repl in F. rewrite G1, G2, G3 in F. simpl in F.
  inversion F; subst. rewrite E, !length_app, repeat_length. reflexivity.
Qed.

Lemma len_ok_x r : tiled 1 3 4 r = true -> len_ok r x_repl.
Proof.
  intros T s adv m rest t H F.
  destruct (tiled_match _ _ _ _ _ _ _ _ T H) as (u1 & u2 & u3 & E & G1 & G2 & G3 & _).
  unfold x_repl in F. rewrite G1, G2, G3 in F. simpl in F.
  inversion F; subst. rewrite E, !length_app, repeat_length. reflexivity.
Qed.

Lemma len_ok_zero r : tiled 1 3 4 r = true -> len_ok r zero_repl.
Proof.
  intros T s adv m rest t H F.
  destruct (tiled_match _ _ _ _ _ _ _ _ T H) as (u1 & u2 & u3 & E & G1 & G2 & G3 & _).
  unfold zero_repl in F. rewrite G1, G2, G3 in F. simpl in F.
  destruct (re_sub (Set_ CDigit) (fun _ => Ok [c0]) u2) as [z|] eqn:Z;
    simpl in F; [|discriminate].
  eapply re_sub_length in Z; [|apply len_ok_char].
  inversion F; subst. rewrite E, !length_app. lia.
Qed.

Lemma len_ok_sweep r : len_ok r sweep_repl.
Proof.
  intros s adv m rest t H F. unfold sweep_repl in F.
  eapply re_sub_length in F; [|apply len_ok_char]. exact F.
Qed.

(** The shape of the catalog. *)
Lemma number_buffer_tiled :
  Forall (fun kb => tiled 1 2 3 (snd kb) = true) number_buffer.
Proof. repeat constructor. Qed.

Lemma zero_buffer_tiled :
  Forall (fun kb => tiled 1 3 4 (snd kb) = true) zero_buffer.
Proof. repeat constructor. Qed.

Lemma x_buffer_tiled :
  Forall (fun kb => tiled 1 3 4 (snd kb) = true) x_buffer.
Proof. repeat constructor. Qed.

Lemma meta_buffer_tiled :
  Forall (fun kb => tiled 1 2 3 (snd kb) = true) meta_buffer.
Proof. repeat constructor. Qed.

(** ** Each loop keeps the length of the header *)

Definition keeps_length (pass : state -> string * re -> res state)
  (kb : string * re) : Prop :=
  forall st st', pass st kb = Ok st' -> length (fst st') = length (fst st).

Lemma number_pass_length kb :
  tiled 1 2 3 (snd kb) = true -> keeps_length number_pass kb.
Proof.
  intros T [h ms] st' H. destruct kb as [key buffer]. simpl in *.
  destruct (re_search buffer h).
  - destruct (re_sub buffer number_repl h) as [h'|] eqn:E; simpl in H;
      [|discriminate].
    inversion H; subst. simpl. eapply re_sub_length; eauto.
    now apply len_ok_number.
  - now inversion H.
Qed.

Lemma zero_pass_length kb :
  tiled 1 3 4 (snd kb) = true -> keeps_length zero_pass kb.
Proof.
  intros T [h ms] st' H. destruct kb as [key buffer]. simpl in *.
  destruct (re_search buffer h).
  - destruct (re_sub buffer zero_repl h) as [h'|] eqn:E; simpl in H;
      [|discriminate].
    inversion H; subst. simpl. eapply re_sub_length; eauto.
    now apply len_ok_zero.
  - now inversion H.
Qed.

Lemma x_pass_length kb :
  tiled 1 3 4 (snd kb) = true -> keeps_length x_pass kb.
Proof.
  intros T [h ms] st' H. destruct kb as [key buffer]. simpl in *.
  destruct (re_search buffer h); simpl in H; [|discriminate].
  destruct (re_sub buffer x_repl h) as [h'|] eqn:E; simpl in H;
    [|discriminate].
  inversion H; subst. simpl. eapply re_sub_length; eauto.
  now apply len_ok_x.
Qed.

Lemma meta_pass_text st kb st' :
  meta_pass st kb = Ok st' -> fst st' = fst st.
Proof.
  destruct st as [h ms], kb as [key buffer]. simpl.
  destruct (re_search buffer h); intros H; now inversion H.
Qed.

Lemma for_each_length pass buf :
  Forall (keeps_length pass) buf ->
  forall st st', for_each pass buf st = Ok st' ->
                 length (fst st') = length (fst st).
Proof.
  induction 1 as [|kb buf Hk Hb IH]; simpl; intros st st' H.
  - now inversion H.
  - destruct (pass st kb) as [st1|] eqn:E; simpl in H; [|discriminate].
    rewrite (IH _ _ H). now apply Hk.
Qed.

Lemma for_each_meta_text buf : forall st st',
  for_each meta_pass buf st = Ok st' -> fst st' = fst st.
Proof.
  induction buf as [|kb buf IH]; simpl; intros st st' H.
  - now inversion H.
  - destruct (meta_pass st kb) as [st1|] eqn:E; simpl in H; [|discriminate].
    rewrite (IH _ _ H). eapply meta_pass_text; eauto.
Qed.

(** ** [struct]: packing what was unpacked *)

Lemma byte_val_range b : (0 <= byte_val b < 256)%Z.
Proof.
  unfold byte_val. pose proof (Byte.to_N_bounded b). lia.
Qed.

Lemma byte_of_Z_val b : byte_of_Z (byte_val b) = b.
Proof.
  unfold byte_of_Z, byte_val. rewrite N2Z.id, Byte.of_to_N. reflexivity.
Qed.

Lemma bytes_of_uint_of_bytes bs :
  bytes_of_uint (length bs) (uint_of_bytes bs) = bs.
Proof.
  induction bs as [|b bs IH]; cbn [bytes_of_uint uint_of_bytes length]; auto.
  pose proof (byte_val_range b) as Hb.
  replace ((byte_val b + 256 * uint_of_bytes bs) mod 256)%Z with (byte_val b).
  2:{ apply Z.mod_unique with (q := uint_of_bytes bs); lia. }
  replace ((byte_val b + 256 * uint_of_bytes bs) / 256)%Z
    with (uint_of_bytes bs).
  2:{ apply Z.div_unique with (r := byte_val b); lia. }
  now rewrite byte_of_Z_val, IH.
Qed.

Lemma pack_unpack_I raw v : unpack_I raw = Ok v -> pack_I v = raw.
Proof.
  unfold unpack_I, pack_I. destruct (Nat.eqb_spec (length raw) 4) as [E|];
    [|discriminate].
  intros H. inversion H; subst. rewrite <- E. apply bytes_of_uint_of_bytes.
Qed.

(** ** The redactor keeps the length of the header *)

Lemma sweep_length d h h' : sweep d h = Ok h' -> length h' = length h.
Proof.
  unfold sweep. intros H. eapply re_sub_length; eauto. apply len_ok_sweep.
Qed.

Lemma bind_ok {A B} (x : res A) (f : A -> res B) b :
  bind x f = Ok b -> exists a, x = Ok a /\ f a = Ok b.
Proof. destruct x; simpl; intros H; [eauto|discriminate]. Qed.

Ltac bind_inv H x E :=
  apply bind_ok in H; destruct H as (x & E & H).

(** The stages of [anonymize_twix_header], named. *)
Lemma anonymize_stages h h' ms :
  anonymize_twix_header h = Ok (h', ms) ->
  exists d fd st1 st2 st3 st4,
    exam_date_of h = Ok d /\ get_date d = Ok fd
    /\ for_each number_pass number_buffer
         (h, dict_set "Exam_date" (Some fd) []) = Ok st1
    /\ for_each zero_pass zero_buffer st1 = Ok st2
    /\ for_each x_pass x_buffer st2 = Ok st3
    /\ for_each meta_pass meta_buffer st3 = Ok st4
    /\ sweep d (fst st4) = Ok h' /\ ms = snd st4.
Proof.
  unfold anonymize_twix_header. intros H.
  bind_inv H d E0. bind_inv H fd E0'. bind_inv H st1 E1. bind_inv H st2 E2.
  bind_inv H st3 E3. bind_inv H st4 E4. bind_inv H h5 E5.
  inversion H; subst. exists d, fd, st1, st2, st3, st4. repeat split; auto.
Qed.

Lemma anonymize_length h h' ms :
  anonymize_twix_header h = Ok (h', ms) -> length h' = length h.
Proof.
  intros H. apply anonymize_stages in H.
  destruct H as (d & fd & st1 & st2 & st3 & st4 & _ & _ & E1 & E2 & E3 & E4
                 & E5 & _).
  rewrite (sweep_length _ _ _ E5), (for_each_meta_text _ _ _ E4).
  rewrite (for_each_length x_pass x_buffer) with (2 := E3).
  2:{ eapply Forall_impl; [|apply x_buffer_tiled]. apply x_pass_length. }
  rewrite (for_each_length zero_pass zero_buffer) with (2 := E2).
  2:{ eapply Forall_impl; [|apply zero_buffer_tiled]. apply zero_pass_length. }
  rewrite (for_each_length number_pass number_buffer) with (2 := E1).
  2:{ eapply Forall_impl; [|apply number_buffer_tiled].
      apply number_pass_length. }
  reflexivity.
Qed.

Lemma encode_length t : length (encode t) = length t.
Proof. apply length_map. Qed.


(** ** [re.search] and the first replacement of [re.sub] *)

Lemma nonempty_mt r u g g' :
  mt r u g g' -> nonempty_re r = true -> u <> [].
Proof.
  induction 1; simpl; intros N; try discriminate.
  - apply orb_prop in N. intros E. apply app_eq_nil in E. destruct E.
    destruct N as [N|N]; [now apply IHmt1|now apply IHmt2].
  - apply andb_prop in N. now apply IHmt.
  - apply andb_prop in N. now apply IHmt.
  - now apply IHmt.
Qed.

Lemma sub_walk_skip r f : forall n s,
  n <= length s -> sub_walk r f s n = sub_walk r f (skipn n s) 0.
Proof.
  induction n as [|n IH]; intros s Hn.
  - reflexivity.
  - destruct s as [|c s]; simpl in Hn; [lia|].
    cbn [sub_walk skipn]. apply IH. lia.
Qed.

Lemma search_from_sound r : forall s pre m post,
  search_from r s = Some (pre, m, post) ->
  s = pre ++ m_text m ++ post
  /\ match_at r (m_text m ++ post) false = Some (m, post).
Proof.
  induction s as [|c s IH]; intros pre m post H; simpl in H.
  - destruct (match_at r [] false) as [[m' rest]|] eqn:E; [|discriminate].
    inversion H; subst. pose proof (match_at_sound _ _ _ _ _ E) as (E1 & _).
    simpl. rewrite <- E1. auto.
  - destruct (match_at r (c :: s) false) as [[m' rest]|] eqn:E.
    + inversion H; subst.
      pose proof (match_at_sound _ _ _ _ _ E) as (E1 & _).
      simpl. rewrite <- E1. auto.
    + destruct (search_from r s) as [[[pre' m'] post']|] eqn:E2;
        [|discriminate].
      inversion H; subst. destruct (IH _ _ _ eq_refl) as (E1 & E3).
      simpl. now rewrite <- E1.
Qed.

Lemma sub_first r f : nonempty_re r = true -> forall s pre m post,
  search_from r s = Some (pre, m, post) ->
  re_sub r f s =
    (t <- f m ;; rest' <- re_sub r f post ;; Ok (pre ++ t ++ rest')).
Proof.
  intros N. unfold re_sub.
  induction s as [|c s IH]; intros pre m post H.
  - simpl in H.
    destruct (match_at r [] false) as [[m' rest]|] eqn:E; [|discriminate].
    apply match_at_sound in E. destruct E as (E1 & E2 & _).
    apply nonempty_mt in E2; auto.
    symmetry in E1. apply app_eq_nil in E1. now destruct E1.
  - simpl in H. cbn [sub_walk]. unfold sub_step.
    destruct (match_at r (c :: s) false) as [[m' rest]|] eqn:E.
    + inversion H; subst. clear H.
      pose proof (match_at_sound _ _ _ _ _ E) as (E1 & E2 & _).
      apply nonempty_mt in E2; auto.
      destruct (f m) as [t|]; simpl; [|reflexivity].
      destruct (m_text m) as [|c' u] eqn:Em; [congruence|].
      simpl in E1. inversion E1; subst. cbn [length bind].
      rewrite sub_walk_skip by (rewrite length_app; lia).
      rewrite skipn_app, skipn_all, Nat.sub_diag. simpl.
      destruct (sub_walk r f post 0); reflexivity.
    + destruct (search_from r s) as [[[pre' m'] post']|] eqn:E2;
        [|discriminate].
      inversion H; subst. clear H. simpl.
      rewrite (IH _ _ _ eq_refl).
      destruct (f m); simpl; [|reflexivity].
      destruct (sub_walk r f post 0); reflexivity.
Qed.

(** ** Dictionaries *)

Lemma dict_get_set_same {V} k (v : V) d : dict_get k (dict_set k v d) = Some v.
Proof.
  induction d as [|[k' v'] d IH]; simpl.
  - now rewrite String.eqb_refl.
  - destruct (String.eqb k k') eqn:E; simpl; rewrite E; auto.
Qed.

Lemma dict_get_set_other {V} k k' (v : V) d :
  k <> k' -> dict_get k (dict_set k' v d) = dict_get k d.
Proof.
  intros N. induction d as [|[k2 v2] d IH]; simpl.
  - destruct (String.eqb_spec k k'); [congruence|reflexivity].
  - destruct (String.eqb_spec k' k2); simpl.
    + subst. destruct (String.eqb_spec k k2); [congruence|reflexivity].
    + destruct (String.eqb_spec k k2); auto.
Qed.

(** ** The numeric-blank and the mask policy *)

Lemma number_buffer_nonempty :
  Forall (fun kb => nonempty_re (snd kb) = true) number_buffer.
Proof. repeat constructor. Qed.

Lemma x_buffer_nonempty :
  Forall (fun kb => nonempty_re (snd kb) = true) x_buffer.
Proof. repeat constructor. Qed.

Lemma zero_buffer_nonempty :
  Forall (fun kb => nonempty_re (snd kb) = true) zero_buffer.
Proof. repeat constructor. Qed.

Lemma in_catalog (P : string * re -> Prop) buf kb :
  Forall P buf -> In kb buf -> P kb.
Proof. intros F I. rewrite Forall_forall in F. auto. Qed.

Lemma re_search_from r s :
  re_search r s =
    match search_from r s with Some (_, m, _) => Some m | None => None end.
Proof. reflexivity. Qed.

Lemma fill_redacts fill a b c repl key r h ms pre m post h1 :
  tiled a b c r = true -> nonempty_re r = true ->
  (forall m g1 v g3,
      group m a = Some g1 -> group m b = Some v -> group m c = Some g3 ->
      repl m = Ok (g1 ++ repeat fill (length v) ++ g3)) ->
  len_ok r repl ->
  search_from r h = Some (pre, m, post) ->
  re_sub r repl h = Ok h1 ->
  redacts fill a b c repl key r h pre m post
    (h1, dict_set key (group m b) ms).
Proof.
  intros T N F L S H.
  rewrite (sub_first r repl N _ _ _ _ S) in H.
  destruct (search_from_sound _ _ _ _ _ S) as (E & M).
  destruct (tiled_match _ _ _ _ _ _ _ _ T M)
    as (g1 & v & g3 & Et & G1 & G2 & G3 & _).
  rewrite (F _ _ _ _ G1 G2 G3) in H. simpl in H.
  destruct (re_sub r repl post) as [rest'|] eqn:R; simpl in H; [|discriminate].
  inversion H; subst h1. exists g1, v, g3, rest'. simpl.
  repeat split; auto.
  - now rewrite <- Et.
  - eapply re_sub_length; eauto.
  - now rewrite G2, dict_get_set_same.
Qed.

(** C5. In the numeric-blank loop the value of a matched field is replaced
    by zero characters, in the mask loop by placeholder characters, of the
    same number as the value has characters, and the text of groups before
    and after the value is written back as it was. *)
Theorem blank_and_mask_keep_value_length key buffer h ms st' pre m post :
  search_from buffer h = Some (pre, m, post) ->
  (In (key, buffer) number_buffer ->
   number_pass (h, ms) (key, buffer) = Ok st' ->
   redacts c0 1 2 3 number_repl key buffer h pre m post st')
  /\ (In (key, buffer) x_buffer ->
      x_pass (h, ms) (key, buffer) = Ok st' ->
      redacts cx 1 3 4 x_repl key buffer h pre m post st').
Proof.
  intros S. split; intros I P.
  - pose proof (in_catalog _ _ _ number_buffer_tiled I) as T.
    pose proof (in_catalog _ _ _ number_buffer_nonempty I) as N.
    simpl in T, N. unfold number_pass in P.
    rewrite re_search_from, S in P.
    apply bind_ok in P. destruct P as (h1 & R & P). inversion P; subst st'.
    eapply fill_redacts; eauto.
    + intros m0 g1 v g3 G1 G2 G3. unfold number_repl.
      now rewrite G1, G2, G3.
    + now apply len_ok_number.
  - pose proof (in_catalog _ _ _ x_buffer_tiled I) as T.
    pose proof (in_catalog _ _ _ x_buffer_nonempty I) as N.
    simpl in T, N. unfold x_pass in P.
    rewrite re_search_from, S in P. simpl in P.
    apply bind_ok in P. destruct P as (h1 & R & P). inversion P; subst st'.
    eapply fill_redacts; eauto.
    + intros m0 g1 v g3 G1 G2 G3. unfold x_repl.
      now rewrite G1, G2, G3.
    + now apply len_ok_x.
Qed.

(** ** Fields that fail to match *)

Lemma for_each_app pass buf1 buf2 st :
  for_each pass (buf1 ++ buf2) st =
    (st1 <- for_each pass buf1 st ;; for_each pass buf2 st1).
Proof.
  revert st. induction buf1 as [|kb buf1 IH]; intros st; simpl; auto.
  destruct (pass st kb); simpl; auto.
Qed.

(** C6. A mask-policy pattern that finds no match raises, and the loop
    and with it the redactor stop there; a numeric-blank, digit-zeroing or
    extract-only pattern that finds no match leaves the text and the match
    mapping as they are. *)
Theorem unmatched_fields key buffer h ms :
  re_search buffer h = None ->
  x_pass (h, ms) (key, buffer) = Raise AttributeError
  /\ (forall before after st0,
         for_each x_pass before st0 = Ok (h, ms) ->
         for_each x_pass (before ++ (key, buffer) :: after) st0
         = Raise AttributeError)
  /\ number_pass (h, ms) (key, buffer) = Ok (h, ms)
  /\ zero_pass (h, ms) (key, buffer) = Ok (h, ms)
  /\ meta_pass (h, ms) (key, buffer) = Ok (h, ms).
Proof.
  intros S. unfold x_pass, number_pass, zero_pass, meta_pass.
  rewrite S. simpl. repeat split; auto.
  intros before after st0 B. rewrite for_each_app, B. simpl.
  unfold x_pass. now rewrite S.
Qed.

(** ** The exam date *)

Ltac compute_eq t H :=
  let v := eval vm_compute in t in
  assert (H : t = v) by (vm_compute; reflexivity).

Lemma text_eqb_eq a : forall b, text_eqb a b = true -> a = b.
Proof.
  induction a as [|x a IH]; destruct b as [|y b]; simpl; try discriminate;
    auto.
  intros H. apply andb_prop in H. destruct H as [H1 H2].
  apply Ascii.eqb_eq in H1. subst. f_equal. auto.
Qed.

Lemma in_upto a n x :
  (N.of_nat a <= x < N.of_nat (a + n))%N -> In x (upto a n).
Proof.
  intros H. unfold upto. apply in_map_iff. exists (N.to_nat x).
  split; [apply N2Nat.id|]. apply in_seq. lia.
Qed.

Lemma get_date_table :
  forallb (fun yy =>
    forallb (fun mm =>
      forallb (fun dd => date_check yy mm dd) (upto 1 31)) (upto 1 12))
    (upto 0 100) = true.
Proof. vm_compute. reflexivity. Qed.

Lemma get_date_iso yy mm dd fd :
  (yy < 100)%N -> (1 <= mm <= 12)%N -> (1 <= dd <= 31)%N ->
  get_date (two yy ++ two mm ++ two dd) = Ok fd ->
  fd = iso_date (pivot_year yy) mm dd.
Proof.
  intros Hy Hm Hd G. pose proof get_date_table as T.
  rewrite forallb_forall in T.
  assert (Iy : In yy (upto 0 100)) by (apply in_upto; lia).
  specialize (T yy Iy). rewrite forallb_forall in T.
  assert (Im : In mm (upto 1 12)) by (apply in_upto; lia).
  specialize (T mm Im). rewrite forallb_forall in T.
  assert (Id : In dd (upto 1 31)) by (apply in_upto; lia).
  specialize (T dd Id). unfold date_check in T. rewrite G in T.
  now apply text_eqb_eq.
Qed.

Definition keeps_key (k : string) (pass : state -> string * re -> res state)
  (kb : string * re) : Prop :=
  forall st st', pass st kb = Ok st' ->
                 dict_get k (snd st') = dict_get k (snd st).

Lemma number_pass_key k kb : k <> fst kb -> keeps_key k number_pass kb.
Proof.
  intros N [h ms] st' H. destruct kb as [key buffer]. simpl in *.
  destruct (re_search buffer h); [|now inversion H].
  apply bind_ok in H. destruct H as (h1 & _ & H). inversion H; subst. simpl.
  now apply dict_get_set_other.
Qed.

Lemma zero_pass_key k kb : k <> fst kb -> keeps_key k zero_pass kb.
Proof.
  intros N [h ms] st' H. destruct kb as [key buffer]. simpl in *.
  destruct (re_search buffer h); [|now inversion H].
  apply bind_ok in H. destruct H as (h1 & _ & H). inversion H; subst. simpl.
  now apply dict_get_set_other.
Qed.

Lemma x_pass_key k kb : k <> fst kb -> keeps_key k x_pass kb.
Proof.
  intros N [h ms] st' H. destruct kb as [key buffer]. simpl in *.
  apply bind_ok in H. destruct H as (m & _ & H).
  apply bind_ok in H. destruct H as (h1 & _ & H). inversion H; subst. simpl.
  now apply dict_get_set_other.
Qed.

Lemma meta_pass_key k kb : k <> fst kb -> keeps_key k meta_pass kb.
Proof.
  intros N [h ms] st' H. destruct kb as [key buffer]. simpl in *.
  destruct (re_search buffer h); inversion H; subst; simpl; auto.
  now apply dict_get_set_other.
Qed.

Lemma for_each_key k pass buf :
  Forall (keeps_key k pass) buf ->
  forall st st', for_each pass buf st = Ok st' ->
                 dict_get k (snd st') = dict_get k (snd st).
Proof.
  induction 1 as [|kb buf Hk Hb IH]; simpl; intros st st' H.
  - now inversion H.
  - apply bind_ok in H. destruct H as (st1 & E & H).
    rewrite (IH _ _ H). now apply Hk.
Qed.

Lemma not_a_key k (buf : catalog) :
  existsb (String.eqb k) (map fst buf) = false ->
  Forall (fun kb => k <> fst kb) buf.
Proof.
  intros H. apply Forall_forall. intros kb I E.
  assert (existsb (String.eqb k) (map fst buf) = true); [|congruence].
  apply existsb_exists. exists (fst kb). split.
  - now apply in_map.
  - subst. apply String.eqb_refl.
Qed.

Lemma anonymize_exam_date h h' ms :
  anonymize_twix_header h = Ok (h', ms) ->
  exists d fd, exam_date_of h = Ok d /\ get_date d = Ok fd
               /\ dict_get "Exam_date" ms = Some (Some fd).
Proof.
  intros H. apply anonymize_stages in H.
  destruct H as (d & fd & st1 & st2 & st3 & st4 & E0 & E0' & E1 & E2 & E3
                 & E4 & _ & ->).
  exists d, fd. repeat split; auto.
  rewrite (for_each_key "Exam_date" meta_pass meta_buffer) with (2 := E4).
  2:{ eapply Forall_impl; [apply meta_pass_key|].
      now apply not_a_key. }
  rewrite (for_each_key "Exam_date" x_pass x_buffer) with (2 := E3).
  2:{ eapply Forall_impl; [apply x_pass_key|]. now apply not_a_key. }
  rewrite (for_each_key "Exam_date" zero_pass zero_buffer) with (2 := E2).
  2:{ eapply Forall_impl; [apply zero_pass_key|]. now apply not_a_key. }
  rewrite (for_each_key "Exam_date" number_pass number_buffer) with (2 := E1).
  2:{ eapply Forall_impl; [apply number_pass_key|]. now apply not_a_key. }
  reflexivity.
Qed.

(** C4, as amended.  The value of the frame-of-reference field is taken
    with its quotes, split on the full stop; characters 2 to 7 of the
    component of index 10 are read as YYMMDD and written as YYYY-MM-DD,
    where YY up to 68 is a year of the 2000s and YY from 69 on is a year of
    the 1900s. *)
Theorem exam_date_of_frame_of_reference h h' ms m fq c yy mm dd :
  anonymize_twix_header h = Ok (h', ms) ->
  re_search frame_of_reference_re h = Some m ->
  group m 2 = Some fq ->
  nth_error (split dot fq) 10 = Some c ->
  slice 2 8 c = two yy ++ two mm ++ two dd ->
  (yy < 100)%N -> (1 <= mm <= 12)%N -> (1 <= dd <= 31)%N ->
  dict_get "Exam_date" ms
  = Some (Some (iso_date (if (yy <=? 68)%N then 2000 + yy else 1900 + yy)%N
                         mm dd)).
Proof.
  intros H S G C E Hy Hm Hd.
  destruct (anonymize_exam_date _ _ _ H) as (d & fd & E0 & E1 & ->).
  unfold exam_date_of in E0.
  rewrite S in E0; cbn [orraise bind] in E0.
  rewrite G in E0; cbn [orraise bind] in E0.
  rewrite C in E0; cbn [orraise bind] in E0.
  inversion E0; subst d. rewrite E in E1.
  now rewrite (get_date_iso _ _ _ _ Hy Hm Hd E1).
Qed.

(** C4 as worded fails for years from 69 on: the scan of 15 June 1999 is
    dated 1999-06-15, not 2099-06-15. *)
Lemma exam_date_claim_fails : ~ exam_date_claim.
Proof.
  intros C.
  compute_eq (anonymize_twix_header header_1999) EA.
  compute_eq (re_search frame_of_reference_re header_1999) ES.
  match type of ES with
  | _ = Some ?m => compute_eq (group m 2) EG
  end.
  match type of EG with
  | _ = Some (_ :: ?q) =>
      compute_eq (removelast q) EQ;
      match type of EQ with
      | _ = ?fq => compute_eq (nth_error (split dot fq) 10) EN;
                   pose proof (C _ _ _ _ fq _ 99%N 6%N 15%N EA ES EG EN) as D
      end
  end.
  match type of D with
  | ?P -> _ => assert (E : P) by (vm_compute; reflexivity)
  end.
  specialize (D E ltac:(lia) ltac:(lia) ltac:(lia)).
  match type of D with
  | ?l = _ => compute_eq l EL; rewrite EL in D
  end.
  compute_eq (iso_date (2000 + 99) 6 15) EI. rewrite EI in D.
  discriminate D.
Qed.

(** ** Characters a pattern can consume *)

Lemma in_all_chars c : In c all_chars.
Proof.
  unfold all_chars. apply in_map_iff. exists (nat_of_ascii c).
  split; [apply ascii_nat_embedding|].
  apply in_seq. pose proof (nat_ascii_bounded c). lia.
Qed.

Lemma subset_mem p q c : subset p q = true -> mem p c = true -> mem q c = true.
Proof.
  unfold subset. rewrite forallb_forall. intros H M.
  specialize (H c (in_all_chars c)). now rewrite M in H.
Qed.

Lemma mt_chars q r u g g' :
  mt r u g g' -> all_sets q r = true -> Forall (fun c => mem q c = true) u.
Proof.
  induction 1; simpl; intros A; auto.
  - constructor; auto. eapply subset_mem; eauto.
  - eapply Forall_impl; try eassumption. intros c. now apply subset_mem.
  - apply andb_prop in A. destruct A. apply Forall_app. auto.
  - apply andb_prop in A. destruct A. auto.
  - apply andb_prop in A. destruct A. auto.
Qed.


Lemma mt_lit d : forall u g g', mt (lit d) u g g' -> u = d /\ g' = g.
Proof.
  induction d as [|c d IH]; simpl; intros u g g' H.
  - inversion H; auto.
  - inversion H; subst.
    match goal with H : mt (Set_ _) _ _ _ |- _ => inversion H; subst end.
    match goal with H : mt (lit d) _ _ _ |- _ =>
      destruct (IH _ _ _ H) as (-> & ->) end.
    simpl in *.
    match goal with H : Ascii.eqb _ _ = true |- _ =>
      apply Ascii.eqb_eq in H; subst end.
    auto.
Qed.

Lemma lit_mt d g : mt (lit d) d g g.
Proof.
  induction d as [|c d IH]; simpl.
  - constructor.
  - change (c :: d) with ([c] ++ d). econstructor; eauto.
    constructor. simpl. apply Ascii.eqb_refl.
Qed.


(** ** The final sweep *)

Lemma match_at_set p a s adv :
  match_at (Set_ p) (a :: s) adv
  = if mem p a then Some (MkMatch [a] [], s) else None.
Proof.
  unfold match_at. cbn [run]. destruct (mem p a); auto.
  change (a :: s) with ([a] ++ s). rewrite firstn_consumed.
  replace (length s =? length ([a] ++ s)) with false.
  - now rewrite andb_false_r.
  - symmetry. apply Nat.eqb_neq. simpl. lia.
Qed.

Lemma sub_char p c : forall s,
  re_sub (Set_ p) (fun _ => Ok [c]) s
  = Ok (map (fun a => if mem p a then c else a) s).
Proof.
  unfold re_sub. induction s as [|a s IH].
  - reflexivity.
  - cbn [sub_walk map]. unfold sub_step. rewrite match_at_set.
    destruct (mem p a); cbn [bind m_text length]; rewrite IH; reflexivity.
Qed.

Lemma sweep_repl_mask m : sweep_repl m = Ok (map mask (m_text m)).
Proof. unfold sweep_repl. now rewrite sub_char. Qed.









(** The texts [sweep_re] matches. *)
Lemma sweep_mt d u g g' :
  mt (sweep_re d) u g g' ->
  exists a b, u = dq :: (a ++ d ++ b) ++ [dq]
              /\ Forall (fun c => mem digits_dots c = true) a
              /\ Forall (fun c => mem digits_dots c = true) b.
Proof.
  unfold sweep_re. cbn [seqs]. intros H.
  inversion H; subst; clear H.
  match goal with H : mt (chr _) _ _ _ |- _ => inversion H; subst; clear H end.
  match goal with H : mt (Seq _ _) _ _ _ |- _ => inversion H; subst; clear H end.
  match goal with H : mt (Star _) _ _ _ |- _ => inversion H; subst; clear H end.
  match goal with H : mt (Seq _ _) _ _ _ |- _ => inversion H; subst; clear H end.
  match goal with H : mt (lit _) _ _ _ |- _ =>
    apply mt_lit in H; destruct H as (-> & ->) end.
  match goal with H : mt (Seq _ _) _ _ _ |- _ => inversion H; subst; clear H end.
  match goal with H : mt (Star _) _ _ _ |- _ => inversion H; subst; clear H end.
  match goal with H : mt (chr _) _ _ _ |- _ => inversion H; subst; clear H end.
  repeat match goal with
         | H : mem (CChar _) _ = true |- _ =>
             simpl in H; apply Ascii.eqb_eq in H; subst
         end.
  match goal with
  | A : Forall _ ?a, B : Forall _ ?b |- context [?a ++ d ++ ?b ++ _] =>
      exists a, b
  | A : Forall _ ?a, B : Forall _ ?b |- context [?b ++ d ++ ?a ++ _] =>
      exists b, a
  end.
  repeat split; auto. simpl. now rewrite <- !app_assoc.
Qed.







(** ** Stream actions *)

Lemma bindM_run {A B} (m : M A) (k : A -> M B) s :
  bindM m k s =
    match m s with
    | (Ok a, s') => k a s'
    | (Raise e, s') => (Raise e, s')
    end.
Proof. reflexivity. Qed.

Lemma bindM_ok {A B} (m : M A) (k : A -> M B) s b s2 :
  bindM m k s = (Ok b, s2) ->
  exists a s1, m s = (Ok a, s1) /\ k a s1 = (Ok b, s2).
Proof.
  rewrite bindM_run. destruct (m s) as [[a|e] s1]; intros H;
    [eauto|discriminate].
Qed.

(** Actions that look at the input stream only and leave the output
    stream alone. *)
Definition same_in (s t : io) : Prop :=
  fin_data s = fin_data t /\ fin_pos s = fin_pos t.

Definition input_only {A} (m : M A) : Prop :=
  forall s,
    fin_data (snd (m s)) = fin_data s
    /\ fout_data (snd (m s)) = fout_data s
    /\ fout_pos (snd (m s)) = fout_pos s
    /\ forall t, same_in s t ->
                 fst (m s) = fst (m t) /\ same_in (snd (m s)) (snd (m t)).

Lemma input_only_ret {A} (a : A) : input_only (ret a).
Proof. intros s. do 3 (split; [reflexivity|]). intros t S. now split. Qed.

Lemma input_only_lift {A} (r : res A) : input_only (lift r).
Proof. intros s. do 3 (split; [reflexivity|]). intros t S. now split. Qed.

Lemma input_only_seek off : input_only (fin_seek off).
Proof.
  intros s. unfold fin_seek.
  destruct (off <? max_off)%Z; simpl; do 3 (split; [reflexivity|]);
    intros t [S1 S2]; split; auto; split; simpl; auto.
Qed.

Lemma input_only_read n : input_only (fin_read n).
Proof.
  intros s. unfold fin_read.
  destruct (n <? -1)%Z; simpl; do 3 (split; [reflexivity|]);
    intros t [S1 S2]; split; auto; try split; simpl; rewrite ?S1, ?S2;
    auto.
Qed.

Lemma input_only_bind {A B} (m : M A) (k : A -> M B) :
  input_only m -> (forall a, input_only (k a)) -> input_only (bindM m k).
Proof.
  intros Hm Hk s. rewrite bindM_run.
  destruct (Hm s) as (D & F & P & T).
  destruct (m s) as [[a|e] s1] eqn:E; simpl in *.
  - destruct (Hk a s1) as (D1 & F1 & P1 & T1).
    split; [congruence|]. split; [congruence|]. split; [congruence|].
    intros t S. rewrite bindM_run. destruct (T t S) as (R & S1).
    destruct (m t) as [[a'|e'] t1]; simpl in *; inversion R; subst.
    now apply T1.
  - split; [congruence|]. split; [congruence|]. split; [congruence|].
    intros t S. rewrite bindM_run. destruct (T t S) as (R & S1).
    destruct (m t) as [[a'|e'] t1]; simpl in *; inversion R; subst.
    split; auto.
Qed.

Lemma input_only_read_measurement i : input_only (read_measurement i).
Proof.
  unfold read_measurement.
  repeat first [ apply input_only_bind; [|intros ?]
               | apply input_only_seek | apply input_only_read
               | apply input_only_lift | apply input_only_ret ].
Qed.

(** Reading a measurement does not depend on where the streams stand. *)
Lemma read_measurement_at i s :
  fst (read_measurement i s) = measurement_at (fin_data s) i.
Proof.
  unfold measurement_at, read_measurement. rewrite !bindM_run.
  unfold fin_seek at 1 3. cbn [fin_data].
  destruct (8 + 152 * Z.of_nat i <? max_off)%Z; [|reflexivity].
  match goal with
  | |- fst (?k ?s1) = fst (?k ?s2) =>
      assert (I : input_only k); [|apply (I s1); split; reflexivity]
  end.
  repeat first [ apply input_only_bind; [|intros ?]
               | apply input_only_seek | apply input_only_read
               | apply input_only_lift | apply input_only_ret ].
Qed.

(** No action writes to the input. *)
Definition keeps_input {A} (m : M A) : Prop :=
  forall s, fin_data (snd (m s)) = fin_data s.

Lemma keeps_input_bind {A B} (m : M A) (k : A -> M B) :
  keeps_input m -> (forall a, keeps_input (k a)) -> keeps_input (bindM m k).
Proof.
  intros Hm Hk s. rewrite bindM_run. specialize (Hm s).
  destruct (m s) as [[a|e] s1]; simpl in *; auto.
  rewrite Hk. auto.
Qed.

Lemma keeps_input_ret {A} (a : A) : keeps_input (ret a).
Proof. intros s. reflexivity. Qed.

Lemma keeps_input_lift {A} (r : res A) : keeps_input (lift r).
Proof. intros s. reflexivity. Qed.

Lemma keeps_input_fin_seek off : keeps_input (fin_seek off).
Proof. intros s. unfold fin_seek. now destruct (off <? max_off)%Z. Qed.

Lemma keeps_input_fout_seek off : keeps_input (fout_seek off).
Proof. intros s. unfold fout_seek. now destruct (off <? max_off)%Z. Qed.

Lemma keeps_input_read n : keeps_input (fin_read n).
Proof. intros s. unfold fin_read. now destruct (n <? -1)%Z. Qed.

Lemma keeps_input_write b : keeps_input (fout_write b).
Proof. intros s. reflexivity. Qed.

Ltac keeps_input_tac :=
  repeat first [ apply keeps_input_bind; [|intros ?]
               | apply keeps_input_fin_seek | apply keeps_input_fout_seek
               | apply keeps_input_read | apply keeps_input_write
               | apply keeps_input_lift | apply keeps_input_ret ].

Lemma keeps_input_vd_turn meta i : keeps_input (vd_turn meta i).
Proof.
  unfold vd_turn, read_measurement, write_measurement.
  destruct meta; keeps_input_tac.
Qed.

Lemma vd_turn_ok meta i s ms s' :
  vd_turn meta i s = (Ok ms, s') ->
  fin_data s' = fin_data s
  /\ exists m, measurement_at (fin_data s) i = Ok m /\ ms = ms_matches m.
Proof.
  intros H. split.
  - pose proof (keeps_input_vd_turn meta i s) as K. now rewrite H in K.
  - unfold vd_turn in H. apply bindM_ok in H.
    destruct H as (m & s1 & R & H).
    apply bindM_ok in H. destruct H as (u & s2 & _ & H).
    inversion H; subst. exists m. split; auto.
    rewrite <- read_measurement_at. now rewrite R.
Qed.

(** The loop hands back the matches of the last index it visited. *)
Lemma vd_loop_last meta : forall idx cur s r s',
  vd_loop meta idx cur s = (Ok r, s') ->
  fin_data s' = fin_data s
  /\ (idx = [] -> r = cur)
  /\ (forall idx0 i, idx = idx0 ++ [i] ->
        exists m, measurement_at (fin_data s) i = Ok m
                  /\ r = Some (ms_matches m)).
Proof.
  induction idx as [|j idx IH]; intros cur s r s' H.
  - inversion H; subst. repeat split; auto.
    intros idx0 i E. destruct idx0; discriminate.
  - cbn [vd_loop] in H. apply bindM_ok in H.
    destruct H as (ms & s1 & T & H).
    destruct (vd_turn_ok _ _ _ _ _ T) as (D1 & m & Mj & ->).
    destruct (IH _ _ _ _ H) as (D2 & Hnil & Hlast).
    split; [congruence|]. split; [discriminate|].
    intros idx0 i E. destruct idx as [|j' idx'].
    + destruct idx0 as [|? [|? ?]]; try discriminate.
      inversion E; subst. exists m. split; auto.
    + destruct idx0 as [|j0 idx0]; [discriminate|].
      inversion E; subst. destruct (Hlast idx0 i ltac:(assumption))
        as (m' & M' & ->).
      exists m'. split; auto. now rewrite <- D1.
Qed.

Lemma fin_read_start n data fout pos :
  (0 <= n)%Z ->
  fin_read n (MkIo data 0 fout pos)
  = (Ok (firstn (Z.to_nat n) data),
     MkIo data (length (firstn (Z.to_nat n) data)) fout pos).
Proof.
  intros Hn. unfold fin_read. cbn [fin_pos fin_data fout_data fout_pos skipn].
  destruct (Z.ltb_spec n (-1)); [lia|].
  destruct (Z.eqb_spec n (-1)); [lia|]. reflexivity.
Qed.

(** C8. For a Variant A container of [n >= 1] measurements, the match
    mapping [anonymize_twix_vd] returns is the one the redactor produced
    for the measurement of index [n - 1], the last one the loop visits. *)
Theorem vd_returns_last_matches meta data fout pos twix_id n ms s' :
  unpack_II (firstn 8 data) = Ok (twix_id, n) ->
  (1 <= n)%Z ->
  anonymize_twix_vd meta (MkIo data 0 fout pos) = (Ok ms, s') ->
  exists m,
    measurement_at data (Z.to_nat n - 1) = Ok m /\ ms = ms_matches m.
Proof.
  intros U Hn H. unfold anonymize_twix_vd in H.
  rewrite bindM_run, fin_read_start in H by lia.
  change (Z.to_nat 8) with 8 in H.
  rewrite bindM_run in H. unfold lift at 1 in H. rewrite U in H.
  apply bindM_ok in H. destruct H as (u & s1 & W & H).
  apply bindM_ok in H. destruct H as (cur & s2 & L & H).
  assert (D1 : fin_data s1 = data).
  { destruct meta; inversion W; subst; reflexivity. }
  destruct (vd_loop_last _ _ _ _ _ _ L) as (_ & _ & Hlast).
  assert (E : seq 0 (Z.to_nat n)
              = seq 0 (Z.to_nat n - 1) ++ [Z.to_nat n - 1]).
  { replace (Z.to_nat n) with (S (Z.to_nat n - 1)) at 1 by lia.
    now rewrite seq_S. }
  destruct (Hlast _ _ E) as (m & M & ->). rewrite D1 in M.
  exists m. split; auto. unfold lift in H. simpl in H. now inversion H.
Qed.

(** C10. For a Variant A container whose measurement count is 0 the loop
    body never runs, the local [matches] stays unbound, and
    [anonymize_twix_vd] raises instead of returning an empty mapping; the
    dispatcher does send such a container, eight zero bytes at its head,
    to this reader. *)
Theorem vd_without_measurements_fails meta data fout pos twix_id :
  unpack_II (firstn 8 data) = Ok (twix_id, 0%Z) ->
  fst (anonymize_twix_vd meta (MkIo data 0 fout pos))
  = Raise UnboundLocalError
  /\ (twix_id = 0%Z ->
      is_vd twix_id 0 = true
      /\ forall filename out_path w,
           files w filename = Some data ->
           fst (read_and_anonymize filename out_path meta w)
           = Raise UnboundLocalError).
Proof.
  intros U.
  assert (V : forall fo po,
             fst (anonymize_twix_vd meta (MkIo data 0 fo po))
             = Raise UnboundLocalError).
  { intros fo po. unfold anonymize_twix_vd.
    rewrite bindM_run, fin_read_start by lia.
    change (Z.to_nat 8) with 8.
    rewrite bindM_run. unfold lift at 1. rewrite U.
    destruct meta; reflexivity. }
  split; [apply V|]. intros ->. split; [reflexivity|].
  intros filename out_path w F. unfold read_and_anonymize.
  rewrite F, U. cbn [is_vd Z.eqb Z.leb andb Z.compare].
  specialize (V [] 0).
  destruct (anonymize_twix_vd meta (MkIo data 0 [] 0)) as [[ms|e] s1];
    simpl in *; [discriminate|now inversion V].
Qed.

(** ** Writes to the output stream *)

Lemma write_at_length p b d :
  length d <= length (write_at p b d)
  /\ (b <> [] -> length (write_at p b d) = Nat.max (length d) (p + length b)).
Proof.
  unfold write_at. destruct b as [|x b]; [split; [lia|congruence]|].
  set (bb := x :: b).
  assert (L : length (firstn p (d ++ repeat Byte.x00 (p - length d))) = p).
  { rewrite length_firstn, length_app, repeat_length. lia. }
  rewrite !length_app, L, length_skipn. split; [lia|]. intros _. lia.
Qed.

Lemma write_at_in p b d j :
  covers (p, b) j ->
  nth_error (write_at p b d) j = nth_error b (j - p).
Proof.
  unfold covers, write_at. simpl. intros C.
  destruct b as [|x b]; [simpl in C; lia|]. set (bb := x :: b) in *.
  assert (L : length (firstn p (d ++ repeat Byte.x00 (p - length d))) = p).
  { rewrite length_firstn, length_app, repeat_length. lia. }
  rewrite nth_error_app2 by lia. rewrite L.
  rewrite nth_error_app1 by lia. reflexivity.
Qed.

Lemma write_at_out p b d j :
  ~ covers (p, b) j -> j < length d ->
  nth_error (write_at p b d) j = nth_error d j.
Proof.
  unfold covers, write_at. simpl. intros C Hj.
  destruct b as [|x b]; [reflexivity|]. set (bb := x :: b) in *.
  assert (L : length (firstn p (d ++ repeat Byte.x00 (p - length d))) = p).
  { rewrite length_firstn, length_app, repeat_length. lia. }
  destruct (Nat.lt_ge_cases j p) as [Lt|Ge].
  - rewrite nth_error_app1 by lia.
    rewrite nth_error_firstn.
    destruct (Nat.ltb_spec j p); [|lia].
    now rewrite nth_error_app1 by lia.
  - rewrite nth_error_app2 by lia. rewrite L.
    rewrite nth_error_app2 by lia.
    rewrite nth_error_skipn. f_equal. lia.
Qed.

Section WriteInvariant.
(** [Q j v]: the byte [v] is acceptable at position [j]. *)
Variable Q : nat -> Byte.byte -> Prop.

Definition settled (C : nat -> Prop) (d : bytes) : Prop :=
  forall j, C j -> exists v, nth_error d j = Some v /\ Q j v.

Definition acceptable (w : nat * bytes) : Prop :=
  forall j v, covers w j -> nth_error (snd w) (j - fst w) = Some v -> Q j v.

Lemma write_settles C p b d :
  settled C d -> acceptable (p, b) ->
  settled (fun j => C j \/ covers (p, b) j) (write_at p b d).
Proof.
  intros S A j Hj.
  assert (Dec : covers (p, b) j \/ ~ covers (p, b) j)
    by (unfold covers; simpl; lia).
  destruct Dec as [Cv|Nc].
  - rewrite write_at_in by assumption.
    destruct (nth_error b (j - p)) as [v|] eqn:E.
    + exists v. split; auto.
    + apply nth_error_None in E. unfold covers in Cv. simpl in Cv. lia.
  - destruct Hj as [Hj|Hj]; [|contradiction].
    destruct (S j Hj) as (v & E & Qv).
    assert (j < length d) by (apply nth_error_Some; congruence).
    exists v. split; auto. now rewrite write_at_out.
Qed.

Lemma writes_settle ws : forall C d,
  settled C d -> Forall acceptable ws ->
  settled (fun j => C j \/ exists w, In w ws /\ covers w j)
          (apply_writes ws d).
Proof.
  induction ws as [|[p b] ws IH]; intros C d S A; simpl.
  - intros j [Hj|(w & [] & _)]. auto.
  - inversion A as [|? ? A1 A2]; subst.
    pose proof (IH _ _ (write_settles C p b d S A1) A2) as S2.
    intros j Hj. apply S2.
    destruct Hj as [Hj|(w & [<-|I] & Cv)]; eauto.
Qed.
End WriteInvariant.

Lemma apply_writes_app ws1 ws2 d :
  apply_writes (ws1 ++ ws2) d = apply_writes ws2 (apply_writes ws1 d).
Proof. unfold apply_writes. apply fold_left_app. Qed.

(** ** What one turn of the Variant A loop reads and writes *)

Lemma fin_seek_ok off s u s' :
  fin_seek off s = (Ok u, s') ->
  s' = MkIo (fin_data s) (Z.to_nat off) (fout_data s) (fout_pos s).
Proof.
  unfold fin_seek. destruct (off <? max_off)%Z; intros H; now inversion H.
Qed.

Lemma fout_seek_ok off s u s' :
  fout_seek off s = (Ok u, s') ->
  s' = MkIo (fin_data s) (fin_pos s) (fout_data s) (Z.to_nat off).
Proof.
  unfold fout_seek. destruct (off <? max_off)%Z; intros H; now inversion H.
Qed.

Lemma fin_read_ok n s b s' :
  fin_read n s = (Ok b, s') ->
  b = read_bytes (fin_data s) (fin_pos s) n
  /\ s' = MkIo (fin_data s) (fin_pos s + length b) (fout_data s) (fout_pos s).
Proof.
  unfold fin_read, read_bytes. destruct (n <? -1)%Z; intros H;
    inversion H; subst; auto.
Qed.

Lemma fout_write_ok b s u s' :
  fout_write b s = (Ok u, s') ->
  s' = MkIo (fin_data s) (fin_pos s)
            (write_at (fout_pos s) b (fout_data s)) (fout_pos s + length b).
Proof. unfold fout_write. intros H. now inversion H. Qed.

Lemma lift_ok {A} (r : res A) s a s' :
  lift r s = (Ok a, s') -> r = Ok a /\ s' = s.
Proof. unfold lift. intros H. now inversion H. Qed.

Lemma ret_ok {A} (x : A) s a s' : ret x s = (Ok a, s') -> a = x /\ s' = s.
Proof. unfold ret. intros H. now inversion H. Qed.

Lemma unpack_I_length raw v : unpack_I raw = Ok v -> length raw = 4.
Proof.
  unfold unpack_I. destruct (Nat.eqb_spec (length raw) 4); [auto|discriminate].
Qed.

Lemma read_measurement_ok i s m s1 :
  read_measurement i s = (Ok m, s1) ->
  measured (fin_data s) i m
  /\ s1 = MkIo (fin_data s) (block_start m + 4 + length (ms_header m))
               (fout_data s) (fout_pos s).
Proof.
  unfold read_measurement. intros H.
  apply bindM_ok in H. destruct H as (u1 & sa & H1 & H).
  apply fin_seek_ok in H1. subst sa.
  apply bindM_ok in H. destruct H as (raw & sb & H2 & H).
  apply fin_read_ok in H2. cbn [fin_data fin_pos fout_data fout_pos] in H2.
  destruct H2 as (Eraw & ->).
  apply bindM_ok in H. destruct H as (e & sc & H3 & H).
  apply lift_ok in H3. destruct H3 as (He & ->).
  apply bindM_ok in H. destruct H as (u2 & sd & H4 & H).
  apply fin_seek_ok in H4. cbn [fin_data fin_pos fout_data fout_pos] in H4.
  subst sd.
  apply bindM_ok in H. destruct H as (raw4 & se & H5 & H).
  apply fin_read_ok in H5. cbn [fin_data fin_pos fout_data fout_pos] in H5.
  destruct H5 as (Eraw4 & ->).
  apply bindM_ok in H. destruct H as (hs & sf & H6 & H).
  apply lift_ok in H6. destruct H6 as (Hhs & ->).
  apply bindM_ok in H. destruct H as (header & sg & H7 & H).
  apply fin_read_ok in H7. cbn [fin_data fin_pos fout_data fout_pos] in H7.
  destruct H7 as (Ehd & ->).
  apply bindM_ok in H. destruct H as (r & sh & H8 & H).
  apply lift_ok in H8. destruct H8 as (Hr & ->).
  apply ret_ok in H. destruct H as (-> & ->).
  pose proof (unpack_I_length _ _ Hhs) as L4.
  unfold measured, block_start. cbn [ms_entry ms_header_size ms_header
    ms_anonymized ms_matches].
  assert (P : Z.to_nat (8 + 152 * Z.of_nat i) = 8 + 152 * i) by lia.
  rewrite P in Eraw. unfold read_bytes in Eraw, Eraw4.
  cbn [Z.eqb] in Eraw, Eraw4.
  change (Z.to_nat 152) with 152 in Eraw. change (Z.to_nat 4) with 4 in Eraw4.
  rewrite L4 in Ehd. split; [repeat split|].
  - now rewrite <- Eraw.
  - now rewrite <- Eraw4.
  - exact Ehd.
  - rewrite Hr. now destruct r.
  - now rewrite L4.
Qed.

Lemma measurement_at_spec data i m :
  measurement_at data i = Ok m -> measured data i m.
Proof.
  unfold measurement_at. intros H.
  destruct (read_measurement i (MkIo data 0 [] 0)) as [r s1] eqn:E.
  simpl in H. subst r. now apply read_measurement_ok in E.
Qed.

Lemma write_measurement_ok i m s s' :
  write_measurement i m s = (Ok tt, s') ->
  fin_pos s = block_start m + 4 + length (ms_header m) ->
  fin_data s' = fin_data s
  /\ fout_data s' = apply_writes (turn_writes (fin_data s) i m) (fout_data s).
Proof.
  unfold write_measurement. intros H Hp.
  apply bindM_ok in H. destruct H as (u1 & sa & H1 & H).
  apply fout_seek_ok in H1. subst sa.
  apply bindM_ok in H. destruct H as (u2 & sb & H2 & H).
  apply fout_write_ok in H2. cbn [fin_data fin_pos fout_data fout_pos] in H2.
  subst sb.
  apply bindM_ok in H. destruct H as (u3 & sc & H3 & H).
  apply fout_seek_ok in H3. cbn [fin_data fin_pos fout_data fout_pos] in H3.
  subst sc.
  apply bindM_ok in H. destruct H as (u4 & sd & H4 & H).
  apply fout_write_ok in H4. cbn [fin_data fin_pos fout_data fout_pos] in H4.
  subst sd.
  apply bindM_ok in H. destruct H as (u5 & se & H5 & H).
  apply fout_write_ok in H5. cbn [fin_data fin_pos fout_data fout_pos] in H5.
  subst se.
  apply bindM_ok in H. destruct H as (u6 & sf & H6 & H).
  apply fout_write_ok in H6. cbn [fin_data fin_pos fout_data fout_pos] in H6.
  subst sf.
  apply bindM_ok in H. destruct H as (payload & sg & H7 & H).
  apply fin_read_ok in H7. cbn [fin_data fin_pos fout_data fout_pos] in H7.
  destruct H7 as (Ep & ->).
  apply fout_write_ok in H. cbn [fin_data fin_pos fout_data fout_pos] in H.
  subst s'. cbn [fin_data fout_data]. split; [reflexivity|].
  unfold apply_writes, turn_writes, payload_of, block_start in *.
  cbn [fold_left fst snd].
  assert (P : Z.to_nat (8 + 152 * Z.of_nat i) = 8 + 152 * i) by lia.
  rewrite P, Hp in *. now rewrite Ep.
Qed.

(** ** The bytes of each write *)

Lemma slice_length {A} a b (l : list A) :
  b <= length l -> length (slice a b l) = b - a.
Proof.
  intros H. unfold slice. rewrite length_firstn, length_skipn. lia.
Qed.

Lemma firstn_plus {A} x y : forall l : list A,
  firstn (x + y) l = firstn x l ++ firstn y (skipn x l).
Proof.
  induction x as [|x IH]; intros l; simpl; auto.
  destruct l as [|a l]; simpl.
  - now rewrite firstn_nil.
  - now rewrite IH.
Qed.

Lemma slice_app {A} a b c (l : list A) :
  a <= b -> b <= c -> slice a b l ++ slice b c l = slice a c l.
Proof.
  intros Hab Hbc. unfold slice.
  replace (c - a) with ((b - a) + (c - b)) by lia.
  rewrite firstn_plus. f_equal. rewrite skipn_skipn.
  now replace (b - a + a) with b by lia.
Qed.

Lemma uint_roundtrip k bs :
  length bs = k -> bytes_of_uint k (uint_of_bytes bs) = bs.
Proof. intros <-. apply bytes_of_uint_of_bytes. Qed.

Lemma pad_to_exact n bs : length bs = n -> pad_to n bs = bs.
Proof.
  intros <-. unfold pad_to. rewrite firstn_app, Nat.sub_diag.
  simpl. now rewrite app_nil_r, firstn_all.
Qed.

Lemma pack_unpack_II raw a b : unpack_II raw = Ok (a, b) -> pack_II a b = raw.
Proof.
  unfold unpack_II, pack_II.
  destruct (Nat.eqb_spec (length raw) 8) as [L|]; [|discriminate].
  intros H. inversion H; subst.
  rewrite !uint_roundtrip by (rewrite slice_length; lia).
  rewrite slice_app by lia. unfold slice. simpl skipn.
  apply firstn_all2. lia.
Qed.

(** The row written back: the row read, with the placeholder bytes over
    the patient name. *)
Lemma pack_entry_row raw e :
  unpack_entry raw = Ok e ->
  length raw = 152
  /\ pack_entry (MkEntry (meas_id e) (file_id e) (offset e) (length_ e)
                         anon_patient_name (protocol_name e))
     = firstn 24 raw ++ anon_patient_name ++ skipn 88 raw.
Proof.
  unfold unpack_entry, pack_entry.
  destruct (Nat.eqb_spec (length raw) 152) as [L|]; [|discriminate].
  intros H. inversion H; subst. clear H. split; auto.
  cbn [meas_id file_id offset length_ patient_name protocol_name].
  rewrite !uint_roundtrip by (rewrite slice_length; lia).
  rewrite (pad_to_exact 64 (slice 88 152 raw))
    by (rewrite slice_length; lia).
  rewrite (pad_to_exact 64 anon_patient_name) by reflexivity.
  rewrite !app_assoc. rewrite !slice_app by lia.
  rewrite <- !app_assoc. f_equal.
  f_equal. unfold slice. apply firstn_all2. rewrite length_skipn. lia.
Qed.

Lemma read_bytes_segment data pos n :
  read_bytes data pos n
  = firstn (length (read_bytes data pos n)) (skipn pos data).
Proof.
  unfold read_bytes. destruct (n =? -1)%Z.
  - now rewrite firstn_all.
  - rewrite length_firstn.
    destruct (Nat.le_ge_cases (Z.to_nat n) (length (skipn pos data))).
    + now rewrite Nat.min_l.
    + rewrite Nat.min_r by assumption.
      now rewrite firstn_all, firstn_all2.
Qed.


Lemma acceptable_app Q p b1 b2 :
  acceptable Q (p, b1) -> acceptable Q (p + length b1, b2) ->
  acceptable Q (p, b1 ++ b2).
Proof.
  unfold acceptable, covers. simpl. intros A1 A2 j v C E.
  rewrite length_app in C.
  destruct (Nat.lt_ge_cases (j - p) (length b1)) as [Lt|Ge].
  - rewrite nth_error_app1 in E by assumption. apply (A1 j v); auto. lia.
  - rewrite nth_error_app2 in E by assumption. apply (A2 j v); [lia|].
    now replace (j - (p + length b1)) with (j - p - length b1) by lia.
Qed.

Lemma faithful_segment data n p b :
  b = firstn (length b) (skipn p data) ->
  acceptable (faithful data n) (p, b).
Proof.
  intros Hb j v C E. right. unfold covers in C. simpl in *.
  rewrite Hb in E. rewrite nth_error_firstn in E.
  destruct (j - p <? length b); [|discriminate].
  rewrite nth_error_skipn in E. now replace (p + (j - p)) with j in E by lia.
Qed.

Lemma faithful_redacted data n p b :
  (forall j, covers (p, b) j -> redacted data n j) ->
  acceptable (faithful data n) (p, b).
Proof. intros H j v C _. left. auto. Qed.

Lemma name_masked_block data n i m p b :
  i < n -> measurement_at data i = Ok m ->
  (forall j, covers (p, b) j -> in_block data m j) ->
  acceptable (name_masked data n) (p, b).
Proof.
  intros Hi M H j v C _ _ N. exfalso. apply (N i m Hi M). auto.
Qed.

Lemma name_masked_elsewhere data n p b :
  (forall j i, covers (p, b) j -> ~ name_field i j) ->
  acceptable (name_masked data n) (p, b).
Proof.
  intros H j v C _ (i & _ & F) _. exfalso. apply (H j i C F).
Qed.

Lemma anon_patient_name_nth t v :
  nth_error anon_patient_name t = Some v -> v = x_byte.
Proof.
  intros E. apply nth_error_In in E. unfold anon_patient_name, encode in E.
  apply in_map_iff in E. destruct E as (c & <- & I).
  apply repeat_spec in I. now subst.
Qed.

(** Lengths around a measurement that was read. *)
Lemma measured_lengths data i m :
  measured data i m ->
  length (pack_I (ms_header_size m)) = 4
  /\ length (encode (ms_anonymized m)) = length (drop_last 24 (ms_header m))
  /\ length (drop_last 24 (ms_header m)) + length (take_last 24 (ms_header m))
     = length (ms_header m)
  /\ pack_I (ms_header_size m) = firstn 4 (skipn (block_start m) data).
Proof.
  intros (He & Hs & Hh & Ha).
  pose proof (pack_unpack_I _ _ Hs) as P.
  pose proof (unpack_I_length _ _ Hs) as L4.
  split; [|split; [|split]].
  - reflexivity.
  - rewrite encode_length, (anonymize_length _ _ _ Ha).
    unfold decode. now rewrite length_map.
  - unfold drop_last, take_last. rewrite <- length_app.
    now rewrite firstn_skipn.
  - exact P.
Qed.

Lemma row_segments raw p (data : bytes) :
  raw = firstn 152 (skipn p data) -> length raw = 152 ->
  firstn 24 raw = firstn (length (firstn 24 raw)) (skipn p data)
  /\ skipn 88 raw
     = firstn (length (skipn 88 raw)) (skipn (p + 88) data).
Proof.
  intros E L. split.
  - rewrite length_firstn, L. rewrite E at 1. rewrite firstn_firstn.
    reflexivity.
  - rewrite length_skipn, L. rewrite E at 1.
    rewrite skipn_firstn_comm, skipn_skipn.
    now rewrite (Nat.add_comm 88 p).
Qed.

Ltac forall_split :=
  repeat match goal with
         | |- Forall _ (_ :: _) => apply Forall_cons
         | |- Forall _ [] => apply Forall_nil
         end.

Lemma row_write data i m :
  measured data i m ->
  exists raw,
    raw = firstn 152 (skipn (8 + 152 * i) data) /\ length raw = 152
    /\ pack_entry (MkEntry (meas_id (ms_entry m)) (file_id (ms_entry m))
                           (offset (ms_entry m)) (length_ (ms_entry m))
                           anon_patient_name (protocol_name (ms_entry m)))
       = firstn 24 raw ++ anon_patient_name ++ skipn 88 raw.
Proof.
  intros (He & _). destruct (pack_entry_row _ _ He) as (L & P).
  eexists. split; [reflexivity|]. split; assumption.
Qed.

Lemma trailing_segment data m i :
  measured data i m ->
  take_last 24 (ms_header m)
  = firstn (length (take_last 24 (ms_header m)))
      (skipn (block_start m + 4 + length (drop_last 24 (ms_header m))) data).
Proof.
  intros (_ & _ & Hh & _). unfold take_last, drop_last.
  rewrite length_skipn, length_firstn.
  set (L := length (ms_header m)).
  assert (Eh : ms_header m = firstn L (skipn (block_start m + 4) data)).
  { unfold L. rewrite Hh at 1. rewrite Hh at 1.
    apply read_bytes_segment. }
  rewrite Eh at 1. rewrite skipn_firstn_comm, skipn_skipn.
  f_equal. f_equal. lia.
Qed.

Lemma turn_faithful data n i m :
  i < n -> measurement_at data i = Ok m ->
  Forall (acceptable (faithful data n)) (turn_writes data i m).
Proof.
  intros Hi M. pose proof (measurement_at_spec _ _ _ M) as Me.
  destruct (measured_lengths _ _ _ Me) as (L1 & L2 & L3 & P1).
  destruct (row_write _ _ _ Me) as (raw & Eraw & Lraw & Prow).
  destruct (row_segments raw _ data Eraw Lraw) as (S1 & S2).
  unfold turn_writes. forall_split.
  - rewrite Prow. apply acceptable_app; [now apply faithful_segment|].
    apply acceptable_app.
    + apply faithful_redacted. intros j C. exists i, m.
      repeat split; auto. right. unfold covers, name_field in *.
      cbn [fst snd] in C. rewrite length_firstn, Lraw in C.
      change (length anon_patient_name) with 64 in C. lia.
    + rewrite length_firstn, Lraw.
      change (length anon_patient_name) with 64.
      replace (8 + 152 * i + Nat.min 24 152 + 64) with (8 + 152 * i + 88)
        by lia.
      now apply faithful_segment.
  - apply faithful_segment. now rewrite L1.
  - apply faithful_redacted. intros j C. exists i, m.
    repeat split; auto. left. unfold covers, text_region in *.
    cbn [fst snd] in C. lia.
  - rewrite L1, L2. apply faithful_segment.
    eapply trailing_segment; eauto.
  - rewrite L1, L2.
    replace (block_start m + 4 + length (drop_last 24 (ms_header m))
             + length (take_last 24 (ms_header m)))
      with (block_start m + 4 + length (ms_header m)) by lia.
    apply faithful_segment. apply read_bytes_segment.
Qed.

Lemma turn_name_masked data n i m :
  i < n -> measurement_at data i = Ok m ->
  Forall (acceptable (name_masked data n)) (turn_writes data i m).
Proof.
  intros Hi M. pose proof (measurement_at_spec _ _ _ M) as Me.
  destruct (measured_lengths _ _ _ Me) as (L1 & L2 & L3 & P1).
  destruct (row_write _ _ _ Me) as (raw & Eraw & Lraw & Prow).
  unfold turn_writes. forall_split.
  - rewrite Prow. apply acceptable_app; [|apply acceptable_app].
    + apply name_masked_elsewhere. intros j i' C F.
      unfold covers, name_field in *. cbn [fst snd] in C.
      rewrite length_firstn, Lraw in C. lia.
    + intros j v C E _ _. eapply anon_patient_name_nth; eauto.
    + apply name_masked_elsewhere. intros j i' C F.
      unfold covers, name_field in *. cbn [fst snd] in C.
      rewrite length_skipn, length_firstn, Lraw in C.
      change (length anon_patient_name) with 64 in C. lia.
  - apply (name_masked_block data n i m); auto. intros j C.
    unfold covers, in_block in *. cbn [fst snd] in C. lia.
  - apply (name_masked_block data n i m); auto. intros j C.
    unfold covers, in_block in *. cbn [fst snd] in C. lia.
  - apply (name_masked_block data n i m); auto. intros j C.
    unfold covers, in_block in *. cbn [fst snd] in C. lia.
  - apply (name_masked_block data n i m); auto. intros j C.
    unfold covers, in_block, payload_of in *. cbn [fst snd] in C. lia.
Qed.

Lemma turn_covers data i m j :
  measured data i m ->
  in_row i j \/ in_block data m j ->
  exists w, In w (turn_writes data i m) /\ covers w j.
Proof.
  intros Me H.
  destruct (measured_lengths _ _ _ Me) as (L1 & L2 & L3 & P1).
  destruct (row_write _ _ _ Me) as (raw & Eraw & Lraw & Prow).
  unfold turn_writes.
  set (b1 := pack_I (ms_header_size m)) in *.
  set (b2 := encode (ms_anonymized m)) in *.
  set (b3 := take_last 24 (ms_header m)) in *.
  set (b5 := payload_of data m) in *.
  destruct H as [R|B].
  - eexists. split; [left; reflexivity|].
    unfold covers, in_row in *. cbn [fst snd]. rewrite Prow.
    rewrite !length_app, length_firstn, length_skipn, Lraw.
    change (length anon_patient_name) with 64. lia.
  - unfold in_block in B. fold b5 in B.
    destruct (Nat.lt_ge_cases j (block_start m + length b1)).
    { eexists. split; [right; left; reflexivity|].
      unfold covers. cbn [fst snd]. lia. }
    destruct (Nat.lt_ge_cases j (block_start m + length b1 + length b2)).
    { eexists. split; [right; right; left; reflexivity|].
      unfold covers. cbn [fst snd]. lia. }
    destruct (Nat.lt_ge_cases j
                (block_start m + length b1 + length b2 + length b3)).
    { eexists. split; [right; right; right; left; reflexivity|].
      unfold covers. cbn [fst snd]. lia. }
    eexists. split; [right; right; right; right; left; reflexivity|].
    unfold covers. cbn [fst snd]. lia.
Qed.

(** ** The output of the Variant A writer as a list of writes *)

Lemma vd_turn_writes i s ms s' :
  vd_turn false i s = (Ok ms, s') ->
  exists m,
    measurement_at (fin_data s) i = Ok m
    /\ fin_data s' = fin_data s
    /\ fout_data s'
       = apply_writes (turn_writes (fin_data s) i m) (fout_data s).
Proof.
  unfold vd_turn. intros H.
  apply bindM_ok in H. destruct H as (m & s1 & R & H).
  pose proof (read_measurement_at i s) as At. rewrite R in At. simpl in At.
  apply read_measurement_ok in R. destruct R as (_ & ->).
  apply bindM_ok in H. destruct H as ([] & s2 & W & H).
  apply ret_ok in H. destruct H as (-> & ->).
  apply write_measurement_ok in W; [|reflexivity].
  cbn [fin_data fout_data] in W. destruct W as (D & F).
  exists m. auto.
Qed.

Lemma vd_loop_writes : forall idx cur s r s',
  vd_loop false idx cur s = (Ok r, s') ->
  exists ws,
    fout_data s' = apply_writes ws (fout_data s)
    /\ (forall w, In w ws ->
          exists i m, In i idx /\ measurement_at (fin_data s) i = Ok m
                      /\ In w (turn_writes (fin_data s) i m))
    /\ (forall i, In i idx ->
          exists m, measurement_at (fin_data s) i = Ok m
                    /\ incl (turn_writes (fin_data s) i m) ws).
Proof.
  induction idx as [|i idx IH]; intros cur s r s' H.
  - apply ret_ok in H. destruct H as (-> & ->). exists [].
    repeat split; auto; intros ? [].
  - cbn [vd_loop] in H. apply bindM_ok in H.
    destruct H as (ms & s1 & T & H).
    destruct (vd_turn_writes _ _ _ _ T) as (m & M & D & F).
    destruct (IH _ _ _ _ H) as (ws & F2 & In1 & In2).
    rewrite D in *.
    exists (turn_writes (fin_data s) i m ++ ws). split; [|split].
    + now rewrite apply_writes_app, <- F.
    + intros w I. apply in_app_or in I. destruct I as [I|I].
      * exists i, m. repeat split; auto. now left.
      * destruct (In1 w I) as (i' & m' & I' & M' & W').
        exists i', m'. repeat split; auto. now right.
    + intros i' [<-|I].
      * exists m. split; auto. now apply incl_appl, incl_refl.
      * destruct (In2 i' I) as (m' & M' & Inc).
        exists m'. split; auto. now apply incl_appr.
Qed.

Lemma unpack_II_length raw v : unpack_II raw = Ok v -> length raw = 8.
Proof.
  unfold unpack_II.
  destruct (Nat.eqb_spec (length raw) 8); [auto|discriminate].
Qed.

Lemma vd_output data twix_id n ms s' :
  unpack_II (firstn 8 data) = Ok (twix_id, n) ->
  anonymize_twix_vd false (MkIo data 0 [] 0) = (Ok ms, s') ->
  exists ws,
    fout_data s' = apply_writes ((0, firstn 8 data) :: ws) []
    /\ (forall w, In w ws ->
          exists i m, i < Z.to_nat n /\ measurement_at data i = Ok m
                      /\ In w (turn_writes data i m))
    /\ (forall i, i < Z.to_nat n ->
          exists m, measurement_at data i = Ok m
                    /\ incl (turn_writes data i m) ws).
Proof.
  intros U H. unfold anonymize_twix_vd in H.
  rewrite bindM_run, fin_read_start in H by lia.
  change (Z.to_nat 8) with 8 in H.
  rewrite bindM_run in H. unfold lift at 1 in H. rewrite U in H.
  apply bindM_ok in H. destruct H as (u & s1 & W & H).
  apply fout_write_ok in W. cbn [fin_data fin_pos fout_data fout_pos] in W.
  subst s1.
  apply bindM_ok in H. destruct H as (cur & s2 & L & H).
  apply lift_ok in H. destruct H as (_ & ->).
  destruct (vd_loop_writes _ _ _ _ _ L) as (ws & F & In1 & In2).
  cbn [fin_data fout_data] in *.
  rewrite (pack_unpack_II _ _ _ U) in F.
  exists ws. split; [exact F|]. split.
  - intros w I. destruct (In1 w I) as (i & m & Ii & M & Iw).
    exists i, m. repeat split; auto. apply in_seq in Ii. lia.
  - intros i Hi. apply In2. apply in_seq. lia.
Qed.

Lemma write_at_end p b d : p = length d -> write_at p b d = d ++ b.
Proof.
  intros ->. unfold write_at. destruct b as [|x b].
  - now rewrite app_nil_r.
  - rewrite Nat.sub_diag. simpl repeat. rewrite app_nil_r, firstn_all.
    rewrite skipn_all2 by lia. now rewrite app_nil_r.
Qed.

Lemma anonymize_nonempty h st :
  anonymize_twix_header h = Ok st -> h <> [].
Proof. intros H ->. vm_compute in H. discriminate. Qed.

(** ** The output of the Variant B writer *)

Lemma vb_output data ms s' :
  anonymize_twix_vb false (MkIo data 0 [] 0) = (Ok ms, s') ->
  exists raw txt trailing rest anon,
    data = raw ++ txt ++ trailing ++ rest
    /\ fout_data s' = raw ++ encode anon ++ trailing ++ rest
    /\ length raw = 4 /\ length trailing = 24
    /\ length (encode anon) = length txt
    /\ anonymize_twix_header (decode txt) = Ok (anon, ms).
Proof.
  unfold anonymize_twix_vb. intros H.
  rewrite bindM_run, fin_read_start in H by lia.
  change (Z.to_nat 4) with 4 in H.
  apply bindM_ok in H. destruct H as (hs & sa & H1 & H).
  apply lift_ok in H1. destruct H1 as (Hs & ->).
  pose proof (unpack_I_length _ _ Hs) as L4.
  apply bindM_ok in H. destruct H as (header & sb & H2 & H).
  apply fin_read_ok in H2. cbn [fin_data fin_pos fout_data fout_pos] in H2.
  destruct H2 as (Eh & ->). rewrite L4 in *.
  apply bindM_ok in H. destruct H as ([anon ms'] & sc & H3 & H).
  apply lift_ok in H3. destruct H3 as (Ha & ->).
  apply bindM_ok in H. destruct H as (u & sd & W & H).
  apply ret_ok in H. destruct H as (-> & ->).
  apply bindM_ok in W. destruct W as (u1 & s1 & W1 & W).
  apply fout_write_ok in W1. cbn [fin_data fin_pos fout_data fout_pos] in W1.
  subst s1.
  apply bindM_ok in W. destruct W as (u2 & s2 & W2 & W).
  apply fout_write_ok in W2. cbn [fin_data fin_pos fout_data fout_pos] in W2.
  subst s2.
  apply bindM_ok in W. destruct W as (u3 & s3 & W3 & W).
  apply fout_write_ok in W3. cbn [fin_data fin_pos fout_data fout_pos] in W3.
  subst s3.
  apply bindM_ok in W. destruct W as (rest & s4 & R & W).
  apply fin_read_ok in R. cbn [fin_data fin_pos fout_data fout_pos] in R.
  destruct R as (Er & ->).
  apply fout_write_ok in W. cbn [fin_data fin_pos fout_data fout_pos] in W.
  subst sd. cbn [fout_data].
  rewrite (pack_unpack_I _ _ Hs) in *.
  rewrite (write_at_end 0 _ []) by reflexivity. simpl app.
  rewrite (write_at_end (0 + _)) by (simpl; lia).
  rewrite (write_at_end (0 + _ + _)) by (rewrite length_app; simpl; lia).
  rewrite (write_at_end (0 + _ + _ + _))
    by (rewrite !length_app; simpl; lia).
  assert (Lt : length (encode anon) = length (drop_last 24 header)).
  { rewrite encode_length, (anonymize_length _ _ _ Ha).
    unfold decode. now rewrite length_map. }
  assert (Hne : drop_last 24 header <> []).
  { intros E. apply anonymize_nonempty in Ha. rewrite E in Ha. now apply Ha. }
  assert (L24 : length (take_last 24 header) = 24).
  { unfold take_last, drop_last in *. rewrite length_skipn.
    destruct (Nat.le_gt_cases (length header) 24) as [Le|Gt]; [|lia].
    exfalso. apply Hne. replace (length header - 24) with 0 by lia.
    reflexivity. }
  exists (firstn 4 data), (drop_last 24 header), (take_last 24 header), rest,
    anon.
  split; [|split; [|repeat split; auto]].
  - rewrite (app_assoc (drop_last 24 header)).
    unfold drop_last, take_last. rewrite firstn_skipn.
    pose proof (read_bytes_segment data 4 (hs - 4)) as Seg.
    rewrite <- Eh in Seg.
    assert (Er' : rest = skipn (length header) (skipn 4 data)).
    { rewrite Er. unfold read_bytes. change (-1 =? -1)%Z with true.
      cbv iota. rewrite skipn_skipn. f_equal. lia. }
    rewrite Er'. remember (length header) as L eqn:EL. rewrite Seg.
    now rewrite !firstn_skipn.
  - now rewrite <- !app_assoc.
Qed.

Lemma vd_settled (Q : nat -> Byte.byte -> Prop) data twix_id n ms s' :
  unpack_II (firstn 8 data) = Ok (twix_id, n) ->
  anonymize_twix_vd false (MkIo data 0 [] 0) = (Ok ms, s') ->
  acceptable Q (0, firstn 8 data) ->
  (forall i m, i < Z.to_nat n -> measurement_at data i = Ok m ->
               Forall (acceptable Q) (turn_writes data i m)) ->
  forall j, written data (Z.to_nat n) j ->
            exists v, nth_error (fout_data s') j = Some v /\ Q j v.
Proof.
  intros U H A0 At j Wj.
  destruct (vd_output _ _ _ _ _ U H) as (ws & F & In1 & In2).
  assert (S0 : settled Q (fun _ => False) []) by (intros ? []).
  assert (FA : Forall (acceptable Q) ((0, firstn 8 data) :: ws)).
  { constructor; auto. apply Forall_forall. intros w I.
    destruct (In1 w I) as (i & m & Hi & M & Iw).
    specialize (At i m Hi M). rewrite Forall_forall in At. auto. }
  pose proof (writes_settle Q _ _ _ S0 FA) as St. rewrite <- F in St.
  apply St. right.
  pose proof (unpack_II_length _ _ U) as L8.
  destruct Wj as [Lt|(i & m & Hi & M & R)].
  - exists (0, firstn 8 data). split; [now left|].
    unfold covers. cbn [fst snd]. lia.
  - destruct (turn_covers data i m j (measurement_at_spec _ _ _ M) R)
      as (w & Iw & Cw).
    exists w. split; auto. right.
    destruct (In2 i Hi) as (m' & M' & Inc).
    rewrite M in M'. inversion M'; subst m'. now apply Inc.
Qed.

(** C2. In normal mode the Variant B output is the input with the header
    text replaced by text of the same length: the size field, the 24
    trailing bytes and everything after the header are the input's.  In
    the Variant A output every byte of the container head, of a table row
    or of a measurement block equals the input byte of the same position,
    unless the position lies in the header text of a measurement or in a
    patient-name field; and every byte of a patient-name field that no
    measurement block overlaps is the placeholder. *)
Theorem bytes_outside_text_unchanged data :
  (forall ms s',
      anonymize_twix_vb false (MkIo data 0 [] 0) = (Ok ms, s') ->
      exists raw txt trailing rest anon,
        data = raw ++ txt ++ trailing ++ rest
        /\ fout_data s' = raw ++ encode anon ++ trailing ++ rest
        /\ length raw = 4 /\ length trailing = 24
        /\ length (encode anon) = length txt
        /\ anonymize_twix_header (decode txt) = Ok (anon, ms))
  /\ (forall twix_id n ms s',
        unpack_II (firstn 8 data) = Ok (twix_id, n) ->
        anonymize_twix_vd false (MkIo data 0 [] 0) = (Ok ms, s') ->
        (forall j, written data (Z.to_nat n) j ->
           exists v, nth_error (fout_data s') j = Some v
                     /\ faithful data (Z.to_nat n) j v)
        /\ (forall i j,
              i < Z.to_nat n -> name_field i j ->
              (forall i' m', i' < Z.to_nat n ->
                 measurement_at data i' = Ok m' -> ~ in_block data m' j) ->
              nth_error (fout_data s') j = Some x_byte)).
Proof.
  split; [apply vb_output|].
  intros twix_id n ms s' U H.
  pose proof (unpack_II_length _ _ U) as L8. split.
  - apply (vd_settled _ _ _ _ _ _ U H).
    + apply faithful_segment. rewrite L8. reflexivity.
    + intros i m. apply turn_faithful.
  - intros i j Hi Nf Nb.
    assert (Wj : written data (Z.to_nat n) j).
    { destruct (vd_output _ _ _ _ _ U H) as (ws & _ & _ & In2).
      destruct (In2 i Hi) as (m & M & _).
      right. exists i, m. repeat split; auto. left.
      unfold in_row, name_field in *. lia. }
    destruct (vd_settled (name_masked data (Z.to_nat n)) _ _ _ _ _ U H)
      with (j := j) as (v & E & Nm); auto.
    + apply name_masked_elsewhere. intros j' i' C F.
      unfold covers, name_field in *. cbn [fst snd] in C. lia.
    + intros i' m'. apply turn_name_masked.
    + rewrite E. f_equal. apply Nm; eauto.
Qed.

(** ** The output file after [read_and_anonymize] *)

Lemma vb_matches meta s ms s' :
  anonymize_twix_vb meta s = (Ok ms, s') ->
  exists h h', anonymize_twix_header h = Ok (h', ms).
Proof.
  unfold anonymize_twix_vb. intros H.
  apply bindM_ok in H. destruct H as (raw & sa & _ & H).
  apply bindM_ok in H. destruct H as (hs & sb & _ & H).
  apply bindM_ok in H. destruct H as (header & sc & _ & H).
  apply bindM_ok in H. destruct H as ([anon ms'] & sd & H3 & H).
  apply lift_ok in H3. destruct H3 as (Ha & ->).
  apply bindM_ok in H. destruct H as (u & se & _ & H).
  apply ret_ok in H. destruct H as (-> & _). eauto.
Qed.

Lemma vd_matches meta s ms s' :
  anonymize_twix_vd meta s = (Ok ms, s') ->
  exists h h', anonymize_twix_header h = Ok (h', ms).
Proof.
  unfold anonymize_twix_vd. intros H.
  apply bindM_ok in H. destruct H as (raw & sa & _ & H).
  apply bindM_ok in H. destruct H as ([twix_id n] & sb & _ & H).
  apply bindM_ok in H. destruct H as (u & sc & _ & H).
  apply bindM_ok in H. destruct H as (cur & sd & L & H).
  apply lift_ok in H. destruct H as (C & _).
  destruct cur as [ms'|]; [|discriminate]. inversion C; subst ms'.
  destruct (vd_loop_last _ _ _ _ _ _ L) as (_ & Hnil & Hlast).
  destruct (Z.to_nat n) as [|k].
  - specialize (Hnil eq_refl). discriminate.
  - rewrite seq_S in Hlast. destruct (Hlast _ _ eq_refl) as (m & M & E).
    inversion E; subst. apply measurement_at_spec in M.
    destruct M as (_ & _ & _ & Ha). eauto.
Qed.

Lemma fold_set_present {V} k (l : list (string * V)) : forall d,
  dict_get k d <> None ->
  dict_get k (fold_left (fun d kv => dict_set (fst kv) (snd kv) d) l d)
  <> None.
Proof.
  induction l as [|[k' v'] l IH]; intros d H; simpl; auto.
  apply IH. destruct (String.eqb_spec k k') as [->|N].
  - rewrite dict_get_set_same. discriminate.
  - now rewrite dict_get_set_other.
Qed.

Lemma fold_set_in {V} k v (l : list (string * V)) : forall d,
  In (k, v) l ->
  dict_get k (fold_left (fun d kv => dict_set (fst kv) (snd kv) d) l d)
  <> None.
Proof.
  induction l as [|[k' v'] l IH]; intros d I; simpl; [destruct I|].
  destruct I as [E|I].
  - inversion E; subst. apply fold_set_present.
    rewrite dict_get_set_same. discriminate.
  - now apply IH.
Qed.

Lemma dict_get_in {V} k (v : V) d : dict_get k d = Some v -> In (k, v) d.
Proof.
  induction d as [|[k' v'] d IH]; simpl; [discriminate|].
  destruct (String.eqb_spec k k') as [->|N]; intros H.
  - inversion H; subst. now left.
  - right. auto.
Qed.

Lemma csv_row_exam_date out_path fn h h' ms :
  anonymize_twix_header h = Ok (h', ms) ->
  dict_get "Exam_date" (csv_row out_path fn ms) <> None.
Proof.
  intros H. destruct (anonymize_exam_date _ _ _ H) as (d & fd & _ & _ & E).
  unfold csv_row. eapply fold_set_in. apply dict_get_in. exact E.
Qed.

(** C9, as amended.  When the eight-byte signature cannot be read the run
    fails before any output file exists and the disk is as it was.  When
    it fails later, the output file that was opened stays on disk with the
    bytes written so far, and the record table is as it was.  In
    metadata-only mode a run that succeeds leaves no file at the output
    path and adds to the table one record, which holds the exam date. *)
Theorem output_file_after_run filename out_path meta w data :
  files w filename = Some data ->
  (forall e, unpack_II (firstn 8 data) = Raise e ->
             read_and_anonymize filename out_path meta w = (Raise e, w))
  /\ (forall sig e w',
         unpack_II (firstn 8 data) = Ok sig ->
         read_and_anonymize filename out_path meta w = (Raise e, w') ->
         (exists partial, files w' out_path = Some partial)
         /\ table w' = table w)
  /\ (forall w',
         meta = true ->
         read_and_anonymize filename out_path meta w = (Ok tt, w') ->
         files w' out_path = None
         /\ exists row, table w' = table w ++ [row]
                        /\ dict_get "Exam_date" row <> None).
Proof.
  intros F. unfold read_and_anonymize. rewrite F. split; [|split].
  - intros e U. now rewrite U.
  - intros [a b] e w' U H. rewrite U in H.
    destruct ((if is_vd a b then anonymize_twix_vd meta
               else anonymize_twix_vb meta) (MkIo data 0 [] 0))
      as [[ms|e'] s1]; inversion H; subst. cbn [files table].
    split; auto. exists (fout_data s1). unfold put_file.
    now rewrite String.eqb_refl.
  - intros w' -> H.
    destruct (unpack_II (firstn 8 data)) as [[a b]|]; [|discriminate].
    destruct ((if is_vd a b then anonymize_twix_vd true
               else anonymize_twix_vb true) (MkIo data 0 [] 0))
      as [[ms|e'] s1] eqn:R; inversion H; subst. cbn [files table].
    split.
    + unfold put_file. now rewrite String.eqb_refl.
    + eexists. split; [reflexivity|].
      destruct (is_vd a b).
      * destruct (vd_matches _ _ _ _ R) as (h & h' & A).
        eapply csv_row_exam_date; eauto.
      * destruct (vb_matches _ _ _ _ R) as (h & h' & A).
        eapply csv_row_exam_date; eauto.
Qed.

(** C9 as worded fails: a Variant A input that ends after its head makes
    the reader raise once the head has been written, and the output file
    stays on disk with those eight bytes. *)
Lemma no_file_left_claim_fails : ~ no_file_left_claim.
Proof.
  intros C.
  compute_eq (read_and_anonymize "scan.dat" "out/4711.dat" false
                (disk_with "scan.dat" truncated_vd)) ER.
  match type of ER with
  | _ = (Raise ?e, ?w') =>
      pose proof (C "scan.dat"%string "out/4711.dat"%string false
                    (disk_with "scan.dat" truncated_vd) e w'
                    ltac:(discriminate) eq_refl ER) as D
  end.
  vm_compute in D. discriminate D.
Qed.

(* ================================================================= *)
(** * The theorems at work on the sample files *)


Lemma bytes_outside_text_unchanged_witness :
  (exists ms s' raw txt trailing rest anon,
      anonymize_twix_vb false (MkIo sample_vb 0 [] 0) = (Ok ms, s')
      /\ sample_vb = raw ++ txt ++ trailing ++ rest
      /\ fout_data s' = raw ++ encode anon ++ trailing ++ rest
      /\ length raw = 4 /\ length trailing = 24
      /\ length (encode anon) = length txt
      /\ anonymize_twix_header (decode txt) = Ok (anon, ms))
  /\ (exists ms s',
        unpack_II (firstn 8 sample_vd) = Ok (0%Z, 2%Z)
        /\ anonymize_twix_vd false (MkIo sample_vd 0 [] 0) = (Ok ms, s')
        /\ (forall j, written sample_vd 2 j ->
              exists v, nth_error (fout_data s') j = Some v
                        /\ faithful sample_vd 2 j v)
        /\ (forall i j,
              i < 2 -> name_field i j ->
              (forall i' m', i' < 2 ->
                 measurement_at sample_vd i' = Ok m' ->
                 ~ in_block sample_vd m' j) ->
              nth_error (fout_data s') j = Some x_byte)).
Proof.
  split.
  - compute_eq (anonymize_twix_vb false (MkIo sample_vb 0 [] 0)) E.
    match type of E with
    | _ = (Ok ?ms, ?s') =>
        destruct (proj1 (bytes_outside_text_unchanged sample_vb) ms s' E)
          as (raw & tx & trailing & rest & anon & H);
        exists ms, s', raw, tx, trailing, rest, anon; split; [exact E|exact H]
    end.
  - compute_eq (anonymize_twix_vd false (MkIo sample_vd 0 [] 0)) E.
    assert (U : unpack_II (firstn 8 sample_vd) = Ok (0%Z, 2%Z))
      by (vm_compute; reflexivity).
    match type of E with
    | _ = (Ok ?ms, ?s') =>
        exists ms, s'; split; [exact U|]; split; [exact E|];
        exact (proj2 (bytes_outside_text_unchanged sample_vd) 0%Z 2%Z ms s'
                 U E)
    end.
Defined.

Lemma exam_date_of_frame_of_reference_witness :
  exists h' ms m fq c,
    anonymize_twix_header header_1999 = Ok (h', ms)
    /\ re_search frame_of_reference_re header_1999 = Some m
    /\ group m 2 = Some fq
    /\ nth_error (split dot fq) 10 = Some c
    /\ slice 2 8 c = two 99 ++ two 6 ++ two 15
    /\ dict_get "Exam_date" ms = Some (Some (iso_date 1999 6 15)).
Proof.
  compute_eq (anonymize_twix_header header_1999) EA.
  compute_eq (re_search frame_of_reference_re header_1999) ES.
  match type of ES with
  | _ = Some ?m => compute_eq (group m 2) EG
  end.
  match type of EG with
  | _ = Some ?fq => compute_eq (nth_error (split dot fq) 10) EN
  end.
  match type of EN with
  | _ = Some ?c =>
      assert (EC : slice 2 8 c = two 99 ++ two 6 ++ two 15)
        by (vm_compute; reflexivity)
  end.
  match type of EA with
  | _ = Ok (?h', ?ms) =>
      match type of ES with
      | _ = Some ?m =>
          match type of EG with
          | _ = Some ?fq =>
              match type of EN with
              | _ = Some ?c =>
                  exists h', ms, m, fq, c;
                  repeat (split; [assumption|]);
                  exact (exam_date_of_frame_of_reference header_1999 h' ms m
                           fq c 99%N 6%N 15%N EA ES EG EN EC
                           ltac:(lia) ltac:(lia) ltac:(lia))
              end
          end
      end
  end.
Defined.


Lemma blank_and_mask_keep_value_length_witness :
  (exists st' pre m post,
      search_from (string_field "PatientID") sample_header
      = Some (pre, m, post)
      /\ number_pass (sample_header, [])
           ("Patient_id"%string, string_field "PatientID") = Ok st'
      /\ redacts c0 1 2 3 number_repl "Patient_id" (string_field "PatientID")
           sample_header pre m post st')
  /\ (exists st' pre m post,
        search_from (vis_string_field (str "InstitutionName")) sample_header
        = Some (pre, m, post)
        /\ x_pass (sample_header, [])
             ("InstitutionName"%string,
              vis_string_field (str "InstitutionName")) = Ok st'
        /\ redacts cx 1 3 4 x_repl "InstitutionName"
             (vis_string_field (str "InstitutionName"))
             sample_header pre m post st').
Proof.
  split.
  - compute_eq (search_from (string_field "PatientID") sample_header) ES.
    compute_eq (number_pass (sample_header, [])
                  ("Patient_id"%string, string_field "PatientID")) EP.
    match type of ES with
    | _ = Some (?pre, ?m, ?post) =>
        match type of EP with
        | _ = Ok ?st' =>
            exists st', pre, m, post; split; [exact ES|]; split; [exact EP|];
            exact (proj1 (blank_and_mask_keep_value_length "Patient_id"
                            (string_field "PatientID") sample_header []
                            st' pre m post ES)
                     (or_introl eq_refl) EP)
        end
    end.
  - compute_eq (search_from (vis_string_field (str "InstitutionName"))
                  sample_header) ES.
    compute_eq (x_pass (sample_header, [])
                  ("InstitutionName"%string,
                   vis_string_field (str "InstitutionName"))) EP.
    match type of ES with
    | _ = Some (?pre, ?m, ?post) =>
        match type of EP with
        | _ = Ok ?st' =>
            exists st', pre, m, post; split; [exact ES|]; split; [exact EP|];
            exact (proj2 (blank_and_mask_keep_value_length "InstitutionName"
                            (vis_string_field (str "InstitutionName"))
                            sample_header [] st' pre m post ES)
                     (or_intror (or_intror (or_introl eq_refl))) EP)
        end
    end.
Defined.

Lemma unmatched_fields_witness :
  re_search (vis_string_field (str "InstitutionName"))
    header_without_institution = None
  /\ x_pass (header_without_institution, [])
       ("InstitutionName"%string, vis_string_field (str "InstitutionName"))
     = Raise AttributeError
  /\ number_pass (header_without_institution, [])
       ("InstitutionName"%string, vis_string_field (str "InstitutionName"))
     = Ok (header_without_institution, [])
  /\ anonymize_twix_header header_without_institution = Raise AttributeError.
Proof.
  assert (ES : re_search (vis_string_field (str "InstitutionName"))
                 header_without_institution = None)
    by (vm_compute; reflexivity).
  pose proof (unmatched_fields "InstitutionName"
                (vis_string_field (str "InstitutionName"))
                header_without_institution [] ES) as (X & _ & Nb & _).
  split; [exact ES|]. split; [exact X|]. split; [exact Nb|].
  vm_compute. reflexivity.
Defined.

Lemma vd_returns_last_matches_witness :
  exists ms s' m,
    unpack_II (firstn 8 sample_vd) = Ok (0%Z, 2%Z)
    /\ anonymize_twix_vd false (MkIo sample_vd 0 [] 0) = (Ok ms, s')
    /\ measurement_at sample_vd 1 = Ok m /\ ms = ms_matches m
    /\ dict_get "Exam_date" ms = Some (Some (txt "1999-06-15")).
Proof.
  compute_eq (anonymize_twix_vd false (MkIo sample_vd 0 [] 0)) E.
  assert (U : unpack_II (firstn 8 sample_vd) = Ok (0%Z, 2%Z))
    by (vm_compute; reflexivity).
  match type of E with
  | _ = (Ok ?ms, ?s') =>
      destruct (vd_returns_last_matches false sample_vd [] 0 0%Z 2%Z ms s'
                  U ltac:(lia) E) as (m & M & Em);
      exists ms, s', m; repeat (split; [assumption|]);
      vm_compute; reflexivity
  end.
Defined.

Lemma output_file_after_run_witness :
  files (disk_with "scan.dat" sample_vb) "scan.dat" = Some sample_vb
  /\ (exists e w',
        read_and_anonymize "scan.dat" "out/4711.dat" false
          (disk_with "scan.dat" truncated_vd) = (Raise e, w')
        /\ (exists partial, files w' "out/4711.dat" = Some partial)
        /\ table w' = [])
  /\ (exists w',
        read_and_anonymize "scan.dat" "out/4711.dat" true
          (disk_with "scan.dat" sample_vb) = (Ok tt, w')
        /\ files w' "out/4711.dat" = None
        /\ exists row, table w' = [] ++ [row]
                       /\ dict_get "Exam_date" row <> None).
Proof.
  split; [reflexivity|]. split.
  - compute_eq (read_and_anonymize "scan.dat" "out/4711.dat" false
                  (disk_with "scan.dat" truncated_vd)) E.
    match type of E with
    | _ = (Raise ?e, ?w') =>
        exists e, w'; split; [exact E|];
        exact (proj1 (proj2 (output_file_after_run "scan.dat" "out/4711.dat"
                               false (disk_with "scan.dat" truncated_vd)
                               truncated_vd eq_refl))
                 (0%Z, 1%Z) e w' eq_refl E)
    end.
  - compute_eq (read_and_anonymize "scan.dat" "out/4711.dat" true
                  (disk_with "scan.dat" sample_vb)) E.
    match type of E with
    | _ = (Ok tt, ?w') =>
        exists w'; split; [exact E|];
        exact (proj2 (proj2 (output_file_after_run "scan.dat" "out/4711.dat"
                               true (disk_with "scan.dat" sample_vb)
                               sample_vb eq_refl))
                 w' eq_refl E)
    end.
Defined.

Lemma vd_without_measurements_fails_witness :
  unpack_II (firstn 8 (repeat Byte.x00 8)) = Ok (0%Z, 0%Z)
  /\ fst (anonymize_twix_vd false (MkIo (repeat Byte.x00 8) 0 [] 0))
     = Raise UnboundLocalError
  /\ is_vd 0 0 = true
  /\ fst (read_and_anonymize "scan.dat" "out/4711.dat" false
            (disk_with "scan.dat" (repeat Byte.x00 8)))
     = Raise UnboundLocalError.
Proof.
  assert (U : unpack_II (firstn 8 (repeat Byte.x00 8)) = Ok (0%Z, 0%Z))
    by reflexivity.
  destruct (vd_without_measurements_fails false (repeat Byte.x00 8) [] 0 0%Z U)
    as (V & R).
  destruct (R eq_refl) as (D & F).
  split; [exact U|]. split; [exact V|]. split; [exact D|].
  apply (F "scan.dat"%string "out/4711.dat"%string
           (disk_with "scan.dat" (repeat Byte.x00 8))).
  reflexivity.
Defined.

(** C7 as worded fails: the sample header is redacted once, and the
    second run raises when it looks for the exam date. *)
Lemma rerun_claim_fails : ~ rerun_claim.
Proof.
  intros C.
  compute_eq (anonymize_twix_header sample_header) E.
  match type of E with
  | _ = Ok (?h', ?ms) =>
      destruct (C sample_header h' ms E) as (h2 & ms2 & E2 & _);
      vm_compute in E2
  end.
  discriminate E2.
Qed.

(* ================================================================= *)
(** * Running the redactor on its own output *)

(** ** Every pass changes the text character by character *)

Lemma ev_refl c : ev c c.
Proof. now left. Qed.

Lemma ev_trans a b c : ev a b -> ev b c -> ev a c.
Proof.
  unfold ev. intros [->|(Hb & Na)] [->|(Hc & Nb)]; auto.
Qed.

Lemma Forall2_ev_refl s : Forall2 ev s s.
Proof. induction s; constructor; auto using ev_refl. Qed.

Lemma Forall2_ev_trans s : forall t u,
  Forall2 ev s t -> Forall2 ev t u -> Forall2 ev s u.
Proof.
  induction s as [|a s IH]; intros t u H1 H2; inversion H1; subst;
    inversion H2; subst; constructor; eauto using ev_trans.
Qed.

Lemma match_at_nil r adv m rest :
  match_at r [] adv = Some (m, rest) -> m_text m = [] /\ adv = false.
Proof.
  intros H. apply match_at_sound in H. destruct H as (E & _ & A).
  symmetry in E. apply app_eq_nil in E. destruct E as (E & _).
  split; auto. destruct adv; auto. now destruct (A eq_refl).
Qed.

Definition repl_ev (r : re) (f : rmatch -> res text) : Prop :=
  forall s adv m rest e,
    match_at r s adv = Some (m, rest) -> f m = Ok e ->
    Forall2 ev (m_text m) e.

Lemma sub_step_ev r f s e n :
  repl_ev r f -> sub_step r f s = Ok (e, n) ->
  (n = 0 /\ e = [])
  \/ exists m rest adv,
       match_at r s adv = Some (m, rest) /\ n = length (m_text m)
       /\ 0 < n /\ Forall2 ev (m_text m) e.
Proof.
  unfold sub_step. intros P H.
  destruct (match_at r s false) as [[m rest]|] eqn:E1.
  - apply bind_ok in H. destruct H as (e1 & F1 & H).
    pose proof (P _ _ _ _ _ E1 F1) as P1.
    destruct (length (m_text m)) as [|k] eqn:Ek.
    + apply length_zero_iff_nil in Ek. rewrite Ek in P1.
      inversion P1; subst e1.
      destruct (match_at r s true) as [[m2 rest2]|] eqn:E2.
      * apply bind_ok in H. destruct H as (e2 & F2 & H).
        inversion H; subst. right. exists m2, rest2, true.
        pose proof (match_at_sound _ _ _ _ _ E2) as (_ & _ & Ne).
        repeat split; auto.
        -- destruct (m_text m2); [now destruct (Ne eq_refl)|simpl; lia].
        -- simpl. eapply P; eauto.
      * inversion H; subst. auto.
    + inversion H; subst. right. exists m, rest, false.
      repeat split; auto; lia.
  - inversion H; subst. auto.
Qed.

Lemma sub_walk_ev r f :
  repl_ev r f ->
  forall s k t,
    k <= length s -> sub_walk r f s k = Ok t -> Forall2 ev (skipn k s) t.
Proof.
  intros P. induction s as [|c s IH]; intros k t Hk H.
  - simpl in Hk. assert (k = 0) by lia. subst. simpl in H.
    apply bind_ok in H. destruct H as ([e n] & St & H). inversion H; subst.
    destruct (sub_step_ev _ _ _ _ _ P St)
      as [(-> & ->)|(m & rest & adv & M & -> & Pos & F)].
    + constructor.
    + apply match_at_nil in M. destruct M as (M & _). rewrite M in Pos.
      simpl in Pos. lia.
  - destruct k as [|k']; cbn [sub_walk] in H.
    + apply bind_ok in H. destruct H as ([e n] & St & H).
      destruct (sub_step_ev _ _ _ _ _ P St)
        as [(-> & ->)|(m & rest & adv & M & -> & Pos & F)].
      * apply bind_ok in H. destruct H as (t1 & W & H). inversion H; subst.
        simpl. constructor; [apply ev_refl|]. apply (IH 0); auto. lia.
      * pose proof (match_at_sound _ _ _ _ _ M) as (E & _).
        destruct (length (m_text m)) as [|n'] eqn:En; [lia|].
        apply bind_ok in H. destruct H as (t1 & W & H). inversion H; subst.
        assert (Ln : n' <= length s).
        { apply (f_equal (@length _)) in E. rewrite length_app in E.
          simpl in E. lia. }
        apply IH in W; auto.
        simpl skipn. rewrite E. apply Forall2_app; auto.
        assert (Er : skipn n' s = rest).
        { destruct (m_text m) as [|c' u] eqn:Em; [discriminate|].
          simpl in E, En. inversion E; subst.
          inversion En; subst. rewrite skipn_app, skipn_all, Nat.sub_diag.
          reflexivity. }
        now rewrite <- Er.
    + simpl in Hk. simpl skipn. apply IH; auto. lia.
Qed.

Lemma re_sub_ev r f s t :
  repl_ev r f -> re_sub r f s = Ok t -> Forall2 ev s t.
Proof.
  intros P H. apply (sub_walk_ev r f P s 0 t); auto. lia.
Qed.

Lemma on_line_not_nl c : mem CDot c = true -> c <> nl.
Proof. intros H ->. vm_compute in H. discriminate. Qed.

Lemma fill_ev fill u :
  fill = c0 \/ fill = cx ->
  Forall (fun c => mem CDot c = true) u ->
  Forall2 ev u (repeat fill (length u)).
Proof.
  intros Hf. induction 1 as [|c u Hc Hu IH]; simpl; constructor; auto.
  right. split; auto. now apply on_line_not_nl.
Qed.

Lemma map_ev (p : cset) fill u :
  fill = c0 \/ fill = cx -> subset p CDot = true ->
  Forall2 ev u (map (fun a => if mem p a then fill else a) u).
Proof.
  intros Hf S. induction u as [|c u IH]; simpl; constructor; auto.
  destruct (mem p c) eqn:E; [|apply ev_refl].
  right. split; auto. apply on_line_not_nl. eapply subset_mem; eauto.
Qed.

Lemma tiled_value_on_line a b c r s adv m rest :
  tiled a b c r = true -> value_on_line r = true ->
  match_at r s adv = Some (m, rest) ->
  exists u1 u2 u3,
    m_text m = u1 ++ u2 ++ u3 /\ group m a = Some u1 /\ group m b = Some u2
    /\ group m c = Some u3 /\ Forall (fun x => mem CDot x = true) u2.
Proof.
  intros T V M.
  destruct (tiled_match _ _ _ _ _ _ _ _ T M)
    as (u1 & u2 & u3 & E & G1 & G2 & G3 & _ & (g & g' & L2) & _).
  exists u1, u2, u3. repeat split; auto. eapply mt_chars; eauto.
Qed.

Lemma repl_ev_number r :
  tiled 1 2 3 r = true -> value_on_line r = true -> repl_ev r number_repl.
Proof.
  intros T V s adv m rest e M F.
  destruct (tiled_value_on_line _ _ _ _ _ _ _ _ T V M)
    as (u1 & u2 & u3 & E & G1 & G2 & G3 & L).
  unfold number_repl in F. rewrite G1, G2, G3 in F. simpl in F.
  inversion F; subst. rewrite E.
  repeat apply Forall2_app; auto using Forall2_ev_refl.
  apply fill_ev; auto.
Qed.

Lemma repl_ev_x r :
  tiled 1 3 4 r = true -> value_on_line r = true -> repl_ev r x_repl.
Proof.
  intros T V s adv m rest e M F.
  destruct (tiled_value_on_line _ _ _ _ _ _ _ _ T V M)
    as (u1 & u2 & u3 & E & G1 & G2 & G3 & L).
  unfold x_repl in F. rewrite G1, G2, G3 in F. simpl in F.
  inversion F; subst. rewrite E.
  repeat apply Forall2_app; auto using Forall2_ev_refl.
  apply fill_ev; auto.
Qed.

Lemma repl_ev_zero r : tiled 1 3 4 r = true -> repl_ev r zero_repl.
Proof.
  intros T s adv m rest e M F.
  destruct (tiled_match _ _ _ _ _ _ _ _ T M)
    as (u1 & u2 & u3 & E & G1 & G2 & G3 & _).
  unfold zero_repl in F. rewrite G1, G2, G3 in F. simpl in F.
  rewrite sub_char in F. simpl in F. inversion F; subst. rewrite E.
  repeat apply Forall2_app; auto using Forall2_ev_refl.
  apply (map_ev CDigit c0); auto.
Qed.

Lemma repl_ev_sweep r : repl_ev r sweep_repl.
Proof.
  intros s adv m rest e M F. rewrite sweep_repl_mask in F.
  inversion F; subst. apply (map_ev CWord cx); auto.
Qed.

Lemma number_buffer_on_line :
  Forall (fun kb => value_on_line (snd kb) = true) number_buffer.
Proof. repeat constructor. Qed.

Lemma x_buffer_on_line :
  Forall (fun kb => value_on_line (snd kb) = true) x_buffer.
Proof. repeat constructor. Qed.

Definition evolves (pass : state -> string * re -> res state)
  (kb : string * re) : Prop :=
  forall st st', pass st kb = Ok st' -> Forall2 ev (fst st) (fst st').

Lemma number_pass_ev kb :
  tiled 1 2 3 (snd kb) = true -> value_on_line (snd kb) = true ->
  evolves number_pass kb.
Proof.
  intros T V [h ms] st' H. destruct kb as [key buffer]. simpl in *.
  destruct (re_search buffer h).
  - apply bind_ok in H. destruct H as (h1 & R & H). inversion H; subst.
    simpl. eapply re_sub_ev; eauto. now apply repl_ev_number.
  - inversion H; subst. apply Forall2_ev_refl.
Qed.

Lemma zero_pass_ev kb : tiled 1 3 4 (snd kb) = true -> evolves zero_pass kb.
Proof.
  intros T [h ms] st' H. destruct kb as [key buffer]. simpl in *.
  destruct (re_search buffer h).
  - apply bind_ok in H. destruct H as (h1 & R & H). inversion H; subst.
    simpl. eapply re_sub_ev; eauto. now apply repl_ev_zero.
  - inversion H; subst. apply Forall2_ev_refl.
Qed.

Lemma x_pass_ev kb :
  tiled 1 3 4 (snd kb) = true -> value_on_line (snd kb) = true ->
  evolves x_pass kb.
Proof.
  intros T V [h ms] st' H. destruct kb as [key buffer]. simpl in *.
  apply bind_ok in H. destruct H as (m & _ & H).
  apply bind_ok in H. destruct H as (h1 & R & H). inversion H; subst.
  simpl. eapply re_sub_ev; eauto. now apply repl_ev_x.
Qed.

Lemma for_each_ev pass buf :
  Forall (evolves pass) buf ->
  forall st st', for_each pass buf st = Ok st' ->
                 Forall2 ev (fst st) (fst st').
Proof.
  induction 1 as [|kb buf Hk Hb IH]; simpl; intros st st' H.
  - inversion H; subst. apply Forall2_ev_refl.
  - apply bind_ok in H. destruct H as (st1 & E & H).
    eapply Forall2_ev_trans; eauto.
Qed.

Lemma Forall_and {A} (P Q : A -> Prop) l :
  Forall P l -> Forall Q l -> Forall (fun a => P a /\ Q a) l.
Proof. induction 1; intros HQ; inversion HQ; subst; constructor; auto. Qed.

Lemma number_loop_ev buf :
  Forall (fun kb => tiled 1 2 3 (snd kb) = true) buf ->
  Forall (fun kb => value_on_line (snd kb) = true) buf ->
  forall st st', for_each number_pass buf st = Ok st' ->
                 Forall2 ev (fst st) (fst st').
Proof.
  intros T V. apply for_each_ev.
  eapply Forall_impl; [|apply (Forall_and _ _ _ T V)].
  intros kb (A & B). now apply number_pass_ev.
Qed.

(** ** A field of the output was a field of the input *)

Lemma stable_set_ok p c c' :
  stable_set p = true -> ev c c' -> mem p c' = true -> mem p c = true.
Proof.
  unfold stable_set. intros S [->|(Hc & Nc)] M; auto.
  assert (B : mem p c0 || mem p cx = true).
  { destruct Hc as [->| ->]; rewrite M; auto using orb_true_r. }
  rewrite B in S. cbn [implb] in S. rewrite forallb_forall in S.
  specialize (S c (in_all_chars c)). apply orb_prop in S.
  destruct S as [S|S]; auto. apply Ascii.eqb_eq in S. contradiction.
Qed.

Lemma mt_transfer r u' g g' :
  mt r u' g g' -> stable r = true ->
  forall u h, Forall2 ev u u' -> exists h', mt r u h h'.
Proof.
  induction 1; simpl; intros S u0 h F.
  - inversion F; subst. eexists. constructor.
  - inversion F as [|a b l l' E F']; subst. inversion F'; subst.
    eexists. constructor. eapply stable_set_ok; eauto.
  - eexists. constructor.
    revert H. induction F as [|a b l l' E F' IH]; intros H; constructor;
      inversion H; subst; auto. eapply stable_set_ok; eauto.
  - apply andb_prop in S. destruct S as (S1 & S2).
    apply Forall2_app_inv_r in F. destruct F as (a & b & Fa & Fb & ->).
    destruct (IHmt1 S1 a h Fa) as (h1 & M1).
    destruct (IHmt2 S2 b h1 Fb) as (h2 & M2).
    eexists. econstructor; eauto.
  - apply andb_prop in S. destruct S as (S1 & S2).
    destruct (IHmt S1 u0 h F) as (h1 & M1). eexists. apply mt_alt_l; eauto.
  - apply andb_prop in S. destruct S as (S1 & S2).
    destruct (IHmt S2 u0 h F) as (h1 & M1). eexists. apply mt_alt_r; eauto.
  - destruct (IHmt S u0 h F) as (h1 & M1). eexists. constructor; eauto.
Qed.

Lemma lang_transfer r u u' :
  stable r = true -> lang r u' -> Forall2 ev u u' -> lang r u.
Proof.
  intros S (g & g' & M) F.
  destruct (mt_transfer _ _ _ _ M S u [] F) as (h' & M'). exists [], h'. auto.
Qed.

Lemma Forall2_in_r {A B} (R : A -> B -> Prop) l l' b :
  Forall2 R l l' -> In b l' -> exists a, In a l /\ R a b.
Proof.
  induction 1 as [|x y l l' Rxy F IH]; intros I; [destruct I|].
  destruct I as [->|I].
  - exists x. split; auto. now left.
  - destruct (IH I) as (a & Ia & Ra). exists a. split; auto. now right.
Qed.

Lemma Forall2_ev_length s t : Forall2 ev s t -> length s = length t.
Proof. induction 1; simpl; auto. Qed.

Lemma is_field_transfer h1 v h3 h1' v' h3' :
  is_field h1' v' h3' ->
  Forall2 ev h1 h1' -> Forall2 ev v v' -> Forall2 ev h3 h3' ->
  is_field h1 v h3.
Proof.
  intros (L1 & Lv & Nv & L3) F1 Fv F3.
  split; [|split; [|split]].
  - apply (lang_transfer _ _ h1'); [reflexivity|assumption|assumption].
  - clear Nv. induction Fv as [|a b l l' E F' IH]; constructor;
      inversion Lv; subst; auto.
    apply (stable_set_ok CDot a b); [reflexivity|assumption|assumption].
  - intros ->. inversion Fv; subst. now apply Nv.
  - apply (lang_transfer _ _ h3'); [reflexivity|assumption|assumption].
Qed.

Lemma ev_dot c : ev c dot -> c = dot.
Proof.
  intros [E|([E|E] & _)]; auto; vm_compute in E; discriminate.
Qed.

(** A dotted field of the later text sits at the same place in the
    earlier text. *)
Lemma dotted_field_transfer t t' :
  Forall2 ev t t' -> dotted_field t' -> dotted_field t.
Proof.
  intros F (a' & h1' & v' & h3' & b' & -> & Fd & D).
  apply Forall2_app_inv_r in F. destruct F as (a & r1 & Fa & F & ->).
  apply Forall2_app_inv_r in F. destruct F as (u & b & Fu & Fb & ->).
  apply Forall2_app_inv_r in Fu. destruct Fu as (h1 & r2 & F1 & Fu & ->).
  apply Forall2_app_inv_r in Fu. destruct Fu as (v & h3 & Fv & F3 & ->).
  exists a, h1, v, h3, b. split; [reflexivity|]. split.
  - eapply is_field_transfer; eauto.
  - destruct (Forall2_in_r _ _ _ _ Fv D) as (c & Ic & Ec).
    apply ev_dot in Ec. now subst.
Qed.

(** ** A header with an exam date holds a dotted field *)

Lemma split_on_no_sep sep : forall s cur,
  ~ In sep s -> split_on sep cur s = [rev cur ++ s].
Proof.
  induction s as [|c s IH]; intros cur N; simpl.
  - now rewrite app_nil_r.
  - destruct (Ascii.eqb_spec c sep) as [->|Ne].
    + exfalso. apply N. now left.
    + rewrite IH by (intros I; apply N; now right).
      simpl. now rewrite <- app_assoc.
Qed.

Lemma split_component sep s k c :
  nth_error (split sep s) (S k) = Some c -> In sep s.
Proof.
  intros H. destruct (in_dec ascii_dec sep s) as [I|N]; auto.
  unfold split in H. rewrite split_on_no_sep in H by assumption.
  simpl in H. destruct k; discriminate.
Qed.

Lemma mt_str w u g g' : mt (str w) u g g' -> u = txt w.
Proof. unfold str. intros H. now apply mt_lit in H. Qed.

Lemma str_mt w g : mt (str w) (txt w) g g.
Proof. unfold str. apply lit_mt. Qed.

Lemma mt_chr c u g g' : mt (chr c) u g g' -> u = [c].
Proof.
  unfold chr. intros H. inversion H; subst. simpl in *.
  match goal with H : Ascii.eqb _ _ = true |- _ =>
    apply Ascii.eqb_eq in H; now subst end.
Qed.

Lemma chr_mt c g : mt (chr c) [c] g g.
Proof. constructor. simpl. apply Ascii.eqb_refl. Qed.

Lemma quoted_value fq :
  lang (seqs [chr dq; plus CDot; chr dq]) fq ->
  exists v, fq = dq :: v ++ [dq]
            /\ Forall (fun c => mem CDot c = true) v /\ v <> [].
Proof.
  intros (g & g' & H). cbn [seqs] in H. unfold plus in H.
  inversion H; subst; clear H.
  match goal with H : mt (chr _) _ _ _ |- _ => apply mt_chr in H; subst end.
  match goal with H : mt (Seq _ (chr _)) _ _ _ |- _ =>
    inversion H; subst; clear H end.
  match goal with H : mt (chr _) _ _ _ |- _ => apply mt_chr in H; subst end.
  match goal with H : mt (Seq _ _) _ _ _ |- _ =>
    inversion H; subst; clear H end.
  match goal with H : mt (Set_ _) _ _ _ |- _ => inversion H; subst; clear H end.
  match goal with H : mt (Star _) _ _ _ |- _ => inversion H; subst; clear H end.
  eexists. split; [reflexivity|]. split.
  - constructor; assumption.
  - discriminate.
Qed.

Lemma strict_head u1 :
  lang (seqs [tag "ParamString" "FrameOfReference"; str "  { "]) u1 ->
  lang field_head (u1 ++ [dq]).
Proof.
  intros (g & g' & H). cbn [seqs] in H.
  inversion H; subst; clear H.
  match goal with H : mt (str _) _ _ _ |- _ => apply mt_str in H; subst end.
  match goal with H : mt (tag _ _) ?X ?a ?b |- _ =>
    exists a; eexists; unfold field_head; cbn [seqs];
    rewrite <- app_assoc; eapply mt_seq; [exact H|]
  end.
  change (txt "  { " ++ [dq])
    with (txt "  " ++ (txt "{" ++ (txt " " ++ [dq]))).
  eapply mt_seq; [apply mt_star; repeat constructor|].
  eapply mt_seq; [apply str_mt|].
  eapply mt_seq; [apply mt_star; repeat constructor|].
  apply chr_mt.
Qed.

Lemma strict_tail u3 :
  lang (seqs [str "  }"; chr nl]) u3 -> lang field_tail (dq :: u3).
Proof.
  intros (g & g' & H). cbn [seqs] in H.
  inversion H; subst; clear H.
  match goal with H : mt (str _) _ _ _ |- _ => apply mt_str in H; subst end.
  match goal with H : mt (chr _) _ _ _ |- _ => apply mt_chr in H; subst end.
  exists [], []. unfold field_tail. cbn [seqs].
  change (dq :: txt "  }" ++ [nl])
    with ([dq] ++ (txt "  " ++ (txt "}" ++ [nl]))).
  eapply mt_seq; [apply chr_mt|].
  eapply mt_seq; [apply mt_star; repeat constructor|].
  eapply mt_seq; [apply str_mt|].
  apply chr_mt.
Qed.

Lemma exam_date_dotted_field h d :
  exam_date_of h = Ok d -> dotted_field h.
Proof.
  unfold exam_date_of. intros H.
  bind_inv H m E1. bind_inv H fq E2. bind_inv H c E3.
  destruct (re_search frame_of_reference_re h) as [m'|] eqn:S;
    [|discriminate]. inversion E1; subst m'. clear E1.
  destruct (group m 2) as [fq'|] eqn:G; [|discriminate].
  inversion E2; subst fq'. clear E2.
  destruct (nth_error (split dot fq) 10) as [c'|] eqn:Nth; [|discriminate].
  rewrite re_search_from in S.
  destruct (search_from frame_of_reference_re h) as [[[pre m'] post]|] eqn:SF;
    [|discriminate]. inversion S; subst m'. clear S.
  destruct (search_from_sound _ _ _ _ _ SF) as (Eh & M).
  assert (T : tiled 1 2 3 frame_of_reference_re = true) by reflexivity.
  destruct (tiled_match 1 2 3 _ _ _ _ _ T M)
    as (u1 & u2 & u3 & Et & G1 & G2 & G3 & L1 & L2 & L3).
  rewrite G in G2. inversion G2; subst u2. clear G2.
  cbn [parts frame_of_reference_re seqs fst snd] in L1, L2, L3.
  destruct (quoted_value fq L2) as (v & -> & Fv & Nv).
  apply strict_head in L1. apply strict_tail in L3.
  exists pre, (u1 ++ [dq]), v, (dq :: u3), post. split; [|split].
  - rewrite Eh, Et. rewrite <- !app_assoc. simpl.
    rewrite <- !app_assoc. reflexivity.
  - repeat split; auto.
  - apply split_component in Nth. destruct Nth as [E|I].
    + vm_compute in E. discriminate.
    + apply in_app_or in I. destruct I as [I|[E|[]]]; auto.
      vm_compute in E. discriminate.
Qed.

(** ** Fields and the matcher *)

Lemma mt_regroup r u g g' :
  mt r u g g' -> forall h, exists h', mt r u h h'.
Proof.
  induction 1; intros h.
  - eexists. constructor.
  - eexists. now constructor.
  - eexists. now constructor.
  - destruct (IHmt1 h) as (h1 & M1). destruct (IHmt2 h1) as (h2 & M2).
    eexists. econstructor; eauto.
  - destruct (IHmt h) as (h1 & M1). eexists. apply mt_alt_l; eauto.
  - destruct (IHmt h) as (h1 & M1). eexists. apply mt_alt_r; eauto.
  - destruct (IHmt h) as (h1 & M1). eexists. constructor; eauto.
Qed.

Lemma field_mt h1 v h3 :
  is_field h1 v h3 -> exists g', mt field_re (h1 ++ v ++ h3) [] g'.
Proof.
  intros ((g1 & g1' & M1) & Fv & Nv & (g3 & g3' & M3)).
  destruct (mt_regroup _ _ _ _ M1 []) as (k1 & K1).
  destruct v as [|c v]; [congruence|]. inversion Fv; subst.
  destruct (mt_regroup _ _ _ _ M3 ((2, c :: v) :: (1, h1) :: k1))
    as (k3 & K3).
  eexists. unfold field_re.
  eapply mt_seq; [apply mt_grp; exact K1|].
  eapply mt_seq; [|apply mt_grp; exact K3].
  apply mt_grp. unfold plus. change (c :: v) with ([c] ++ v).
  eapply mt_seq; [now apply mt_set|now apply mt_star].
Qed.

Lemma match_at_complete r u g' rest :
  mt r u [] g' -> exists x, match_at r (u ++ rest) false = Some x.
Proof.
  intros M. unfold match_at.
  eapply run_complete; [exact M|]. simpl. reflexivity.
Qed.

Lemma field_matches h1 v h3 b :
  is_field h1 v h3 ->
  exists x, match_at field_re ((h1 ++ v ++ h3) ++ b) false = Some x.
Proof.
  intros F. destruct (field_mt _ _ _ F) as (g' & M).
  eapply match_at_complete; eauto.
Qed.

Lemma search_from_none r : forall s,
  search_from r s = None ->
  forall a b, s = a ++ b -> match_at r b false = None.
Proof.
  induction s as [|c s IH]; intros H a b E.
  - symmetry in E. apply app_eq_nil in E. destruct E as (-> & ->).
    simpl in H. destruct (match_at r [] false) as [[m rest]|]; auto.
    discriminate.
  - simpl in H.
    destruct (match_at r (c :: s) false) as [[m rest]|] eqn:M;
      [discriminate|].
    destruct (search_from r s) as [[[p m] q]|] eqn:S; [discriminate|].
    destruct a as [|c' a]; simpl in E.
    + now subst.
    + inversion E; subst. eapply IH; eauto.
Qed.

Lemma search_from_first r : forall s pre m post,
  search_from r s = Some (pre, m, post) ->
  forall a b, s = a ++ b -> length a < length pre ->
              match_at r b false = None.
Proof.
  induction s as [|c s IH]; intros pre m post H a b E L.
  - simpl in H. destruct (match_at r [] false) as [[m' rest]|];
      inversion H; subst. simpl in L. lia.
  - simpl in H.
    destruct (match_at r (c :: s) false) as [[m' rest]|] eqn:M.
    + inversion H; subst. simpl in L. lia.
    + destruct (search_from r s) as [[[p m'] q]|] eqn:S; [|discriminate].
      inversion H; subst. destruct a as [|c' a]; simpl in E.
      * now subst.
      * inversion E; subst. simpl in L. eapply IH; eauto. lia.
Qed.

(** Two runs of [P] characters, each stopped by a character outside [P]. *)
Lemma cut_at_stop (P : ascii -> bool) (x : text) : forall x' c c' y y',
  Forall (fun a => P a = true) x -> Forall (fun a => P a = true) x' ->
  P c = false -> P c' = false ->
  x ++ c :: y = x' ++ c' :: y' -> x = x' /\ c = c' /\ y = y'.
Proof.
  induction x as [|a x IH]; intros x' c c' y y' F F' N N' E.
  - destruct x' as [|a' x']; simpl in E; inversion E; subst; auto.
    inversion F'; subst. congruence.
  - destruct x' as [|a' x']; simpl in E; inversion E; subst.
    + inversion F; subst. congruence.
    + inversion F; inversion F'; subst.
      destruct (IH x' c c' y y') as (-> & -> & ->); auto.
Qed.

(** The text of a field head: the tag, blanks, a brace, blanks, a quote. *)
Definition head_tag (c : ascii) : text :=
  txt "<" ++ txt "ParamString" ++ [c] ++ [dq] ++ txt "FrameOfReference"
  ++ [dq] ++ txt ">".

Lemma field_head_shape h :
  lang field_head h ->
  exists c w1 w2,
    h = head_tag c ++ w1 ++ txt "{" ++ w2 ++ [dq]
    /\ Forall (fun a => is_space a = true) w1
    /\ Forall (fun a => is_space a = true) w2.
Proof.
  intros (g & g' & H). unfold field_head, tag, tag_re in H.
  cbn [seqs] in H. unfold ws, any1 in H.
  repeat match goal with
         | H : mt (Seq _ _) _ _ _ |- _ => inversion H; subst; clear H
         end.
  repeat match goal with
         | H : mt (str _) _ _ _ |- _ => apply mt_str in H; subst
         | H : mt (chr _) _ _ _ |- _ => apply mt_chr in H; subst
         | H : mt (Set_ _) _ _ _ |- _ => inversion H; subst; clear H
         | H : mt (Star _) _ _ _ |- _ => inversion H; subst; clear H
         end.
  match goal with
  | A : Forall _ ?w1, B : Forall _ ?w2, C : mem CDot ?c = true
    |- context [?w1 ++ txt "{" ++ ?w2 ++ _] => exists c, w1, w2
  end.
  split; [|split; assumption]. unfold head_tag.
  now rewrite <- !app_assoc.
Qed.

Lemma field_head_prefix h1 g1 x y :
  lang field_head h1 -> lang field_head g1 -> h1 ++ x = g1 ++ y -> h1 = g1.
Proof.
  intros H G E.
  destruct (field_head_shape _ H) as (c & w1 & w2 & -> & F1 & F2).
  destruct (field_head_shape _ G) as (c' & v1 & v2 & -> & G1 & G2).
  assert (Ec : c = c').
  { apply (f_equal (fun l => nth_error l 12)) in E.
    unfold head_tag in E. simpl in E. now inversion E. }
  subst c'. rewrite <- !app_assoc in E. apply app_inv_head in E.
  simpl in E.
  destruct (cut_at_stop is_space w1 v1 "{"%char "{"%char _ _
              F1 G1 eq_refl eq_refl E) as (-> & _ & E2).
  rewrite <- ?app_assoc in E2. simpl in E2.
  destruct (cut_at_stop is_space w2 v2 dq dq _ _
              F2 G2 eq_refl eq_refl E2) as (-> & _ & _).
  reflexivity.
Qed.

(** ** The greedy value *)

Lemma star_none {R} p u s' g (k : cont R) :
  star p (u ++ s') g k = None ->
  Forall (fun c => mem p c = true) u -> k s' g = None.
Proof.
  intros H F. destruct (k s' g) as [y|] eqn:E; auto.
  destruct (star_complete R p u s' g k y F E) as (x & Hx). congruence.
Qed.

(** A greedy star stops at the longest run after which the rest of the
    pattern still matches. *)
Lemma star_greedy {R} p : forall s g (k : cont R) x,
  star p s g k = Some x ->
  exists u s',
    s = u ++ s' /\ Forall (fun c => mem p c = true) u /\ k s' g = Some x
    /\ forall u2 s2,
         s = u2 ++ s2 -> Forall (fun c => mem p c = true) u2 ->
         length u < length u2 -> k s2 g = None.
Proof.
  induction s as [|c s IH]; intros g k x H; simpl in H.
  - exists [], []. repeat split; auto. intros u2 s2 E _ L.
    symmetry in E. apply app_eq_nil in E. destruct E as (-> & _).
    simpl in L. lia.
  - destruct (mem p c) eqn:Mc.
    + destruct (star p s g k) as [y|] eqn:St.
      * inversion H; subst y.
        destruct (IH _ _ _ St) as (u & s' & -> & Fu & Hk & Max).
        exists (c :: u), s'. repeat split; auto.
        intros u2 s2 E F2 L. destruct u2 as [|c2 u2]; [simpl in L; lia|].
        simpl in E. inversion E; subst. inversion F2; subst.
        eapply Max; eauto. simpl in L. lia.
      * exists [], (c :: s). repeat split; auto.
        intros u2 s2 E F2 L. destruct u2 as [|c2 u2]; [simpl in L; lia|].
        simpl in E. inversion E; subst. inversion F2; subst.
        eapply star_none; eauto.
    + exists [], (c :: s). repeat split; auto.
      intros u2 s2 E F2 L. destruct u2 as [|c2 u2]; [simpl in L; lia|].
      simpl in E. inversion E; subst. inversion F2; subst. congruence.
Qed.

Lemma run_seq {R} r1 r2 s g (k : cont R) :
  run r1 s g (fun s1 g1 => run r2 s1 g1 k) = run (Seq r1 r2) s g k.
Proof. reflexivity. Qed.

Lemma run_grp {R} n r s g (k : cont R) :
  run (Grp n r) s g k
  = run r s g (fun s1 g1 => k s1 ((n, firstn (length s - length s1) s) :: g1)).
Proof. reflexivity. Qed.

Lemma field_tail_fresh : fresh 2 field_tail = true /\ fresh 1 field_tail = true.
Proof. split; reflexivity. Qed.

(** The match the engine finds for the frame-of-reference pattern takes
    the longest value after which the tail of the field matches. *)
Lemma greedy_value s m rest :
  match_at field_re s false = Some (m, rest) ->
  exists g1 vv g3,
    s = (g1 ++ vv ++ g3) ++ rest
    /\ m_text m = g1 ++ vv ++ g3
    /\ group m 1 = Some g1 /\ group m 2 = Some vv /\ group m 3 = Some g3
    /\ lang field_head g1 /\ lang field_tail g3
    /\ forall v0 h3 b,
         s = g1 ++ v0 ++ h3 ++ b ->
         Forall (fun c => mem CDot c = true) v0 -> lang field_tail h3 ->
         length v0 <= length vv.
Proof.
  unfold match_at, field_re, plus. intros H.
  rewrite <- run_seq in H. rewrite run_grp in H.
  apply run_sound in H. destruct H as (u1 & s1 & gg & -> & M1 & H).
  rewrite firstn_consumed in H.
  rewrite <- run_seq in H. rewrite run_grp in H. rewrite <- run_seq in H.
  cbn [run] in H. destruct s1 as [|c s1']; [discriminate|].
  destruct (mem CDot c) eqn:Mc; [|discriminate].
  apply star_greedy in H. destruct H as (u & s2 & -> & Fu & H & Max).
  change (c :: u ++ s2) with ((c :: u) ++ s2) in H.
  rewrite firstn_consumed in H.
  apply run_sound in H. destruct H as (u3 & s3 & g3' & -> & M3 & H).
  rewrite firstn_consumed in H. cbn [andb] in H.
  inversion H; subst m rest. clear H.
  assert (Es : u1 ++ (c :: u) ++ u3 ++ s3 = (u1 ++ (c :: u) ++ u3) ++ s3)
    by now rewrite <- !app_assoc.
  exists u1, (c :: u), u3. cbn [m_text m_groups group].
  change (u1 ++ c :: u ++ u3 ++ s3) with (u1 ++ (c :: u) ++ u3 ++ s3).
  rewrite Es, firstn_consumed.
  pose proof (fresh_frame 2 _ _ _ _ (proj1 field_tail_fresh) M3) as F2.
  pose proof (fresh_frame 1 _ _ _ _ (proj2 field_tail_fresh) M3) as F1.
  simpl in F1, F2.
  split; [reflexivity|]. split; [reflexivity|].
  split; [simpl; exact F1|]. split; [simpl; exact F2|].
  split; [reflexivity|].
  split; [exists [], gg; exact M1|].
  split; [eexists; eexists; exact M3|].
  intros v0 h3 b E F0 (k3 & k3' & L3).
  rewrite <- Es in E. apply app_inv_head in E.
  destruct (Nat.le_gt_cases (length v0) (length (c :: u))) as [|Gt]; auto.
  exfalso. destruct v0 as [|c' v0']; [simpl in Gt; lia|].
  simpl in E. inversion E as [[Ec E']]. subst c'. inversion F0; subst.
  assert (Lt : length u < length v0') by (simpl in Gt; lia).
  specialize (Max v0' (h3 ++ b) E' ltac:(assumption) Lt).
  match type of Max with
  | run field_tail _ ?G ?K = None =>
      destruct (mt_regroup _ _ _ _ L3 G) as (k & Lk);
      destruct (run_complete _ _ _ _ _ Lk b K _ eq_refl) as (x & Hx)
  end.
  congruence.
Qed.

(** ** No field head strictly inside a blanked field *)

Lemma app_same_length {A} : forall (a b x y : list A),
  a ++ x = b ++ y -> length a = length b -> a = b /\ x = y.
Proof.
  induction a as [|c a IH]; intros [|d b] x y E L; simpl in *;
    try discriminate; auto.
  inversion E; subst. destruct (IH b x y) as (-> & ->); auto.
Qed.

Lemma prefix_clear {A} (c : A) (l : list A) : forall a X R,
  Forall (fun x => x <> c) l -> l ++ X = a ++ c :: R ->
  exists a', a = l ++ a' /\ X = a' ++ c :: R.
Proof.
  induction l as [|x l IH]; intros a X R F E.
  - exists a. auto.
  - inversion F as [|? ? Nx Fl]; subst.
    destruct a as [|y a]; simpl in E; inversion E; subst.
    + congruence.
    + destruct (IH _ _ _ Fl ltac:(eassumption)) as (a' & -> & ->).
      exists a'. auto.
Qed.

Lemma prefix_of_repeat {A} (x : A) : forall v n y z,
  repeat x n ++ y = v ++ z -> length v <= n -> Forall (eq x) v.
Proof.
  induction v as [|c v IH]; intros n y z E L; constructor;
    (destruct n; simpl in L; [lia|]); simpl in E; inversion E; subst; auto.
  eapply IH; eauto. lia.
Qed.

Lemma clear_of (c : ascii) (l : text) :
  forallb (fun a => negb (Ascii.eqb a c)) l = true ->
  Forall (fun a => a <> c) l.
Proof.
  intros H. apply Forall_forall. intros a I ->.
  rewrite forallb_forall in H. specialize (H _ I).
  now rewrite Ascii.eqb_refl in H.
Qed.

Lemma spaces_clear w :
  Forall (fun a => is_space a = true) w ->
  Forall (fun a => a <> "<"%char) w.
Proof.
  intros F. eapply Forall_impl; [|exact F].
  intros a Ha ->. vm_compute in Ha. discriminate.
Qed.

Lemma field_tail_clear g3 :
  lang field_tail g3 -> Forall (fun a => a <> "<"%char) g3.
Proof.
  intros (g & g' & M).
  assert (A : all_sets (CUnion CSpace (CUnion (CChar dq) (CChar "}")))
                field_tail = true) by (vm_compute; reflexivity).
  pose proof (mt_chars _ _ _ _ _ M A) as F.
  eapply Forall_impl; [|exact F].
  intros a Ha ->. vm_compute in Ha. discriminate.
Qed.

(** A blanked field: the opening of the tag, one free character, the
    quote, and no further opening angle bracket. *)
Lemma blanked_field_shape g1 k g3 :
  lang field_head g1 -> lang field_tail g3 ->
  exists c tl,
    g1 ++ repeat c0 k ++ g3
    = "<"%char :: txt "ParamString" ++ c :: dq :: tl
    /\ Forall (fun a => a <> "<"%char) tl.
Proof.
  intros H1 H3.
  destruct (field_head_shape _ H1) as (c & w1 & w2 & -> & F1 & F2).
  exists c, (txt "FrameOfReference" ++ [dq] ++ txt ">" ++ w1 ++ txt "{"
             ++ w2 ++ [dq] ++ repeat c0 k ++ g3).
  split.
  - unfold head_tag. rewrite <- !app_assoc. reflexivity.
  - apply Forall_app; split; [apply clear_of; reflexivity|].
    apply Forall_app; split; [apply clear_of; reflexivity|].
    apply Forall_app; split; [apply clear_of; reflexivity|].
    apply Forall_app; split; [now apply spaces_clear|].
    apply Forall_app; split; [apply clear_of; reflexivity|].
    apply Forall_app; split; [now apply spaces_clear|].
    apply Forall_app; split; [apply clear_of; reflexivity|].
    apply Forall_app; split; [|now apply field_tail_clear].
    apply Forall_forall. intros a I. apply repeat_spec in I. subst a.
    intros E. vm_compute in E. discriminate.
Qed.

Lemma no_head_inside c tl l l2 y r :
  Forall (fun a => a <> "<"%char) tl ->
  l <> [] ->
  "<"%char :: txt "ParamString" ++ c :: dq :: tl = l ++ "<"%char :: l2 ->
  l2 ++ y = "P"%char :: r -> False.
Proof.
  intros F N E P.
  destruct l as [|x l']; [congruence|].
  injection E as _ E.
  assert (Fp : Forall (fun a => a <> "<"%char) (txt "ParamString"))
    by (apply clear_of; reflexivity).
  destruct (prefix_clear _ _ _ _ _ Fp E) as (a' & _ & E2).
  destruct a' as [|x1 a5]; simpl in E2.
  - injection E2 as _ E2. subst l2. simpl in P. injection P as P _.
    vm_compute in P. discriminate.
  - injection E2 as _ E2. destruct a5 as [|x2 a6]; simpl in E2.
    + injection E2 as E2 _. vm_compute in E2. discriminate.
    + injection E2 as _ E2. subst tl. apply Forall_app in F.
      destruct F as (_ & F). inversion F; subst. congruence.
Qed.

Lemma field_starts h1 x :
  lang field_head h1 -> exists r, h1 ++ x = "<"%char :: "P"%char :: r.
Proof.
  intros H. destruct (field_head_shape _ H) as (c & w1 & w2 & -> & _).
  unfold head_tag. simpl. eexists. reflexivity.
Qed.

(** ** The blanked text holds no dotted field *)

Lemma field_back s a' h1' v' h3' b' :
  Forall2 ev s (a' ++ (h1' ++ v' ++ h3') ++ b') -> is_field h1' v' h3' ->
  exists a h1 v h3 b,
    s = a ++ (h1 ++ v ++ h3) ++ b /\ is_field h1 v h3
    /\ length a = length a' /\ length v = length v'.
Proof.
  intros F Fd.
  apply Forall2_app_inv_r in F. destruct F as (a & r1 & Fa & F & ->).
  apply Forall2_app_inv_r in F. destruct F as (u & b & Fu & Fb & ->).
  apply Forall2_app_inv_r in Fu. destruct Fu as (h1 & r2 & F1 & Fu & ->).
  apply Forall2_app_inv_r in Fu. destruct Fu as (v & h3 & Fv & F3 & ->).
  exists a, h1, v, h3, b. split; [reflexivity|]. split.
  - eapply is_field_transfer; eauto.
  - split; eapply Forall2_ev_length; eauto.
Qed.

Lemma field_found s a h1 v h3 b :
  s = a ++ (h1 ++ v ++ h3) ++ b -> is_field h1 v h3 ->
  search_from field_re s <> None.
Proof.
  intros -> F N. destruct (field_matches _ _ _ b F) as (x & Hx).
  rewrite (search_from_none _ _ N a _ eq_refl) in Hx. discriminate.
Qed.

Lemma field_re_tiled :
  tiled 1 2 3 field_re = true /\ value_on_line field_re = true
  /\ nonempty_re field_re = true.
Proof. repeat split. Qed.

(** After the numeric-blank substitution for the frame of reference, no
    field of that name has a value with a full stop. *)
Lemma blanked_no_dotted_field : forall n s t,
  length s = n -> re_sub field_re number_repl s = Ok t -> ~ dotted_field t.
Proof.
  induction n as [n IH] using lt_wf_ind. intros s t Ln H D.
  assert (Ev : Forall2 ev s t).
  { eapply re_sub_ev; eauto.
    apply repl_ev_number; apply field_re_tiled. }
  destruct D as (a' & h1' & v' & h3' & b' & Et & Fd & Dot). subst t.
  destruct (search_from field_re s) as [[[pre m] post]|] eqn:S.
  2: { destruct (field_back _ _ _ _ _ _ Ev Fd)
         as (a & h1 & v & h3 & b & Es & Fs & _).
       exact (field_found _ _ _ _ _ _ Es Fs S). }
  rewrite (sub_first _ _ (proj2 (proj2 field_re_tiled)) _ _ _ _ S) in H.
  bind_inv H e Fe. bind_inv H post' Hp. injection H as Et.
  destruct (search_from_sound _ _ _ _ _ S) as (Es & Ms).
  destruct (greedy_value _ _ _ Ms)
    as (g1 & vv & g3 & Eg & Em & G1 & G2 & G3 & Lg1 & Lg3 & Max).
  unfold number_repl in Fe. rewrite G1, G2, G3 in Fe. simpl in Fe.
  inversion Fe; subst e. clear Fe.
  assert (Np : length post < n).
  { subst n. rewrite Es, Em. rewrite !length_app.
    destruct Lg1 as (k & k' & Mk).
    assert (N1 : g1 <> []) by (eapply nonempty_mt; eauto).
    destruct g1; [congruence|]. simpl. lia. }
  assert (After : forall a2, post' = a2 ++ (h1' ++ v' ++ h3') ++ b' -> False).
  { intros a2 E. apply (IH _ Np post post' eq_refl Hp).
    exists a2, h1', v', h3', b'. auto. }
  assert (Here : a' = pre ->
                 (h1' ++ v' ++ h3') ++ b'
                 = (g1 ++ repeat c0 (length vv) ++ g3) ++ post' -> False).
  { intros -> E.
    destruct (field_back _ _ _ _ _ _ Ev Fd)
      as (a & h1 & v & h3 & b & Es' & Fs & La & Lv).
    rewrite Es in Es'.
    destruct (app_same_length _ _ _ _ Es' (eq_sym La)) as (_ & E2).
    rewrite <- !app_assoc in E2. rewrite <- !app_assoc in Eg.
    assert (E3 : h1 ++ v ++ h3 ++ b = g1 ++ vv ++ g3 ++ post)
      by (rewrite <- E2; exact Eg).
    assert (Eh : h1 = g1)
      by (eapply field_head_prefix; [apply Fs|exact Lg1|exact E3]).
    subst h1.
    assert (Lvv : length v <= length vv).
    { apply (Max v h3 b); [exact E2|apply Fs|apply Fs]. }
    rewrite <- !app_assoc in E.
    assert (Eh : h1' = g1)
      by (eapply field_head_prefix; [apply Fd|exact Lg1|exact E]).
    subst h1'. apply app_inv_head in E. symmetry in E.
    apply prefix_of_repeat in E; [|lia].
    rewrite Forall_forall in E. specialize (E _ Dot).
    vm_compute in E. discriminate. }
  destruct (app_eq_app _ _ _ _ Et) as (l & [(Ea & El)|(Ea & El)]).
  - destruct l as [|x l].
    + rewrite app_nil_r in Ea. simpl in El. apply Here; auto.
    + destruct (field_back _ _ _ _ _ _ Ev Fd)
        as (a & h1 & v & h3 & b & Es' & Fs & La & _).
      destruct (field_matches _ _ _ b Fs) as (y & Hy).
      rewrite (search_from_first _ _ _ _ _ S a _ Es') in Hy; [discriminate|].
      rewrite La, Ea, length_app. simpl. lia.
  - destruct l as [|x l].
    + rewrite app_nil_r in Ea. simpl in El. apply Here; auto.
    + destruct (app_eq_app _ _ _ _ El) as (l2 & [(Eb & El2)|(Eb & El2)]).
      * destruct l2 as [|x2 l2].
        { apply (After []). simpl. simpl in El2. auto. }
        destruct (field_starts h1' ((v' ++ h3') ++ b') ltac:(apply Fd))
          as (r & Er).
        rewrite app_assoc in Er. rewrite Er in El2.
        simpl in El2. injection El2 as Ex El2. subst x2.
        destruct (blanked_field_shape g1 (length vv) g3 Lg1 Lg3)
          as (c & tl & Esh & Ftl).
        rewrite Esh in Eb.
        eapply (no_head_inside c tl (x :: l) l2 post' r); eauto.
        discriminate.
      * apply (After l2). exact El2.
Qed.

(** ** From the numeric-blank loop to the returned text *)

Lemma stages_ev buf d st st1 st2 st3 st4 h' :
  Forall (fun kb => tiled 1 2 3 (snd kb) = true) buf ->
  Forall (fun kb => value_on_line (snd kb) = true) buf ->
  for_each number_pass buf st = Ok st1 ->
  for_each zero_pass zero_buffer st1 = Ok st2 ->
  for_each x_pass x_buffer st2 = Ok st3 ->
  for_each meta_pass meta_buffer st3 = Ok st4 ->
  sweep d (fst st4) = Ok h' ->
  Forall2 ev (fst st) h'.
Proof.
  intros T V E1 E2 E3 E4 E5.
  apply (Forall2_ev_trans _ (fst st1)); [eapply number_loop_ev; eauto|].
  apply (Forall2_ev_trans _ (fst st2)).
  { eapply for_each_ev; [|exact E2].
    eapply Forall_impl; [|apply zero_buffer_tiled].
    intros kb. apply zero_pass_ev. }
  apply (Forall2_ev_trans _ (fst st3)).
  { eapply for_each_ev; [|exact E3].
    eapply Forall_impl; [|apply (Forall_and _ _ _ x_buffer_tiled
                                   x_buffer_on_line)].
    intros kb (A & B). now apply x_pass_ev. }
  rewrite <- (for_each_meta_text _ _ _ E4).
  unfold sweep in E5. eapply re_sub_ev; [|exact E5]. apply repl_ev_sweep.
Qed.

Lemma anonymize_ev h h' ms :
  anonymize_twix_header h = Ok (h', ms) -> Forall2 ev h h'.
Proof.
  intros H. apply anonymize_stages in H.
  destruct H as (d & fd & st1 & st2 & st3 & st4 & _ & _ & E1 & E2 & E3 & E4
                 & E5 & _).
  exact (stages_ev _ _ _ _ _ _ _ _ number_buffer_tiled number_buffer_on_line
           E1 E2 E3 E4 E5).
Qed.

Lemma frame_pass_no_dotted st st' :
  number_pass st ("FrameOfReference"%string, field_re) = Ok st' ->
  ~ dotted_field (fst st').
Proof.
  destruct st as [h ms]. unfold number_pass, re_search.
  destruct (search_from field_re h) as [[[pre m] post]|] eqn:S; intros H.
  - bind_inv H h1 R. inversion H; subst. simpl.
    exact (blanked_no_dotted_field _ _ _ eq_refl R).
  - inversion H; subst. simpl.
    intros (a & h1 & v & h3 & b & E & F & _).
    exact (field_found _ _ _ _ _ _ E F S).
Qed.

Lemma number_buffer_split :
  number_buffer
  = firstn 7 number_buffer
    ++ [("FrameOfReference"%string, field_re)] ++ skipn 8 number_buffer.
Proof. reflexivity. Qed.

(** Once the redactor has returned, the text it returned holds no
    frame-of-reference field with a full stop in its value. *)
Lemma redacted_no_dotted_field h h' ms :
  anonymize_twix_header h = Ok (h', ms) -> ~ dotted_field h'.
Proof.
  intros H. apply anonymize_stages in H.
  destruct H as (d & fd & st1 & st2 & st3 & st4 & _ & _ & E1 & E2 & E3 & E4
                 & E5 & _).
  rewrite number_buffer_split in E1. rewrite !for_each_app in E1.
  bind_inv E1 sa Ea. bind_inv E1 sb Eb.
  pose proof (frame_pass_no_dotted _ _ Eb) as N.
  change (for_each number_pass (skipn 8 number_buffer) sb = Ok st1) in E1.
  intros D. apply N. apply (dotted_field_transfer _ h'); [|exact D].
  apply (stages_ev (skipn 8 number_buffer) d sb st1 st2 st3 st4 h');
    auto; repeat constructor.
Qed.

(** Running the redactor on the text it returned never yields a result:
    the first run blanked the value of the frame of reference, so the
    exam-date lookup of the second run finds no field to read or no
    component of index 10, and raises. *)
Theorem redacted_header_is_rejected h h' ms :
  anonymize_twix_header h = Ok (h', ms) ->
  anonymize_twix_header h' = Raise AttributeError
  \/ anonymize_twix_header h' = Raise IndexError.
Proof.
  intros H. pose proof (redacted_no_dotted_field _ _ _ H) as N.
  pose proof (exam_date_dotted_field h') as D.
  unfold anonymize_twix_header.
  destruct (exam_date_of h') as [d|e] eqn:E.
  - exfalso. apply N. now apply (D d).
  - cbn [bind]. unfold exam_date_of in E.
    destruct (re_search frame_of_reference_re h') as [m|];
      cbn [orraise bind] in E; [|inversion E; auto].
    destruct (group m 2) as [fq|];
      cbn [orraise bind] in E; [|inversion E; auto].
    destruct (nth_error (split dot fq) 10) as [c|];
      cbn [orraise bind] in E; [discriminate|inversion E; auto].
Qed.

Lemma redacted_header_is_rejected_witness :
  exists h' ms,
    anonymize_twix_header sample_header = Ok (h', ms)
    /\ anonymize_twix_header h' = Raise IndexError.
Proof.
  compute_eq (anonymize_twix_header sample_header) E.
  match type of E with
  | _ = Ok (?h', ?ms) =>
      exists h', ms; split; [exact E|];
      destruct (redacted_header_is_rejected sample_header h' ms E) as [A|A];
      [vm_compute in A; discriminate A|exact A]
  end.
Defined.

(* ================================================================= *)
(** * Further properties of the redactor *)

(** ** The text is rewritten in place *)

Lemma Forall2_nth_r {A B} (R : A -> B -> Prop) : forall l l' i b,
  Forall2 R l l' -> nth_error l' i = Some b ->
  exists a, nth_error l i = Some a /\ R a b.
Proof.
  induction l as [|x l IH]; intros l' i b F N; inversion F; subst.
  - destruct i; discriminate.
  - destruct i; simpl in *.
    + inversion N; subst. eauto.
    + eauto.
Qed.

Lemma Forall2_nth_l {A B} (R : A -> B -> Prop) : forall l l' i a,
  Forall2 R l l' -> nth_error l i = Some a ->
  exists b, nth_error l' i = Some b /\ R a b.
Proof.
  induction l as [|x l IH]; intros l' i a F N; inversion F; subst.
  - destruct i; discriminate.
  - destruct i; simpl in *.
    + inversion N; subst. eauto.
    + eauto.
Qed.

(** Every character of the returned header is the character the input has
    at that position, or a zero or a placeholder written over a character
    that was not a newline.  The newlines of the input and of the output
    sit at the same positions. *)
Theorem redactor_rewrites_in_place h h' ms :
  anonymize_twix_header h = Ok (h', ms) ->
  (forall i c', nth_error h' i = Some c' ->
     exists c, nth_error h i = Some c
               /\ (c' = c \/ ((c' = c0 \/ c' = cx) /\ c <> nl)))
  /\ (forall i, nth_error h' i = Some nl <-> nth_error h i = Some nl).
Proof.
  intros H. pose proof (anonymize_ev _ _ _ H) as F. split.
  - intros i c' N. destruct (Forall2_nth_r _ _ _ _ _ F N) as (c & Nc & E).
    exists c. split; auto.
  - intros i. split; intros N.
    + destruct (Forall2_nth_r _ _ _ _ _ F N) as (c & Nc & [E|([E|E] & _)]).
      * now subst.
      * vm_compute in E. discriminate.
      * vm_compute in E. discriminate.
    + destruct (Forall2_nth_l _ _ _ _ _ F N) as (c' & Nc & [E|(_ & Ne)]).
      * now subst.
      * congruence.
Qed.

Lemma redactor_rewrites_in_place_witness :
  exists h' ms,
    anonymize_twix_header sample_header = Ok (h', ms)
    /\ nth_error sample_header 42 = Some nl
    /\ nth_error h' 42 = Some nl.
Proof.
  compute_eq (anonymize_twix_header sample_header) E.
  match type of E with
  | _ = Ok (?h', ?ms) =>
      exists h', ms; split; [exact E|];
      assert (N : nth_error sample_header 42 = Some nl)
        by (vm_compute; reflexivity);
      split; [exact N|];
      exact (proj2 (proj2 (redactor_rewrites_in_place sample_header h' ms E)
                      42) N)
  end.
Defined.

(** ** The keys of the mask loop *)

Lemma x_pass_sets kb st st' :
  tiled 1 3 4 (snd kb) = true ->
  nonempty_re (snd (fst (parts (snd kb)))) = true ->
  x_pass st kb = Ok st' ->
  exists v, dict_get (fst kb) (snd st') = Some (Some v) /\ v <> [].
Proof.
  destruct st as [h ms], kb as [key buffer]. cbn [fst snd]. intros T N H.
  unfold x_pass in H. bind_inv H m Sm. bind_inv H h1 R. inversion H; subst.
  cbn [snd]. unfold re_search in Sm.
  destruct (search_from buffer h) as [[[pre m'] post]|] eqn:F;
    [|discriminate].
  inversion Sm; subst m'.
  destruct (search_from_sound _ _ _ _ _ F) as (_ & M).
  destruct (tiled_match _ _ _ _ _ _ _ _ T M)
    as (u1 & u2 & u3 & _ & _ & G & _ & _ & (g & g' & L) & _).
  exists u2. rewrite G, dict_get_set_same. split; auto.
  eapply nonempty_mt; eauto.
Qed.

Lemma for_each_x_sets : forall buf st st',
  Forall (fun kb => tiled 1 3 4 (snd kb) = true) buf ->
  Forall (fun kb => nonempty_re (snd (fst (parts (snd kb)))) = true) buf ->
  NoDup (map fst buf) ->
  for_each x_pass buf st = Ok st' ->
  forall kb, In kb buf ->
    exists v, dict_get (fst kb) (snd st') = Some (Some v) /\ v <> [].
Proof.
  induction buf as [|kb0 buf IH]; intros st st' T N D H kb I; [destruct I|].
  inversion T; inversion N; inversion D; subst. cbn [for_each] in H.
  bind_inv H st1 E. destruct I as [<-|I].
  - rewrite (for_each_key (fst kb0) x_pass buf) with (2 := H).
    + eapply x_pass_sets; eauto.
    + apply Forall_forall. intros kb1 I1. apply x_pass_key.
      intros Eq. match goal with X : ~ In _ _ |- _ => apply X end.
      rewrite Eq. now apply in_map.
  - eapply IH; eauto.
Qed.

(** A run that returns has recorded a value, and not an empty one, for
    each of the three fields of the mask loop. *)
Theorem mask_fields_always_recorded h h' ms key :
  anonymize_twix_header h = Ok (h', ms) ->
  In key ["Patient_name"; "InstitutionAddress"; "InstitutionName"]%string ->
  exists v, dict_get key ms = Some (Some v) /\ v <> [].
Proof.
  intros H I. apply anonymize_stages in H.
  destruct H as (d & fd & st1 & st2 & st3 & st4 & _ & _ & _ & _ & E3 & E4
                 & _ & ->).
  assert (K : exists r, In (key, r) x_buffer).
  { destruct I as [<-|[<-|[<-|[]]]]; eexists;
      [left|right; left|right; right; left]; reflexivity. }
  destruct K as (r & K).
  assert (Nk : existsb (String.eqb key) (map fst meta_buffer) = false).
  { destruct I as [<-|[<-|[<-|[]]]]; reflexivity. }
  rewrite (for_each_key key meta_pass meta_buffer) with (2 := E4).
  2:{ eapply Forall_impl; [apply meta_pass_key|]. now apply not_a_key. }
  apply (for_each_x_sets x_buffer st2 st3 x_buffer_tiled) with (kb := (key, r));
    auto.
  - repeat constructor.
  - repeat constructor; simpl; intuition discriminate.
Qed.

Lemma mask_fields_always_recorded_witness :
  exists h' ms,
    anonymize_twix_header sample_header = Ok (h', ms)
    /\ dict_get "InstitutionName" ms = Some (Some (txt "Clinic")).
Proof.
  compute_eq (anonymize_twix_header sample_header) E.
  match type of E with
  | _ = Ok (?h', ?ms) =>
      exists h', ms; split; [exact E|];
      destruct (mask_fields_always_recorded sample_header h' ms
                  "InstitutionName" E ltac:(simpl; auto)) as (v & G & _);
      vm_compute; reflexivity
  end.
Defined.

(** ** The record of a run *)

Lemma fold_set_other {V} k (l : list (string * V)) : forall d,
  dict_get k l = None ->
  dict_get k (fold_left (fun d kv => dict_set (fst kv) (snd kv) d) l d)
  = dict_get k d.
Proof.
  induction l as [|[k' v'] l IH]; intros d H; simpl in *; auto.
  destruct (String.eqb_spec k k') as [->|N]; [discriminate|].
  rewrite (IH _ H). now apply dict_get_set_other.
Qed.

(** The redactor records under the keys of its catalogs and under
    [Exam_date], and under no other key. *)
Lemma anonymize_no_key k h h' ms :
  anonymize_twix_header h = Ok (h', ms) ->
  k <> "Exam_date"%string ->
  existsb (String.eqb k)
    (map fst (number_buffer ++ zero_buffer ++ x_buffer ++ meta_buffer))
  = false ->
  dict_get k ms = None.
Proof.
  intros H Ne Nk. rewrite !map_app, !existsb_app in Nk.
  apply orb_false_elim in Nk. destruct Nk as (N1 & Nk).
  apply orb_false_elim in Nk. destruct Nk as (N2 & Nk).
  apply orb_false_elim in Nk. destruct Nk as (N3 & N4).
  apply anonymize_stages in H.
  destruct H as (d & fd & st1 & st2 & st3 & st4 & _ & _ & E1 & E2 & E3
                 & E4 & _ & ->).
  rewrite (for_each_key k meta_pass meta_buffer) with (2 := E4).
  2:{ eapply Forall_impl; [apply meta_pass_key|]. now apply not_a_key. }
  rewrite (for_each_key k x_pass x_buffer) with (2 := E3).
  2:{ eapply Forall_impl; [apply x_pass_key|]. now apply not_a_key. }
  rewrite (for_each_key k zero_pass zero_buffer) with (2 := E2).
  2:{ eapply Forall_impl; [apply zero_pass_key|]. now apply not_a_key. }
  rewrite (for_each_key k number_pass number_buffer) with (2 := E1).
  2:{ eapply Forall_impl; [apply number_pass_key|]. now apply not_a_key. }
  cbn [snd]. now rewrite dict_get_set_other.
Qed.

Lemma csv_row_names out_path fn h h' ms :
  anonymize_twix_header h = Ok (h', ms) ->
  names_job (fn, out_path) (csv_row out_path fn ms).
Proof.
  intros H. unfold names_job, csv_row. cbn [fst snd]. split.
  - rewrite fold_set_other; [reflexivity|].
    apply (anonymize_no_key _ _ _ _ H); [discriminate|reflexivity].
  - rewrite fold_set_other; [reflexivity|].
    apply (anonymize_no_key _ _ _ _ H); [discriminate|reflexivity].
Qed.

Lemma run_matches meta (a b : Z) s ms s' :
  (if is_vd a b then anonymize_twix_vd meta else anonymize_twix_vb meta) s
  = (Ok ms, s') ->
  exists h h', anonymize_twix_header h = Ok (h', ms).
Proof.
  destruct (is_vd a b); intros R.
  - exact (vd_matches _ _ _ _ R).
  - exact (vb_matches _ _ _ _ R).
Qed.

Lemma run_row filename out_path meta w w' :
  read_and_anonymize filename out_path meta w = (Ok tt, w') ->
  exists row, table w' = table w ++ [row]
              /\ names_job (filename, out_path) row.
Proof.
  unfold read_and_anonymize. intros H.
  destruct (files w filename) as [data|]; [|discriminate].
  destruct (unpack_II (firstn 8 data)) as [[a b]|]; [|discriminate].
  destruct ((if is_vd a b then anonymize_twix_vd meta
             else anonymize_twix_vb meta) (MkIo data 0 [] 0))
    as [[ms|e'] s1] eqn:R; inversion H; subst. cbn [table].
  eexists. split; [reflexivity|].
  destruct (run_matches _ _ _ _ _ _ R) as (h & h' & A).
  eapply csv_row_names; eauto.
Qed.

(** A run that returns appends one row to the record table; the row names
    the input path under [orig_filename] and the stem of the output path
    under [anonymized_id], whatever the header held. *)
Theorem csv_row_names_input_and_output filename out_path meta w w' :
  read_and_anonymize filename out_path meta w = (Ok tt, w') ->
  exists row,
    table w' = table w ++ [row]
    /\ dict_get "orig_filename" row = Some (Some (txt filename))
    /\ dict_get "anonymized_id" row = Some (Some (stem out_path)).
Proof.
  intros H. destruct (run_row _ _ _ _ _ H) as (row & T & A & B).
  exists row. auto.
Qed.

Lemma csv_row_names_input_and_output_witness :
  exists w' row,
    read_and_anonymize "in/scan.dat" "out/4711.dat" false
      (disk_with "in/scan.dat" sample_vb) = (Ok tt, w')
    /\ table w' = [row]
    /\ dict_get "orig_filename" row = Some (Some (txt "in/scan.dat"))
    /\ dict_get "anonymized_id" row = Some (Some (txt "4711")).
Proof.
  compute_eq (read_and_anonymize "in/scan.dat" "out/4711.dat" false
                (disk_with "in/scan.dat" sample_vb)) E.
  match type of E with
  | _ = (Ok tt, ?w') =>
      destruct (csv_row_names_input_and_output _ _ _ _ w' E)
        as (row & T & A & B);
      exists w', row; split; [exact E|]; split; [exact T|];
      split; [exact A|exact B]
  end.
Defined.

(** The loop of [anonymize_twix]: the rows it appends are those of the
    files it got through, in their order; each names its input and its
    output; and the loop got through every file, or through those before
    the first one that failed. *)
Theorem batch_rows_follow_the_files : forall jobs meta w r w',
  anonymize_twix jobs meta w = (r, w') ->
  exists done rest rows,
    jobs = done ++ rest
    /\ table w' = table w ++ rows
    /\ Forall2 names_job done rows
    /\ (r = Ok tt -> rest = [])
    /\ (forall e, r = Raise e -> rest <> []).
Proof.
  induction jobs as [|[filename out_path] jobs IH]; intros meta w r w' H.
  - simpl in H. inversion H; subst.
    exists [], [], []. split; [reflexivity|].
    split; [now rewrite app_nil_r|]. split; [constructor|].
    split; [reflexivity|]. intros e E. discriminate E.
  - cbn [anonymize_twix] in H.
    destruct (read_and_anonymize filename out_path meta w)
      as [[[]|e] w1] eqn:R.
    + destruct (run_row _ _ _ _ _ R) as (row & T & Nj).
      destruct (IH _ _ _ _ H) as (done & rest & rows & -> & T' & F & A & B).
      exists ((filename, out_path) :: done), rest, (row :: rows).
      split; [reflexivity|]. split.
      { rewrite T', T, <- app_assoc. reflexivity. }
      split; [constructor; auto|]. split; auto.
    + inversion H; subst.
      exists [], ((filename, out_path) :: jobs), [].
      split; [reflexivity|]. split.
      { rewrite app_nil_r. unfold read_and_anonymize in R.
        destruct (files w filename) as [data|]; [|now inversion R].
        destruct (unpack_II (firstn 8 data)) as [[a b]|];
          [|now inversion R].
        destruct ((if is_vd a b then anonymize_twix_vd meta
                   else anonymize_twix_vb meta) (MkIo data 0 [] 0))
          as [[ms|e'] s1]; inversion R; subst; reflexivity. }
      split; [constructor|]. split; [discriminate|].
      intros e0 _. discriminate.
Qed.

Lemma batch_rows_follow_the_files_witness :
  exists w' done rest rows,
    anonymize_twix [("in/scan.dat", "out/4711.dat");
                    ("in/none.dat", "out/12.dat")]%string false
      (disk_with "in/scan.dat" sample_vb) = (Raise FileNotFoundError, w')
    /\ [("in/scan.dat", "out/4711.dat");
        ("in/none.dat", "out/12.dat")]%string = done ++ rest
    /\ table w' = rows
    /\ Forall2 names_job done rows
    /\ rest <> [].
Proof.
  compute_eq (anonymize_twix [("in/scan.dat", "out/4711.dat");
                              ("in/none.dat", "out/12.dat")]%string false
                (disk_with "in/scan.dat" sample_vb)) E.
  match type of E with
  | _ = (Raise FileNotFoundError, ?w') =>
      destruct (batch_rows_follow_the_files _ _ _ _ w' E)
        as (done & rest & rows & J & T & F & _ & B);
      exists w', done, rest, rows; split; [exact E|]; split; [exact J|];
      split; [exact T|]; split; [exact F|exact (B _ eq_refl)]
  end.
Defined.

(* ================================================================= *)
(** * Further properties of the container readers *)

(** ** Metadata-only runs *)

Ltac input_only_tac :=
  repeat first [ apply input_only_bind; [|intros ?]
               | apply input_only_seek | apply input_only_read
               | apply input_only_lift | apply input_only_ret
               | apply input_only_read_measurement
               | match goal with
                 | |- input_only (let '(_, _) := ?r in _) => destruct r
                 end ].

Lemma input_only_vb_meta : input_only (anonymize_twix_vb true).
Proof. unfold anonymize_twix_vb. input_only_tac. Qed.

Lemma input_only_vd_loop_meta : forall idx cur,
  input_only (vd_loop true idx cur).
Proof.
  induction idx as [|i idx IH]; intros cur; cbn [vd_loop].
  - apply input_only_ret.
  - apply input_only_bind; [|intros ms; apply IH].
    unfold vd_turn. input_only_tac.
Qed.

Lemma input_only_vd_meta : input_only (anonymize_twix_vd true).
Proof.
  unfold anonymize_twix_vd.
  apply input_only_bind; [apply input_only_read|intros raw].
  apply input_only_bind; [apply input_only_lift|intros [twix_id n]].
  apply input_only_bind; [apply input_only_ret|intros _].
  apply input_only_bind; [apply input_only_vd_loop_meta|intros cur].
  apply input_only_lift.
Qed.

(** In metadata-only mode nothing is written to the output stream.  So a
    run that raises once the signature has been read leaves the output
    file it had opened on disk, and leaves it empty; the record table is
    as it was. *)
Theorem meta_only_failure_leaves_empty_file filename out_path w data sig e w' :
  files w filename = Some data ->
  unpack_II (firstn 8 data) = Ok sig ->
  read_and_anonymize filename out_path true w = (Raise e, w') ->
  files w' out_path = Some [] /\ table w' = table w.
Proof.
  intros F U H. unfold read_and_anonymize in H. rewrite F, U in H.
  destruct sig as [a b].
  assert (I : input_only (if is_vd a b then anonymize_twix_vd true
                          else anonymize_twix_vb true)).
  { destruct (is_vd a b);
      [apply input_only_vd_meta|apply input_only_vb_meta]. }
  destruct (I (MkIo data 0 [] 0)) as (_ & Fo & _).
  destruct ((if is_vd a b then anonymize_twix_vd true
             else anonymize_twix_vb true) (MkIo data 0 [] 0))
    as [[ms|e'] s1]; inversion H; subst. cbn [files table snd] in *.
  split; [|reflexivity]. unfold put_file. rewrite String.eqb_refl.
  now rewrite Fo.
Qed.

Lemma meta_only_failure_leaves_empty_file_witness :
  exists w',
    read_and_anonymize "in/cut.dat" "out/7.dat" true
      (disk_with "in/cut.dat" truncated_vd) = (Raise StructError, w')
    /\ files w' "out/7.dat" = Some [].
Proof.
  compute_eq (read_and_anonymize "in/cut.dat" "out/7.dat" true
                (disk_with "in/cut.dat" truncated_vd)) E.
  match type of E with
  | _ = (Raise StructError, ?w') =>
      exists w'; split; [exact E|];
      exact (proj1 (meta_only_failure_leaves_empty_file
                      "in/cut.dat" "out/7.dat"
                      (disk_with "in/cut.dat" truncated_vd) truncated_vd
                      (0%Z, 1%Z) StructError w' eq_refl eq_refl E))
  end.
Defined.

(** ** Containers that are cut short *)

Lemma read_truncated_row data p fo po :
  8 <= length data -> length data < 160 ->
  read_measurement 0 (MkIo data p fo po)
  = (Raise StructError, MkIo data (length data) fo po).
Proof.
  intros L8 L. unfold read_measurement.
  rewrite bindM_run. unfold fin_seek at 1.
  change (8 + 152 * Z.of_nat 0 <? max_off)%Z with true.
  cbn [fin_data fout_data fout_pos]. change (Z.to_nat (8 + 152 * Z.of_nat 0)) with 8.
  rewrite bindM_run. unfold fin_read at 1.
  cbn [fin_data fin_pos fout_data fout_pos].
  change (152 <? -1)%Z with false. change (152 =? -1)%Z with false.
  cbv iota. change (Z.to_nat 152) with 152.
  assert (Lg : length (firstn 152 (skipn 8 data)) = length data - 8).
  { rewrite length_firstn, length_skipn. lia. }
  rewrite Lg. replace (8 + (length data - 8)) with (length data) by lia.
  rewrite bindM_run. unfold lift at 1, unpack_entry. rewrite Lg.
  destruct (Nat.eqb_spec (length data - 8) 152); [lia|reflexivity].
Qed.

(** A Variant A container that announces a measurement but ends before the
    first row of its table is complete makes the reader raise
    [struct.error]; by then the whole input has been read and, unless the
    run is metadata-only, the eight bytes of the head have been written. *)
Theorem vd_truncated_table_fails meta data twix_id n :
  unpack_II (firstn 8 data) = Ok (twix_id, n) -> (0 < n)%Z ->
  length data < 160 ->
  anonymize_twix_vd meta (MkIo data 0 [] 0)
  = (Raise StructError,
     MkIo data (length data) (if meta then [] else firstn 8 data)
          (if meta then 0 else 8)).
Proof.
  intros U Hn L. pose proof (unpack_II_length _ _ U) as L8.
  assert (Ld : 8 <= length data).
  { rewrite length_firstn in L8. lia. }
  unfold anonymize_twix_vd.
  rewrite bindM_run, fin_read_start by lia. change (Z.to_nat 8) with 8.
  rewrite bindM_run. unfold lift at 1. rewrite U, L8.
  destruct (Z.to_nat n) as [|k] eqn:En; [lia|].
  cbn [seq vd_loop]. unfold vd_turn.
  destruct meta.
  - rewrite bindM_run. unfold ret at 1.
    rewrite !bindM_run. rewrite read_truncated_row by lia. reflexivity.
  - rewrite bindM_run. unfold fout_write at 1.
    cbn [fin_data fin_pos fout_data fout_pos].
    rewrite (pack_unpack_II _ _ _ U).
    rewrite write_at_end by reflexivity. rewrite L8.
    rewrite !bindM_run. rewrite read_truncated_row by lia. reflexivity.
Qed.

Lemma vd_truncated_table_fails_witness :
  anonymize_twix_vd false (MkIo truncated_vd 0 [] 0)
  = (Raise StructError, MkIo truncated_vd 8 truncated_vd 8).
Proof.
  exact (vd_truncated_table_fails false truncated_vd 0%Z 1%Z
           eq_refl eq_refl ltac:(simpl; lia)).
Defined.

(** ** The size field of a Variant B header *)

(** A Variant B container whose size field is below 3 asks the input for a
    negative number of bytes other than -1: the read raises [ValueError]
    with four bytes consumed and nothing written. *)
Theorem vb_tiny_header_size_fails meta data fout pos hs :
  unpack_I (firstn 4 data) = Ok hs -> (hs < 3)%Z ->
  anonymize_twix_vb meta (MkIo data 0 fout pos)
  = (Raise ValueError, MkIo data 4 fout pos).
Proof.
  intros U H. pose proof (unpack_I_length _ _ U) as L4.
  unfold anonymize_twix_vb.
  rewrite bindM_run, fin_read_start by lia. change (Z.to_nat 4) with 4.
  rewrite L4. rewrite bindM_run. unfold lift at 1. rewrite U.
  rewrite bindM_run. unfold fin_read at 1.
  destruct (Z.ltb_spec (hs - 4) (-1)); [reflexivity|lia].
Qed.

Lemma vb_tiny_header_size_fails_witness :
  anonymize_twix_vb false
    (MkIo (pack_I 2 ++ encode sample_header) 0 [] 0)
  = (Raise ValueError, MkIo (pack_I 2 ++ encode sample_header) 4 [] 0).
Proof.
  exact (vb_tiny_header_size_fails false (pack_I 2 ++ encode sample_header)
           [] 0 2%Z eq_refl ltac:(lia)).
Defined.

Lemma drop_last_short {A} n (l : list A) : length l <= n -> drop_last n l = [].
Proof.
  intros L. unfold drop_last. replace (length l - n) with 0 by lia.
  reflexivity.
Qed.

(** A Variant B container whose header, size field apart, has at most 24
    bytes (by its size field or because the file ends) leaves no text once
    the 24 trailing bytes are set aside: the redactor is given the empty
    text and raises [AttributeError]; nothing is written. *)
Theorem vb_short_header_fails meta data fout pos hs :
  unpack_I (firstn 4 data) = Ok hs -> (4 <= hs)%Z ->
  (hs <= 28)%Z \/ length data <= 28 ->
  exists s',
    anonymize_twix_vb meta (MkIo data 0 fout pos) = (Raise AttributeError, s')
    /\ fout_data s' = fout.
Proof.
  intros U H4 Hs. pose proof (unpack_I_length _ _ U) as L4.
  unfold anonymize_twix_vb.
  rewrite bindM_run, fin_read_start by lia. change (Z.to_nat 4) with 4.
  rewrite L4. rewrite bindM_run. unfold lift at 1. rewrite U.
  rewrite bindM_run. unfold fin_read at 1.
  cbn [fin_data fin_pos fout_data fout_pos].
  destruct (Z.ltb_spec (hs - 4) (-1)); [lia|].
  destruct (Z.eqb_spec (hs - 4) (-1)); [lia|].
  rewrite bindM_run. unfold lift at 1.
  rewrite drop_last_short.
  - eexists. split; [reflexivity|reflexivity].
  - rewrite length_firstn, length_skipn. lia.
Qed.

Lemma vb_short_header_fails_witness :
  exists s',
    anonymize_twix_vb false
      (MkIo (pack_I 28 ++ repeat Byte.x07 24) 0 [] 0)
    = (Raise AttributeError, s')
    /\ fout_data s' = [].
Proof.
  exact (vb_short_header_fails false (pack_I 28 ++ repeat Byte.x07 24)
           [] 0 28%Z eq_refl ltac:(lia) ltac:(left; lia)).
Defined.

(* ================================================================= *)
(** * Further properties of the exam date *)

(** ** The component of index 10 *)

Lemma split_on_length sep s : forall cur,
  length (split_on sep cur s)
  = S (length (filter (fun c => Ascii.eqb c sep) s)).
Proof.
  induction s as [|c s IH]; intros cur; simpl; auto.
  destruct (Ascii.eqb c sep); simpl; now rewrite IH.
Qed.

(** The exam-date lookup needs a frame of reference with ten full stops at
    least between its quotes: with fewer the redactor raises [IndexError]
    before it rewrites anything, and with ten or more the lookup returns
    at most six characters for the date. *)
Theorem frame_of_reference_needs_ten_stops h m fq :
  re_search frame_of_reference_re h = Some m ->
  group m 2 = Some fq ->
  (length (filter (fun c => Ascii.eqb c dot) fq) < 10 ->
   anonymize_twix_header h = Raise IndexError)
  /\ (10 <= length (filter (fun c => Ascii.eqb c dot) fq) ->
      exists d, exam_date_of h = Ok d /\ length d <= 6).
Proof.
  intros Sm G. pose proof (split_on_length dot fq []) as L.
  fold (split dot fq) in L. split; intros H.
  - assert (N : nth_error (split dot fq) 10 = None)
      by (apply nth_error_None; lia).
    unfold anonymize_twix_header, exam_date_of.
    rewrite Sm. cbn [orraise bind]. rewrite G. cbn [orraise bind].
    rewrite N. reflexivity.
  - destruct (nth_error (split dot fq) 10) as [c|] eqn:N.
    + exists (slice 2 8 c). unfold exam_date_of.
      rewrite Sm. cbn [orraise bind]. rewrite G. cbn [orraise bind].
      rewrite N. split; [reflexivity|].
      unfold slice. rewrite length_firstn. lia.
    + apply nth_error_None in N. lia.
Qed.

Lemma frame_of_reference_needs_ten_stops_witness :
  anonymize_twix_header header_few_stops = Raise IndexError.
Proof.
  compute_eq (re_search frame_of_reference_re header_few_stops) E.
  match type of E with
  | _ = Some ?m =>
      exact (proj1 (frame_of_reference_needs_ten_stops header_few_stops m
                      (unq "'1.2.3'") E eq_refl)
               ltac:(vm_compute; lia))
  end.
Defined.

(** ** Six digits *)

Lemma get_date_verdicts :
  forallb (fun yy =>
    forallb (fun mm =>
      forallb (fun dd => verdict_check yy mm dd) (upto 1 31)) (upto 1 12))
    (upto 0 100) = true.
Proof. vm_compute. reflexivity. Qed.

(** For six digits YYMMDD with a month from 1 to 12 and a day from 1 to
    31, [_get_date] returns the date as YYYY-MM-DD when the month has that
    day (February has 29 days in every fourth year, 28 otherwise) and
    raises [ValueError] when it has not. *)
Theorem get_date_six_digits yy mm dd :
  (yy < 100)%N -> (1 <= mm <= 12)%N -> (1 <= dd <= 31)%N ->
  get_date (two yy ++ two mm ++ two dd)
  = if (dd <=? month_days yy mm)%N
    then Ok (iso_date (pivot_year yy) mm dd)
    else Raise ValueError.
Proof.
  intros Hy Hm Hd. pose proof get_date_verdicts as T.
  rewrite forallb_forall in T.
  assert (Iy : In yy (upto 0 100)) by (apply in_upto; lia).
  specialize (T yy Iy). rewrite forallb_forall in T.
  assert (Im : In mm (upto 1 12)) by (apply in_upto; lia).
  specialize (T mm Im). rewrite forallb_forall in T.
  assert (Id : In dd (upto 1 31)) by (apply in_upto; lia).
  specialize (T dd Id). unfold verdict_check in T.
  destruct (get_date (two yy ++ two mm ++ two dd)) as [fd|e].
  - apply andb_prop in T. destruct T as (T1 & T2). rewrite T1.
    f_equal. now apply text_eqb_eq.
  - destruct e; try discriminate.
    destruct (dd <=? month_days yy mm)%N; [discriminate|reflexivity].
Qed.

Lemma get_date_six_digits_witness :
  get_date (txt "240229") = Ok (txt "2024-02-29")
  /\ get_date (txt "230229") = Raise ValueError.
Proof.
  split.
  - exact (get_date_six_digits 24 2 29 ltac:(lia) ltac:(lia) ltac:(lia)).
  - exact (get_date_six_digits 23 2 29 ltac:(lia) ltac:(lia) ltac:(lia)).
Defined.

(* ================================================================= *)
(** * Further properties of the rewriting loops *)

(** ** The digit-zero policy *)

Lemma zero_repl_value m g1 v g4 :
  group m 1 = Some g1 -> group m 3 = Some v -> group m 4 = Some g4 ->
  zero_repl m = Ok (g1 ++ map zero_digit v ++ g4).
Proof.
  intros G1 G3 G4. unfold zero_repl. rewrite G1, G3, G4.
  cbn [orraise bind]. rewrite sub_char. reflexivity.
Qed.

(** In the digit-zero loop the first match of a pattern has each decimal
    digit of its value replaced by a zero and every other character of
    the value, such as the decimal point, kept; the groups around the
    value are written back, the value is recorded as it was, and the text
    after the match is rewritten by the same substitution. *)
Theorem zero_policy_blanks_digits key buffer h ms st' pre m post :
  In (key, buffer) zero_buffer ->
  search_from buffer h = Some (pre, m, post) ->
  zero_pass (h, ms) (key, buffer) = Ok st' ->
  exists g1 v g4 rest',
    group m 1 = Some g1 /\ group m 3 = Some v /\ group m 4 = Some g4
    /\ h = pre ++ (g1 ++ v ++ g4) ++ post
    /\ fst st' = pre ++ (g1 ++ map zero_digit v ++ g4) ++ rest'
    /\ re_sub buffer zero_repl post = Ok rest'
    /\ length rest' = length post
    /\ dict_get key (snd st') = Some (Some v).
Proof.
  intros I Sf P.
  pose proof (in_catalog _ _ _ zero_buffer_tiled I) as T.
  pose proof (in_catalog _ _ _ zero_buffer_nonempty I) as N.
  cbn [snd] in T, N. unfold zero_pass in P.
  rewrite re_search_from, Sf in P.
  bind_inv P h1 R. inversion P; subst st'. clear P.
  rewrite (sub_first buffer zero_repl N _ _ _ _ Sf) in R.
  destruct (search_from_sound _ _ _ _ _ Sf) as (E & M).
  destruct (tiled_match _ _ _ _ _ _ _ _ T M)
    as (g1 & v & g4 & Et & G1 & G3 & G4 & _).
  rewrite (zero_repl_value _ _ _ _ G1 G3 G4) in R. cbn [bind] in R.
  destruct (re_sub buffer zero_repl post) as [rest'|] eqn:RR;
    cbn [bind] in R; [|discriminate].
  inversion R; subst h1. exists g1, v, g4, rest'. cbn [fst snd].
  split; [exact G1|]. split; [exact G3|]. split; [exact G4|].
  split; [now rewrite <- Et|]. split; [reflexivity|].
  split; [reflexivity|]. split.
  - eapply re_sub_length; [|exact RR]. now apply len_ok_zero.
  - now rewrite G3, dict_get_set_same.
Qed.

Lemma zero_policy_blanks_digits_witness :
  exists st',
    zero_pass (header_age, [])
      ("Patient_age"%string, vis_double_field "flPatientAge" Eps) = Ok st'
    /\ fst st'
       = unq "<ParamDouble.'flPatientAge'>  { <Precision> 6  00.000000  }|"
    /\ dict_get "Patient_age" (snd st') = Some (Some (txt "34.500000")).
Proof.
  compute_eq (search_from (vis_double_field "flPatientAge" Eps) header_age)
    ES.
  compute_eq (zero_pass (header_age, [])
                ("Patient_age"%string, vis_double_field "flPatientAge" Eps))
    EP.
  match type of ES with
  | _ = Some (?pre, ?m, ?post) =>
      match type of EP with
      | _ = Ok ?st' =>
          destruct (zero_policy_blanks_digits "Patient_age"
                      (vis_double_field "flPatientAge" Eps) header_age []
                      st' pre m post
                      (or_intror (or_introl eq_refl)) ES EP)
            as (g1 & v & g4 & rest' & _ & G3 & _ & _ & _ & _ & _ & D);
          exists st'; split; [exact EP|]; split;
          [vm_compute; reflexivity|];
          rewrite D; vm_compute in G3; inversion G3; reflexivity
      end
  end.
Defined.

(** ** A sweep with nothing to find *)

Lemma re_sub_no_match r f : forall s,
  search_from r s = None -> re_sub r f s = Ok s.
Proof.
  unfold re_sub. induction s as [|c s IH]; intros H.
  - cbn [sub_walk]. unfold sub_step.
    rewrite (search_from_none _ _ H [] [] eq_refl). reflexivity.
  - cbn [sub_walk]. unfold sub_step.
    rewrite (search_from_none _ _ H [] (c :: s) eq_refl). cbn [bind].
    simpl in H.
    destruct (match_at r (c :: s) false) as [[m rest]|]; [discriminate|].
    destruct (search_from r s) as [[[p m] q]|] eqn:Sf; [discriminate|].
    rewrite (IH eq_refl). reflexivity.
Qed.

Lemma sweep_found_contains d t pre m post :
  search_from (sweep_re d) t = Some (pre, m, post) -> contains d t.
Proof.
  intros H. destruct (search_from_sound _ _ _ _ _ H) as (E & M).
  apply match_at_sound in M. destruct M as (_ & M & _).
  destruct (sweep_mt _ _ _ _ M) as (a & b & Em & _).
  exists (pre ++ dq :: a), (b ++ [dq] ++ post). rewrite E, Em.
  simpl. rewrite <- ?app_assoc. simpl. rewrite <- ?app_assoc. reflexivity.
Qed.

(** The final sweep, run with an exam date that [_get_date] has accepted,
    leaves a text alone in which the characters of that date do not occur
    one after the other. *)
Theorem sweep_without_date_is_identity d fd t :
  get_date d = Ok fd -> ~ contains d t -> sweep d t = Ok t.
Proof.
  intros _ N. unfold sweep. apply re_sub_no_match.
  destruct (search_from (sweep_re d) t) as [[[pre m] post]|] eqn:Sf; auto.
  exfalso. apply N. eapply sweep_found_contains; eauto.
Qed.

Lemma sweep_without_date_is_identity_witness :
  get_date (txt "230615") = Ok (txt "2023-06-15")
  /\ sweep (txt "230615") header_age = Ok header_age.
Proof.
  assert (G : get_date (txt "230615") = Ok (txt "2023-06-15"))
    by (vm_compute; reflexivity).
  split; [exact G|].
  apply (sweep_without_date_is_identity _ _ _ G).
  intros (a & b & E).
  assert (C : existsb (fun c => Ascii.eqb c "2") header_age = false)
    by (vm_compute; reflexivity).
  rewrite E in C. rewrite existsb_app in C.
  apply orb_false_elim in C. destruct C as (_ & C).
  simpl in C. discriminate.
Defined.

(* ================================================================= *)
(** * Metadata-only runs and full runs *)

Lemma vd_turn_meta i t m :
  measurement_at (fin_data t) i = Ok m ->
  exists t1, vd_turn true i t = (Ok (ms_matches m), t1)
             /\ fin_data t1 = fin_data t.
Proof.
  intros H. unfold vd_turn. rewrite bindM_run.
  pose proof (read_measurement_at i t) as R. rewrite H in R.
  destruct (input_only_read_measurement i t) as (D & _).
  destruct (read_measurement i t) as [[m'|e] t1]; simpl in R, D;
    [|discriminate].
  inversion R; subst m'. exists t1. split; [reflexivity|exact D].
Qed.

Lemma vd_loop_meta_same : forall idx cur s r s',
  vd_loop false idx cur s = (Ok r, s') ->
  forall t, fin_data t = fin_data s ->
  exists t', vd_loop true idx cur t = (Ok r, t').
Proof.
  induction idx as [|j idx IH]; intros cur s r s' H t Ft.
  - cbn [vd_loop] in *. apply ret_ok in H. destruct H as (-> & _).
    eexists. reflexivity.
  - cbn [vd_loop] in H. apply bindM_ok in H.
    destruct H as (ms & s1 & T & H).
    destruct (vd_turn_ok _ _ _ _ _ T) as (D1 & m & Mj & ->).
    rewrite <- Ft in Mj.
    destruct (vd_turn_meta j t m Mj) as (t1 & Tm & D2).
    cbn [vd_loop]. rewrite bindM_run, Tm.
    apply (IH _ _ _ _ H). congruence.
Qed.

Lemma vd_meta_same s ms s' :
  anonymize_twix_vd false s = (Ok ms, s') ->
  exists t', anonymize_twix_vd true s = (Ok ms, t').
Proof.
  unfold anonymize_twix_vd. intros H.
  apply bindM_ok in H. destruct H as (raw & sa & Hr & H).
  apply bindM_ok in H. destruct H as ([twix_id n] & sb & Hu & H).
  apply lift_ok in Hu. destruct Hu as (U & ->).
  apply bindM_ok in H. destruct H as (u & sc & Hw & H).
  apply fout_write_ok in Hw.
  apply bindM_ok in H. destruct H as (cur & sd & L & H).
  apply lift_ok in H. destruct H as (C & _).
  destruct (vd_loop_meta_same _ _ _ _ _ L sa) as (t' & L').
  { subst sc. reflexivity. }
  rewrite bindM_run, Hr. rewrite bindM_run. unfold lift at 1. rewrite U.
  rewrite bindM_run. unfold ret at 1. rewrite bindM_run, L'.
  unfold lift. rewrite C. eexists. reflexivity.
Qed.

Lemma vb_meta_same s ms s' :
  anonymize_twix_vb false s = (Ok ms, s') ->
  exists t', anonymize_twix_vb true s = (Ok ms, t').
Proof.
  unfold anonymize_twix_vb. intros H.
  apply bindM_ok in H. destruct H as (raw & sa & Hr & H).
  apply bindM_ok in H. destruct H as (hs & sb & Hu & H).
  apply lift_ok in Hu. destruct Hu as (U & ->).
  apply bindM_ok in H. destruct H as (header & sc & Hh & H).
  apply bindM_ok in H. destruct H as ([anon ms'] & sd & Ha & H).
  apply lift_ok in Ha. destruct Ha as (A & ->).
  apply bindM_ok in H. destruct H as (u & se & _ & H).
  apply ret_ok in H. destruct H as (-> & _).
  rewrite bindM_run, Hr. rewrite bindM_run. unfold lift at 1. rewrite U.
  rewrite bindM_run, Hh. rewrite bindM_run. unfold lift at 1. rewrite A.
  eexists. reflexivity.
Qed.

(** Where a full run returns, the metadata-only run on the same input
    returns as well: it appends the same row to the record table and
    leaves no file at the output path. *)
Theorem meta_only_records_the_same filename out_path w w1 :
  read_and_anonymize filename out_path false w = (Ok tt, w1) ->
  exists w2,
    read_and_anonymize filename out_path true w = (Ok tt, w2)
    /\ table w2 = table w1
    /\ files w2 out_path = None.
Proof.
  unfold read_and_anonymize. intros H.
  destruct (files w filename) as [data|]; [|discriminate].
  destruct (unpack_II (firstn 8 data)) as [[a b]|]; [|discriminate].
  destruct ((if is_vd a b then anonymize_twix_vd false
             else anonymize_twix_vb false) (MkIo data 0 [] 0))
    as [[ms|e'] s1] eqn:R; inversion H; subst. cbn [table].
  assert (Rm : exists t',
             (if is_vd a b then anonymize_twix_vd true
              else anonymize_twix_vb true) (MkIo data 0 [] 0)
             = (Ok ms, t')).
  { destruct (is_vd a b);
      [exact (vd_meta_same _ _ _ R)|exact (vb_meta_same _ _ _ R)]. }
  destruct Rm as (t' & Rm). rewrite Rm.
  eexists. split; [reflexivity|]. cbn [table files].
  split; [reflexivity|]. unfold put_file. now rewrite String.eqb_refl.
Qed.

Lemma meta_only_records_the_same_witness :
  exists w1 w2,
    read_and_anonymize "in/scan.dat" "out/4711.dat" false
      (disk_with "in/scan.dat" sample_vd) = (Ok tt, w1)
    /\ read_and_anonymize "in/scan.dat" "out/4711.dat" true
         (disk_with "in/scan.dat" sample_vd) = (Ok tt, w2)
    /\ table w2 = table w1
    /\ files w2 "out/4711.dat" = None.
Proof.
  compute_eq (read_and_anonymize "in/scan.dat" "out/4711.dat" false
                (disk_with "in/scan.dat" sample_vd)) E.
  match type of E with
  | _ = (Ok tt, ?w1) =>
      destruct (meta_only_records_the_same _ _ _ w1 E)
        as (w2 & E2 & T & F);
      exists w1, w2; split; [exact E|]; split; [exact E2|];
      split; [exact T|exact F]
  end.
Defined.

(* ================================================================= *)
(** * What [_get_date] accepts *)

Lemma int_digits_raises s : forall acc e,
  int_digits acc s = Raise e -> e = ValueError.
Proof.
  induction s as [|c s IH]; simpl; intros acc e H; [discriminate|].
  destruct (is_digit c); [eauto|now inversion H].
Qed.

Lemma py_int_raises s e : py_int s = Raise e -> e = ValueError.
Proof.
  unfold py_int. destruct (strip s); intros H; [now inversion H|].
  eapply int_digits_raises; eauto.
Qed.

Ltac mt_inv :=
  repeat match goal with
         | H : mt (Seq _ _) _ _ _ |- _ => inversion H; subst; clear H
         | H : mt (Alt _ _) _ _ _ |- _ => inversion H; subst; clear H
         | H : mt (Set_ _) _ _ _ |- _ => inversion H; subst; clear H
         | H : mt Eps _ _ _ |- _ => inversion H; subst; clear H
         end.

(** The year takes two characters of the token, the month and the day one
    or two each. *)
Lemma strptime_parts d m :
  match_at strptime_re d false = Some (m, []) ->
  exists u1 u2 u3,
    d = u1 ++ u2 ++ u3
    /\ group m 1 = Some u1 /\ group m 2 = Some u2 /\ group m 3 = Some u3
    /\ length u1 = 2 /\ 1 <= length u2 <= 2 /\ 1 <= length u3 <= 2.
Proof.
  intros E.
  assert (T : tiled 1 2 3 strptime_re = true) by reflexivity.
  destruct (tiled_match _ _ _ _ _ _ _ _ T E)
    as (u1 & u2 & u3 & Et & G1 & G2 & G3 & (a1 & b1 & L1) & (a2 & b2 & L2)
        & (a3 & b3 & L3)).
  apply match_at_sound in E. destruct E as (Ed & _).
  rewrite app_nil_r in Ed. exists u1, u2, u3.
  split; [congruence|]. split; [exact G1|]. split; [exact G2|].
  split; [exact G3|].
  vm_compute in L1, L2, L3. split; [|split].
  - clear L2 L3. mt_inv. reflexivity.
  - clear L1 L3. mt_inv; simpl; lia.
  - clear L1 L2. mt_inv; simpl; lia.
Qed.

(** [_get_date] returns a text of ten characters, and only for a token of
    four to six characters; for every other token, and for a token that
    names no day of the calendar, it raises [ValueError] and no other
    exception. *)
Theorem get_date_outcomes d :
  (exists fd, get_date d = Ok fd /\ length fd = 10 /\ 4 <= length d <= 6)
  \/ get_date d = Raise ValueError.
Proof.
  unfold get_date, strptime.
  destruct (match_at strptime_re d false) as [[m rest]|] eqn:E;
    [|right; reflexivity].
  destruct rest as [|c rest]; [|right; reflexivity].
  destruct (strptime_parts _ _ E)
    as (u1 & u2 & u3 & Ed & G1 & G2 & G3 & L1 & L2 & L3).
  rewrite G1, G2, G3. cbn [orraise bind].
  destruct (py_int u1) as [y|e1] eqn:P1; cbn [bind];
    [|right; f_equal; eapply py_int_raises; eauto].
  destruct (py_int u2) as [mo|e2] eqn:P2; cbn [bind];
    [|right; f_equal; eapply py_int_raises; eauto].
  destruct (py_int u3) as [dd|e3] eqn:P3; cbn [bind];
    [|right; f_equal; eapply py_int_raises; eauto].
  match goal with
  | |- context [if ?b then _ else _] => destruct b
  end; cbn [bind]; [left|right; reflexivity].
  eexists. split; [reflexivity|]. split; [reflexivity|].
  subst d. rewrite !length_app. lia.
Qed.

(* ================================================================= *)
(** * A measurement shorter than its header *)





(* ================================================================= *)
(** * The exceptions of a run *)

(** ** [re.sub] returns when its callback does *)

Definition repl_total (r : re) (f : rmatch -> res text) : Prop :=
  forall s adv m rest,
    match_at r s adv = Some (m, rest) -> exists e, f m = Ok e.

Lemma sub_step_total r f s :
  repl_total r f -> exists en, sub_step r f s = Ok en.
Proof.
  intros P. unfold sub_step.
  destruct (match_at r s false) as [[m rest]|] eqn:E1; [|eauto].
  destruct (P _ _ _ _ E1) as (e1 & F1). rewrite F1. cbn [bind].
  destruct (length (m_text m)); [|eauto].
  destruct (match_at r s true) as [[m2 rest2]|] eqn:E2; [|eauto].
  destruct (P _ _ _ _ E2) as (e2 & F2). rewrite F2. cbn [bind]. eauto.
Qed.

Lemma sub_walk_total r f :
  repl_total r f -> forall s k, exists t, sub_walk r f s k = Ok t.
Proof.
  intros P. induction s as [|c s IH]; intros k.
  - destruct k; cbn [sub_walk]; [|eauto].
    destruct (sub_step_total r f [] P) as ([e n] & E). rewrite E.
    cbn [bind]. eauto.
  - destruct k as [|k]; cbn [sub_walk]; [|apply IH].
    destruct (sub_step_total r f (c :: s) P) as ([e n] & E). rewrite E.
    cbn [bind]. destruct n as [|n'].
    + destruct (IH 0) as (t & Et). rewrite Et. cbn [bind]. eauto.
    + destruct (IH n') as (t & Et). rewrite Et. cbn [bind]. eauto.
Qed.

Lemma re_sub_total r f s :
  repl_total r f -> exists t, re_sub r f s = Ok t.
Proof. intros P. apply sub_walk_total. exact P. Qed.

Lemma number_repl_total r : tiled 1 2 3 r = true -> repl_total r number_repl.
Proof.
  intros T s adv m rest M.
  destruct (tiled_match _ _ _ _ _ _ _ _ T M)
    as (u1 & u2 & u3 & _ & G1 & G2 & G3 & _).
  unfold number_repl. rewrite G1, G2, G3. cbn [orraise bind]. eauto.
Qed.

Lemma x_repl_total r : tiled 1 3 4 r = true -> repl_total r x_repl.
Proof.
  intros T s adv m rest M.
  destruct (tiled_match _ _ _ _ _ _ _ _ T M)
    as (u1 & u2 & u3 & _ & G1 & G2 & G3 & _).
  unfold x_repl. rewrite G1, G2, G3. cbn [orraise bind]. eauto.
Qed.

Lemma zero_repl_total r : tiled 1 3 4 r = true -> repl_total r zero_repl.
Proof.
  intros T s adv m rest M.
  destruct (tiled_match _ _ _ _ _ _ _ _ T M)
    as (u1 & u2 & u3 & _ & G1 & G2 & G3 & _).
  rewrite (zero_repl_value _ _ _ _ G1 G2 G3). eauto.
Qed.

Lemma sweep_repl_total r : repl_total r sweep_repl.
Proof. intros s adv m rest M. rewrite sweep_repl_mask. eauto. Qed.

(** ** The loops *)

Lemma number_pass_returns st kb :
  tiled 1 2 3 (snd kb) = true -> exists st', number_pass st kb = Ok st'.
Proof.
  destruct st as [h ms], kb as [key buffer]. cbn [snd]. intros T.
  unfold number_pass. destruct (re_search buffer h); [|eauto].
  destruct (re_sub_total buffer number_repl h (number_repl_total _ T))
    as (t & E).
  rewrite E. cbn [bind]. eauto.
Qed.

Lemma zero_pass_returns st kb :
  tiled 1 3 4 (snd kb) = true -> exists st', zero_pass st kb = Ok st'.
Proof.
  destruct st as [h ms], kb as [key buffer]. cbn [snd]. intros T.
  unfold zero_pass. destruct (re_search buffer h); [|eauto].
  destruct (re_sub_total buffer zero_repl h (zero_repl_total _ T))
    as (t & E).
  rewrite E. cbn [bind]. eauto.
Qed.

Lemma x_pass_raises st kb e :
  tiled 1 3 4 (snd kb) = true -> x_pass st kb = Raise e ->
  e = AttributeError.
Proof.
  destruct st as [h ms], kb as [key buffer]. cbn [snd]. intros T.
  unfold x_pass. destruct (re_search buffer h); cbn [orraise bind].
  - destruct (re_sub_total buffer x_repl h (x_repl_total _ T)) as (t & E).
    rewrite E. cbn [bind]. discriminate.
  - intros H. now inversion H.
Qed.

Lemma meta_pass_returns st kb : exists st', meta_pass st kb = Ok st'.
Proof.
  destruct st as [h ms], kb as [key buffer]. unfold meta_pass.
  destruct (re_search buffer h); eauto.
Qed.

Lemma for_each_returns pass buf :
  Forall (fun kb => forall st, exists st', pass st kb = Ok st') buf ->
  forall st, exists st', for_each pass buf st = Ok st'.
Proof.
  induction 1 as [|kb buf Hk Hb IH]; intros st; cbn [for_each]; [eauto|].
  destruct (Hk st) as (st1 & E). rewrite E. cbn [bind]. apply IH.
Qed.

Lemma for_each_x_raises : forall buf st e,
  Forall (fun kb => tiled 1 3 4 (snd kb) = true) buf ->
  for_each x_pass buf st = Raise e -> e = AttributeError.
Proof.
  induction buf as [|kb buf IH]; intros st e T H; cbn [for_each] in H;
    [discriminate|].
  inversion T; subst.
  destruct (x_pass st kb) as [st1|e1] eqn:E; cbn [bind] in H.
  - eapply IH; eauto.
  - inversion H; subst. eapply x_pass_raises; eauto.
Qed.

Lemma exam_date_raises h e :
  exam_date_of h = Raise e -> e = AttributeError \/ e = IndexError.
Proof.
  unfold exam_date_of.
  destruct (re_search frame_of_reference_re h) as [m|];
    cbn [orraise bind]; [|intros H; inversion H; auto].
  destruct (group m 2) as [fq|];
    cbn [orraise bind]; [|intros H; inversion H; auto].
  destruct (nth_error (split dot fq) 10) as [c|];
    cbn [orraise bind]; [discriminate|intros H; inversion H; auto].
Qed.

Lemma get_date_raises d e : get_date d = Raise e -> e = ValueError.
Proof.
  unfold get_date, strptime.
  destruct (match_at strptime_re d false) as [[m rest]|] eqn:E;
    [|intros H; now inversion H].
  destruct rest as [|c rest]; [|intros H; now inversion H].
  destruct (strptime_parts _ _ E)
    as (u1 & u2 & u3 & _ & G1 & G2 & G3 & _).
  rewrite G1, G2, G3. cbn [orraise bind].
  destruct (py_int u1) as [y|e1] eqn:P1; cbn [bind];
    [|intros H; inversion H; subst; eapply py_int_raises; eauto].
  destruct (py_int u2) as [mo|e2] eqn:P2; cbn [bind];
    [|intros H; inversion H; subst; eapply py_int_raises; eauto].
  destruct (py_int u3) as [dd|e3] eqn:P3; cbn [bind];
    [|intros H; inversion H; subst; eapply py_int_raises; eauto].
  match goal with
  | |- context [if ?b then _ else _] => destruct b
  end; cbn [bind]; intros H; [discriminate|now inversion H].
Qed.

(** Where a failing run of the redactor fails. *)
Lemma redactor_raises_cases h e :
  anonymize_twix_header h = Raise e ->
  (exam_date_of h = Raise e /\ (e = AttributeError \/ e = IndexError))
  \/ (e = ValueError
      /\ exists d, exam_date_of h = Ok d /\ get_date d = Raise ValueError)
  \/ (e = AttributeError
      /\ exists d fd, exam_date_of h = Ok d /\ get_date d = Ok fd).
Proof.
  unfold anonymize_twix_header.
  destruct (exam_date_of h) as [d|e0] eqn:E0; cbn [bind].
  2:{ intros H. inversion H; subst e0. left. split; [reflexivity|].
      eapply exam_date_raises; eauto. }
  destruct (get_date d) as [fd|e1] eqn:E1; cbn [bind].
  2:{ intros H. inversion H; subst e1.
      pose proof (get_date_raises _ _ E1) as ->.
      right. left. split; [reflexivity|]. eauto. }
  destruct (for_each_returns number_pass number_buffer) with
    (st := (h, dict_set "Exam_date" (Some fd) [])) as (st1 & F1).
  { eapply Forall_impl; [|apply number_buffer_tiled].
    intros kb T st. now apply number_pass_returns. }
  rewrite F1. cbn [bind].
  destruct (for_each_returns zero_pass zero_buffer) with (st := st1)
    as (st2 & F2).
  { eapply Forall_impl; [|apply zero_buffer_tiled].
    intros kb T st. now apply zero_pass_returns. }
  rewrite F2. cbn [bind].
  destruct (for_each x_pass x_buffer st2) as [st3|e3] eqn:F3; cbn [bind].
  2:{ intros H. inversion H; subst e3.
      pose proof (for_each_x_raises _ _ _ x_buffer_tiled F3) as ->.
      right. right. split; [reflexivity|]. eauto. }
  destruct (for_each_returns meta_pass meta_buffer) with (st := st3)
    as (st4 & F4).
  { apply Forall_forall. intros kb _ st. apply meta_pass_returns. }
  rewrite F4. cbn [bind].
  destruct (re_sub_total (sweep_re d) sweep_repl (fst st4)
              (sweep_repl_total _)) as (h5 & F5).
  unfold sweep. rewrite F5. cbn [bind]. discriminate.
Qed.

(** A run of the redactor that fails fails in one of three ways: with
    [AttributeError], because the frame of reference or one of the three
    mask fields is not found; with [IndexError], raised by the exam-date
    lookup; or with [ValueError], raised by [_get_date] for the token the
    lookup returned.  The replacement callbacks never fail, since every
    group they read is set by the match they are given. *)
Theorem redactor_exceptions h e :
  anonymize_twix_header h = Raise e ->
  (e = AttributeError \/ e = IndexError \/ e = ValueError)
  /\ (e = IndexError -> exam_date_of h = Raise IndexError)
  /\ (e = ValueError ->
      exists d, exam_date_of h = Ok d /\ get_date d = Raise ValueError).
Proof.
  intros H.
  destruct (redactor_raises_cases h e H)
    as [(E0 & [->| ->])|[(-> & d & E0 & E1)|(-> & _)]].
  - split; [auto|]. split; discriminate.
  - split; [auto|]. split; [auto|discriminate].
  - split; [auto|]. split; [discriminate|]. intros _. eauto.
  - split; [auto|]. split; discriminate.
Qed.

Lemma redactor_exceptions_witness :
  anonymize_twix_header header_few_stops = Raise IndexError
  /\ exam_date_of header_few_stops = Raise IndexError.
Proof.
  assert (E : anonymize_twix_header header_few_stops = Raise IndexError)
    by (vm_compute; reflexivity).
  split; [exact E|].
  exact (proj1 (proj2 (redactor_exceptions header_few_stops IndexError E))
           eq_refl).
Defined.

(** ** The container readers *)




















